(** * ProofPix: index manager, analysis parser, certificate generator and
      fingerprint pipeline

    A shallow embedding of the Go sources

    - [internal/index]        ([IndexManager]: Load, Save, HasIndex, Search, Add),
    - [cmd/fingerprint-worker/analysis.go]   ([parseAnalysis]),
    - [internal/certificate]  ([Generate]),
    - [cmd/fingerprint-worker/main.go]       ([processImage]),

    followed by the properties of the specification that concern them.

    Conventions.  Go's [int], [int64] are [Z]; a [float32] is its IEEE-754
    binary32 bit pattern (a [Z] below [2^32]); a [float64] is a [spec_float]
    rounded at precision 53; a [string] is a byte string; a [[]byte] is a
    [list byte]; a Go [map] is a [gmap] (with [None] for the nil map); a value
    of type [error] is [option error], [None] being [nil]. *)

From Stdlib Require Import ZArith List String Ascii Lia Bool.
From Stdlib.Strings Require Import Byte.
From Stdlib Require Import Floats.SpecFloat DecimalString.
From stdpp Require Import base gmap strings list.

Open Scope Z_scope.

(** ** Go preliminaries *)

(** The error values that the modelled code creates or tests for.  Errors
    coming from the outside world are values of this type as well. *)
Inductive error : Type :=
| ErrObjectNotExist                 (* storage.ErrObjectNotExist *)
| ErrRange                          (* strconv.ErrRange *)
| ErrSyntax                         (* strconv.ErrSyntax *)
| errorString (msg : string)        (* errors.New, fmt.Errorf *)
| NumError (Func Num : string) (Err : error).   (* *strconv.NumError *)

(** The double quote. *)
Definition dquote : string := String (ascii_of_nat 34) EmptyString.

(** The [Error()] method.  A [*strconv.NumError] prints the text that failed
    to parse through [strconv.Quote]; the texts that reach it here are decimal
    notation, which [Quote] puts between double quotes as it stands. *)
Fixpoint Error (e : error) : string :=
  match e with
  | ErrObjectNotExist => "storage: object doesn't exist"
  | ErrRange => "value out of range"
  | ErrSyntax => "invalid syntax"
  | errorString msg => msg
  | NumError Func Num Err =>
    "strconv." +:+ Func +:+ ": parsing " +:+ dquote +:+ Num +:+ dquote +:+ ": " +:+ Error Err
  end.

Definition float32 : Type := Z.

Definition nl : string := String (ascii_of_nat 10) EmptyString.

(** ** Package faiss: the interface of the nearest-neighbour library

    The library is not part of the repository.  [IndexManager] uses the
    methods below of [faiss.Index] and the two functions [faiss.WriteIndex]
    and [faiss.ReadIndex]; they are the parameters of the development.  The Go
    methods update the index in place, so [idx_Add] returns the index after
    the call together with the error.  [contents] is not a method: it names
    the stored vectors, in sequence-id order, for the statements. *)
Module faiss.

Class Index (I : Type) : Type := {
  D : I -> Z;
  Ntotal : I -> Z;
  idx_Add : I -> list float32 -> I * option error;
  idx_Search : I -> list float32 -> Z -> list float32 * list Z * option error;
  WriteIndex : I -> list byte + error;
  ReadIndex : list byte -> I + error;
  contents : I -> list (list float32)
}.

End faiss.

(** ** The outside world of the index manager

    Cloud Storage is a finite map from (bucket, object) to the bytes of the
    object.  [Faults] lists the system calls of [Load] and [Save] that can
    fail for reasons outside the program, each with the error it returns on
    this run ([None]: the call succeeds). *)
Record Faults : Type := {
  f_NewClient : option error;       (* storage.NewClient *)
  f_NewReader : option error;       (* obj.NewReader, other than a missing object *)
  f_CreateTemp : option error;      (* os.CreateTemp *)
  f_Open : option error;            (* os.Open *)
  f_Copy : option (nat * error);    (* io.Copy: bytes copied before the error *)
  f_Close : option error            (* writer.Close *)
}.

Definition no_faults : Faults :=
  {| f_NewClient := None; f_NewReader := None; f_CreateTemp := None;
     f_Open := None; f_Copy := None; f_Close := None |}.


(** ** Package index *)
Module index.
Import faiss.

Section IndexManager.
Context {I : Type} `{Index I}.

(** [type IndexManager struct { index faiss.Index; idMap map[int64]string;
    mu sync.RWMutex }].  Every method takes [mu] for its whole body or
    for the accesses to the fields, so a method is one atomic step on the
    two fields; [index = None] is the nil interface, [idMap = None] the
    nil map. *)
Record IndexManager : Type := {
  index : option I;
  idMap : option (gmap Z string)
}.

(** [&index.IndexManager{}] *)
Definition new_manager : IndexManager := {| index := None; idMap := None |}.

(** [m.idMap[label]] with the comma-ok form: a nil map has no entries. *)
Definition idMap_lookup (im : option (gmap Z string)) (label : Z) : option string :=
  match im with
  | None => None
  | Some mp => mp !! label
  end.

(** [client.Bucket(bucketName).Object(objectName).NewReader(ctx)] *)
Definition NewReader (ft : Faults) (gcs : gmap (string * string) (list byte)) (bucketName objectName : string)
    : list byte + error :=
  match f_NewReader ft with
  | Some err => inr err
  | None =>
    match gcs !! (bucketName, objectName) with
    | None => inr ErrObjectNotExist
    | Some blob => inl blob
    end
  end.

(** [Load]: the object store is only read. *)
Definition Load (ft : Faults) (gcs : gmap (string * string) (list byte)) (m : IndexManager)
    (bucketName objectName : string) : IndexManager * option error :=
  match f_NewClient ft with
  | Some err => (m, Some err)
  | None =>
    match NewReader ft gcs bucketName objectName with
    | inr ErrObjectNotExist => (m, None)
    | inr err => (m, Some err)
    | inl blob =>
      match f_CreateTemp ft with
      | Some err => (m, Some err)
      | None =>
        match f_Copy ft with
        | Some (_, err) => (m, Some err)
        | None =>
          match ReadIndex blob with
          | inr err => (m, Some err)
          | inl loadedIndex =>
            ({| index := Some loadedIndex; idMap := idMap m |}, None)
          end
        end
      end
    end
  end.

(** [Save]: the manager is only read; the object store is written. *)
Definition Save (ft : Faults) (gcs : gmap (string * string) (list byte)) (m : IndexManager)
    (bucketName objectName : string) : gmap (string * string) (list byte) * option error :=
  match index m with
  | None => (gcs, Some (errorString "no index to save: index is nil"))
  | Some idx =>
    match f_CreateTemp ft with
    | Some err => (gcs, Some err)
    | None =>
      match WriteIndex idx with
      | inr err => (gcs, Some err)
      | inl blob =>
        match f_Open ft with
        | Some err => (gcs, Some err)
        | None =>
          match f_NewClient ft with
          | Some err => (gcs, Some err)
          | None =>
            match f_Copy ft with
            | Some (n, err) =>
              (* the deferred writer.Close() finalises what was copied *)
              (<[(bucketName, objectName) := take n blob]> gcs, Some err)
            | None =>
              match f_Close ft with
              | Some err => (gcs, Some err)
              | None => (<[(bucketName, objectName) := blob]> gcs, None)
              end
            end
          end
        end
      end
    end
  end.

(** [HasIndex] *)
Definition HasIndex (m : IndexManager) : bool :=
  match index m with
  | Some _ => true
  | None => false
  end.

(** The loop of [Search] over the labels: the asset id of the label, or
    the empty string when the label is not in [idMap]. *)
Definition label_assetID (im : option (gmap Z string)) (label : Z) : string :=
  match idMap_lookup im label with
  | Some assetID => assetID
  | None => ""
  end.

(** [Search]; a nil slice and an empty slice are both [[]]. *)
Definition Search (m : IndexManager) (vector : list float32) (k : Z)
    : list float32 * list string * option error :=
  match index m with
  | None => ([], [], None)
  | Some idx =>
    if Ntotal idx =? 0 then ([], [], None)
    else
      match idx_Search idx vector k with
      | (_, _, Some err) => ([], [], Some err)
      | (distances, labels, None) =>
        (distances, map (label_assetID (idMap m)) labels, None)
      end
  end.

(** [Add] *)
Definition Add (m : IndexManager) (assetID : string) (vector : list float32)
    : IndexManager * option error :=
  match index m with
  | None => (m, Some (errorString "index is not initialized"))
  | Some idx =>
    let newID := Ntotal idx in
    match idx_Add idx vector with
    | (idx', Some err) => ({| index := Some idx'; idMap := idMap m |}, Some err)
    | (idx', None) =>
      let mp := match idMap m with
                | None => ∅
                | Some mp => mp
                end in
      ({| index := Some idx'; idMap := Some (<[newID := assetID]> mp) |}, None)
    end
  end.

(** A run of [Add] calls, in the order in which they hold the writer
    lock: the manager after the run and the error of every call. *)
Fixpoint AddAll (m : IndexManager) (reqs : list (string * list float32))
    : IndexManager * list (option error) :=
  match reqs with
  | [] => (m, [])
  | (assetID, vector) :: reqs' =>
    let '(m1, err) := Add m assetID vector in
    let '(m2, errs) := AddAll m1 reqs' in
    (m2, err :: errs)
  end.

End IndexManager.

Arguments IndexManager I : clear implicits.

End index.

(** ** A reference implementation of the library interface

    A flat index with the squared Euclidean distance, written after the way
    the repository uses the library: [NewIndexFlatL2(d)], an [Add] that takes
    the vectors flattened into one slice (as [Build] passes them), a [Search]
    for one query that returns [k] hits by ascending distance, earlier
    sequence id first among equal distances, padded with label [-1].  What
    the library does with a slice whose length is no multiple of [d] cannot
    be read off the repository; here such a slice is refused.  The general
    statements below hold for every implementation of the interface; this
    one instantiates them and carries the examples. *)
Module flat.

(** binary32 *)
Definition prec32 : Z := 24.
Definition emax32 : Z := 128.

Definition f32_decode (b : Z) : spec_float :=
  let s := Z.testbit b 31 in
  let e := Z.land (Z.shiftr b 23) 255 in
  let m := Z.land b (2 ^ 23 - 1) in
  if e =? 255 then (if m =? 0 then S754_infinity s else S754_nan)
  else if e =? 0 then
    match m with
    | Zpos p => S754_finite s p (-149)
    | _ => S754_zero s
    end
  else
    match m + 2 ^ 23 with
    | Zpos p => S754_finite s p (e - 150)
    | _ => S754_nan
    end.

Definition f32_sign (s : bool) : Z := if s then 2 ^ 31 else 0.

Definition f32_encode (x : spec_float) : Z :=
  match x with
  | S754_zero s => f32_sign s
  | S754_infinity s => f32_sign s + 255 * 2 ^ 23
  | S754_nan => 255 * 2 ^ 23 + 2 ^ 22
  | S754_finite s m e =>
    if Zpos m <? 2 ^ 23 then f32_sign s + Zpos m
    else f32_sign s + (e + 150) * 2 ^ 23 + (Zpos m - 2 ^ 23)
  end.

(** The largest finite binary32, the distance of a padding hit. *)
Definition FLT_MAX : float32 := 255 * 2 ^ 23 - 1.

(** Squared Euclidean distance, accumulated in index order. *)
Fixpoint L2sqr (acc : spec_float) (x y : list float32) : spec_float :=
  match x, y with
  | a :: x', b :: y' =>
    let d := SFsub prec32 emax32 (f32_decode a) (f32_decode b) in
    L2sqr (SFadd prec32 emax32 acc (SFmul prec32 emax32 d d)) x' y'
  | _, _ => acc
  end.

Record IndexFlat : Type := {
  flat_d : Z;
  flat_xb : list (list float32)
}.

Definition NewIndexFlatL2 (d : Z) : IndexFlat := {| flat_d := d; flat_xb := [] |}.

(** The slice [x] cut into vectors of [d] floats. *)
Fixpoint chunks (fuel : nat) (d : nat) (x : list float32) : list (list float32) :=
  match fuel with
  | O => []
  | S fuel' =>
    match x with
    | [] => []
    | _ => take d x :: chunks fuel' d (drop d x)
    end
  end.

Definition flat_Add (idx : IndexFlat) (x : list float32) : IndexFlat * option error :=
  let d := flat_d idx in
  if (0 <? d) && (Z.of_nat (length x) mod d =? 0) && negb (Z.of_nat (length x) =? 0) then
    ({| flat_d := d;
        flat_xb := flat_xb idx ++ chunks (length x) (Z.to_nat d) x |}, None)
  else (idx, Some (errorString "faiss: invalid vector length")).

(** Insertion of a hit into the hits sorted so far: after every hit that
    is not farther. *)
Fixpoint insert_hit (h : spec_float * Z) (hs : list (spec_float * Z))
    : list (spec_float * Z) :=
  match hs with
  | [] => [h]
  | h' :: hs' =>
    if SFltb (fst h) (fst h') then h :: hs
    else h' :: insert_hit h hs'
  end.

Fixpoint rank (label : Z) (q : list float32) (xb : list (list float32))
    (acc : list (spec_float * Z)) : list (spec_float * Z) :=
  match xb with
  | [] => acc
  | v :: xb' =>
    rank (label + 1) q xb' (insert_hit (L2sqr (S754_zero false) q v, label) acc)
  end.

Definition pad_hits (k : nat) (hs : list (float32 * Z)) : list (float32 * Z) :=
  take k hs ++ repeat (FLT_MAX, -1) (k - length hs).

Definition flat_Search (idx : IndexFlat) (x : list float32) (k : Z)
    : list float32 * list Z * option error :=
  if (Z.of_nat (length x) =? flat_d idx) && (0 <? k) then
    let hs := map (fun h => (f32_encode (fst h), snd h)) (rank 0 x (flat_xb idx) []) in
    let hs := pad_hits (Z.to_nat k) hs in
    (map fst hs, map snd hs, None)
  else ([], [], Some (errorString "faiss: invalid query")).

(** The snapshot: the tag [IxF2], [d] and [ntotal] in 8 bytes each, then
    the floats in 4 bytes each, all little-endian. *)
Definition byte_of_Z (x : Z) : byte :=
  match Byte.of_N (Z.to_N (x mod 256)) with
  | Some b => b
  | None => x00
  end.

Definition Z_of_byte (b : byte) : Z := Z.of_N (Byte.to_N b).

Fixpoint le_bytes (n : nat) (x : Z) : list byte :=
  match n with
  | O => []
  | S n' => byte_of_Z x :: le_bytes n' (x / 256)
  end.

Fixpoint le_value (bs : list byte) : Z :=
  match bs with
  | [] => 0
  | b :: bs' => Z_of_byte b + 256 * le_value bs'
  end.

Definition magic : list byte := [x49; x78; x46; x32].

Fixpoint bytes_eqb (a b : list byte) : bool :=
  match a, b with
  | [], [] => true
  | x :: a', y :: b' => Byte.eqb x y && bytes_eqb a' b'
  | _, _ => false
  end.

Definition flat_Write (idx : IndexFlat) : list byte + error :=
  inl (magic ++ le_bytes 8 (flat_d idx)
             ++ le_bytes 8 (Z.of_nat (length (flat_xb idx)))
             ++ flat_map (flat_map (le_bytes 4)) (flat_xb idx)).

Fixpoint read_floats (n : nat) (bs : list byte) : option (list float32 * list byte) :=
  match n with
  | O => Some ([], bs)
  | S n' =>
    match bs with
    | b0 :: b1 :: b2 :: b3 :: bs' =>
      match read_floats n' bs' with
      | Some (fs, rest) => Some (le_value [b0; b1; b2; b3] :: fs, rest)
      | None => None
      end
    | _ => None
    end
  end.

Fixpoint read_vectors (n d : nat) (bs : list byte) : option (list (list float32)) :=
  match n with
  | O => match bs with [] => Some [] | _ => None end
  | S n' =>
    match read_floats d bs with
    | Some (v, rest) =>
      match read_vectors n' d rest with
      | Some vs => Some (v :: vs)
      | None => None
      end
    | None => None
    end
  end.

Definition flat_Read (bs : list byte) : IndexFlat + error :=
  if bytes_eqb (take 4 bs) magic then
    let d := le_value (take 8 (drop 4 bs)) in
    let n := le_value (take 8 (drop 12 bs)) in
    match read_vectors (Z.to_nat n) (Z.to_nat d) (drop 20 bs) with
    | Some xb => inl {| flat_d := d; flat_xb := xb |}
    | None => inr (errorString "faiss: malformed index file")
    end
  else inr (errorString "faiss: malformed index file").

(** An index as the program can hold it: the counts fit 64 bits, every
    vector has [d] floats and every float 32 bits. *)
Definition flat_wf (idx : IndexFlat) : Prop :=
  0 <= flat_d idx < 2 ^ 64 /\
  Z.of_nat (length (flat_xb idx)) < 2 ^ 64 /\
  Forall (fun v => Z.of_nat (length v) = flat_d idx /\
                   Forall (fun x => 0 <= x < 2 ^ 32) v) (flat_xb idx).


#[export] Instance IndexFlat_Index : faiss.Index IndexFlat := {|
  faiss.D := flat_d;
  faiss.Ntotal := fun idx => Z.of_nat (length (flat_xb idx));
  faiss.idx_Add := flat_Add;
  faiss.idx_Search := flat_Search;
  faiss.WriteIndex := flat_Write;
  faiss.ReadIndex := flat_Read;
  faiss.contents := flat_xb
|}.

End flat.

(** ** Package regexp: leftmost-first matching

    Go's [regexp] returns the match that a backtracking matcher finds first:
    the leftmost start, and from there alternatives in order, greedy
    repetitions longest first, lazy ones shortest first.  [exec] is that
    matcher, in continuation-passing style, for the operators the two patterns
    of the program use.  It runs over bytes.  Go decodes UTF-8, which gives the
    same matches for these patterns: their literals and classes are ASCII (a
    byte below 128 is always a character of its own) apart from the case
    folding of [s], written out in [fold_s]; and [.] is only ever followed by
    a newline or the end of the text, both character boundaries. *)
Module regexp.

Inductive regex : Type :=
| Empty
| Class (p : ascii -> bool)
| Seq (r1 r2 : regex)
| Alt (r1 r2 : regex)
| Star (greedy : bool) (r : regex)
| Group (r : regex)                  (* the capturing group number 1 *)
| EndText.                           (* \z *)

Definition orelse {A : Type} (x : option A) (y : unit -> option A) : option A :=
  match x with
  | Some a => Some a
  | None => y tt
  end.

Section Exec.
Context {A : Type}.

(** [exec r s cap k]: match [r] at the head of [s]; [k] receives the rest
    of the text and the capture and decides whether the whole match goes
    through, so that a failure of [k] makes [r] try its next way to
    match.  An iteration of a repetition must consume input; the fuel of
    [loop] is the length of the text. *)
Fixpoint exec (r : regex) (s : list ascii) (cap : option (list ascii))
    (k : list ascii -> option (list ascii) -> option A) {struct r} : option A :=
  match r with
  | Empty => k s cap
  | Class p =>
    match s with
    | c :: s' => if p c then k s' cap else None
    | [] => None
    end
  | Seq r1 r2 => exec r1 s cap (fun s' cap' => exec r2 s' cap' k)
  | Alt r1 r2 => orelse (exec r1 s cap k) (fun _ => exec r2 s cap k)
  | Star greedy r' =>
    (fix loop (fuel : nat) (s : list ascii) (cap : option (list ascii))
         {struct fuel} : option A :=
       match fuel with
       | O => k s cap
       | S fuel' =>
         let again (_ : unit) :=
           exec r' s cap (fun s' cap' =>
             if (length s' <? length s)%nat then loop fuel' s' cap' else None) in
         if greedy then orelse (again tt) (fun _ => k s cap)
         else orelse (k s cap) again
       end) (length s) s cap
  | Group r' =>
    exec r' s cap (fun s' _ => k s' (Some (take (length s - length s') s)))
  | EndText =>
    match s with
    | [] => k s cap
    | _ => None
    end
  end.
End Exec.

(** The first group of the match of [r] that starts at the head of [s]. *)
Definition match_here (r : regex) (s : list ascii) : option (list ascii) :=
  exec r s None (fun _ cap => Some (default [] cap)).

(** [re.FindStringSubmatch(s)[1]], or [None] when the result is nil. *)
Fixpoint FindStringSubmatch (r : regex) (s : list ascii) : option (list ascii) :=
  match match_here r s with
  | Some g => Some g
  | None =>
    match s with
    | [] => None
    | _ :: s' => FindStringSubmatch r s'
    end
  end.

(** *** Building blocks of the patterns *)

Definition chr (c : ascii) : regex := Class (Ascii.eqb c).
Definition Plus (greedy : bool) (r : regex) : regex := Seq r (Star greedy r).
Definition Quest (r : regex) : regex := Alt r Empty.

Definition is_upper_of (c x : ascii) : bool :=
  let n := nat_of_ascii c in
  ((97 <=? n) && (n <=? 122) && (nat_of_ascii x =? n - 32))%nat.

(** U+017F, the third member of the case-folding orbit of [s], in UTF-8. *)
Definition fold_s : regex := Seq (chr (ascii_of_nat 197)) (chr (ascii_of_nat 191)).

(** One character of a literal under [(?i)]. *)
Definition fold (c : ascii) : regex :=
  let cls := Class (fun x => Ascii.eqb c x || is_upper_of c x) in
  if Ascii.eqb c "s" then Alt cls fold_s else cls.

(** A literal under [(?i)]; the pattern spells it in lower case. *)
Fixpoint lit (s : string) : regex :=
  match s with
  | EmptyString => Empty
  | String c s' => Seq (fold c) (lit s')
  end.

(** [\s] is [[\t\n\f\r ]]. *)
Definition space : regex :=
  Class (fun x => let n := nat_of_ascii x in
                  ((n =? 9) || (n =? 10) || (n =? 12) || (n =? 13) || (n =? 32))%nat).

Definition is_digit (x : ascii) : bool :=
  let n := nat_of_ascii x in ((48 <=? n) && (n <=? 57))%nat.

Definition digit : regex := Class is_digit.

(** [.] without the [s] flag *)
Definition dot : regex := Class (fun x => negb (nat_of_ascii x =? 10)%nat).

Definition newline : regex := chr (ascii_of_nat 10).

(** *** The occurrences of a label

    [strip_fold c s] is the text after one character of a literal under
    [(?i)] at the head of [s]; [strip_label l s] the text after the whole
    literal [l]; [occurs l s] tells whether [l] is found somewhere in [s],
    in any letter case. *)
Definition strip_fold (c : ascii) (s : list ascii) : option (list ascii) :=
  match s with
  | x :: s' =>
    if Ascii.eqb c x || is_upper_of c x then Some s'
    else if Ascii.eqb c "s" then
      match s' with
      | y :: s'' =>
        if Ascii.eqb (ascii_of_nat 197) x && Ascii.eqb (ascii_of_nat 191) y then Some s''
        else None
      | [] => None
      end
    else None
  | [] => None
  end.

Fixpoint strip_label (l : string) (s : list ascii) : option (list ascii) :=
  match l with
  | EmptyString => Some s
  | String c l' =>
    match strip_fold c s with
    | Some s' => strip_label l' s'
    | None => None
    end
  end.

Fixpoint occurs (l : string) (s : list ascii) : bool :=
  match strip_label l s with
  | Some _ => true
  | None =>
    match s with
    | [] => false
    | _ :: s' => occurs l s'
    end
  end.

End regexp.

(** ** Package strconv *)
Module strconv.

Definition prec64 : Z := 53.
Definition emax64 : Z := 1024.

Definition digit_value (c : ascii) : Z := Z.of_nat (nat_of_ascii c) - 48.

(** The digits of [s] read as a decimal number, after [acc]. *)
Fixpoint read_digits (acc : Z) (s : list ascii) : Z * nat * list ascii :=
  match s with
  | c :: s' =>
    if regexp.is_digit c then
      let '(v, n, rest) := read_digits (10 * acc + digit_value c) s' in (v, S n, rest)
    else (acc, O, s)
  | [] => (acc, O, [])
  end.

(** The binary64 nearest to [n / 10^k], ties to even: one division of
    the two integers, rounded once. *)
Definition float64_of_decimal (n : Z) (k : nat) : spec_float :=
  match n, 10 ^ Z.of_nat k with
  | Zpos p, Zpos q => SFdiv prec64 emax64 (S754_finite false p 0) (S754_finite false q 0)
  | _, _ => S754_zero false
  end.

(** Unsigned decimal notation without exponent ([12], [0.98], [.5], [3.]):
    the number [n] that the digits spell and the count [k] of digits after
    the point; the text denotes [n / 10^k]. *)
Definition parse_decimal (s : list ascii) : option (Z * nat) :=
  let '(ip, ni, rest) := read_digits 0 s in
  let '(n, nf, rest') :=
    match rest with
    | c :: rest1 =>
      if Ascii.eqb c "." then read_digits ip rest1 else (ip, O, rest)
    | [] => (ip, O, rest)
    end in
  match rest' with
  | [] => if (ni + nf =? 0)%nat then None else Some (n, nf)
  | _ => None
  end.

(** [strconv.ParseFloat(s, 64)] on the notation of [parse_decimal], which
    is the notation that the pattern of [parseAnalysis] lets through.
    ParseFloat reads other notations too; they are a syntax error here.  The
    value is the nearest binary64; a value that rounds to infinity comes
    with [ErrRange].  The error is a [*NumError] that names the function and
    the text. *)
Definition ParseFloat (s : list ascii) : spec_float * option error :=
  match parse_decimal s with
  | None => (S754_zero false, Some (NumError "ParseFloat" (string_of_list_ascii s) ErrSyntax))
  | Some (n, k) =>
    match float64_of_decimal n k with
    | S754_infinity sg =>
      (S754_infinity sg, Some (NumError "ParseFloat" (string_of_list_ascii s) ErrRange))
    | f => (f, None)
    end
  end.

(** [strconv.ParseInt(s, 10, 64)] *)
Definition ParseInt (s : list ascii) : Z * option error :=
  let '(neg, body) :=
    match s with
    | c :: s' =>
      if Ascii.eqb c "-" then (true, s')
      else if Ascii.eqb c "+" then (false, s')
      else (false, s)
    | [] => (false, s)
    end in
  let '(v, n, rest) := read_digits 0 body in
  match n, rest with
  | S _, [] =>
    let v := if neg then - v else v in
    if v <? - 2 ^ 63 then
      (- 2 ^ 63, Some (NumError "ParseInt" (string_of_list_ascii s) ErrRange))
    else if 2 ^ 63 - 1 <? v then
      (2 ^ 63 - 1, Some (NumError "ParseInt" (string_of_list_ascii s) ErrRange))
    else (v, None)
  | _, _ => (0, Some (NumError "ParseInt" (string_of_list_ascii s) ErrSyntax))
  end.

End strconv.

(** ** Conversions of Go *)

(** [float64 * 100]: 100 is [25 * 2^2]. *)
Definition float64_hundred : spec_float := S754_finite false 25 2.

Definition float64_mul : spec_float -> spec_float -> spec_float :=
  SFmul strconv.prec64 strconv.emax64.

(** [int(f)] for a [float64]: the fraction is discarded.  Go leaves the
    result open when the value does not fit [int]; the amd64 instruction
    yields the least [int64] then, and so does [NaN]. *)
Definition int_of_float64 (f : spec_float) : Z :=
  match f with
  | S754_zero _ => 0
  | S754_finite sg m e =>
    let a := match e with
             | Z0 => Zpos m
             | Zpos _ => Zpos m * 2 ^ e
             | Zneg _ => Zpos m / 2 ^ (- e)
             end in
    let v := if sg then - a else a in
    if (- 2 ^ 63 <=? v) && (v <? 2 ^ 63) then v else - 2 ^ 63
  | _ => - 2 ^ 63
  end.

(** ** cmd/fingerprint-worker/analysis.go *)
Module analysis.
Import regexp.

(** [(?i)confidence\s+score:\s*([0-9]*\.?[0-9]+)] *)
Definition scoreRegex : regex :=
  Seq (lit "confidence")
 (Seq (Plus true space)
 (Seq (lit "score:")
 (Seq (Star true space)
      (Group (Seq (Star true digit)
             (Seq (Quest (chr "."))
                  (Plus true digit))))))).

(** [(?i)justification:\s*(.+?)(?:\n\n|\z)] *)
Definition narrativeRegex : regex :=
  Seq (lit "justification:")
 (Seq (Star true space)
 (Seq (Group (Plus false dot))
      (Alt (Seq newline newline) EndText))).

(** [parseAnalysis] *)
Definition parseAnalysis (rawText : string) : Z * string * option error :=
  match FindStringSubmatch scoreRegex (list_ascii_of_string rawText) with
  | None => (0, "", Some (errorString "confidence score not found in raw text"))
  | Some scoreMatch1 =>
    match strconv.ParseFloat scoreMatch1 with
    | (_, Some err) =>
      (0, "", Some (errorString ("failed to parse confidence score: " +:+ Error err)))
    | (floatScore, None) =>
      let score := int_of_float64 (float64_mul floatScore float64_hundred) in
      match FindStringSubmatch narrativeRegex (list_ascii_of_string rawText) with
      | None => (0, "", Some (errorString "justification text not found in raw text"))
      | Some narrativeMatch1 => (score, string_of_list_ascii narrativeMatch1, None)
      end
    end
  end.

End analysis.

(** ** Package time: [Time] and [Format(time.RFC3339)] *)
Module time.

(** An instant, with the offset east of UTC (in seconds) that its
    location has at that instant. *)
Record Time : Type := {
  unixSec : Z;
  nsec : Z;
  offset : Z
}.

Definition digits (n : Z) : string :=
  DecimalString.NilZero.string_of_uint (N.to_uint (Z.to_N n)).

Fixpoint zeros (n : nat) : string :=
  match n with
  | O => ""
  | S n' => String "0" (zeros n')
  end.

(** [appendInt(b, x, width)] *)
Definition appendInt (x : Z) (width : nat) : string :=
  let ds := digits (Z.abs x) in
  let padded := zeros (width - String.length ds) +:+ ds in
  if x <? 0 then String "-" padded else padded.

(** Year, month and day of the day number [days] counted from 1970-01-01
    (proleptic Gregorian calendar). *)
Definition civil (days : Z) : Z * Z * Z :=
  let z := days + 719468 in
  let era := z / 146097 in
  let doe := z - era * 146097 in
  let yoe := (doe - doe / 1460 + doe / 36524 - doe / 146096) / 365 in
  let doy := doe - (365 * yoe + yoe / 4 - yoe / 100) in
  let mp := (5 * doy + 2) / 153 in
  let d := doy - (153 * mp + 2) / 5 + 1 in
  let m := if mp <? 10 then mp + 3 else mp - 9 in
  let y := yoe + era * 400 + (if m <=? 2 then 1 else 0) in
  (y, m, d).

(** [t.Format(time.RFC3339)]: seconds precision, [Z] for offset zero. *)
Definition FormatRFC3339 (t : Time) : string :=
  let abs := unixSec t + offset t in
  let '(y, m, d) := civil (abs / 86400) in
  let s := abs mod 86400 in
  let zone := Z.quot (offset t) 60 in
  appendInt y 4 +:+ "-" +:+ appendInt m 2 +:+ "-" +:+ appendInt d 2 +:+ "T"
    +:+ appendInt (s / 3600) 2 +:+ ":" +:+ appendInt (s mod 3600 / 60) 2 +:+ ":"
    +:+ appendInt (s mod 60) 2
    +:+ (if offset t =? 0 then "Z"
         else (if zone <? 0 then "-" else "+")
                +:+ appendInt (Z.abs zone / 60) 2 +:+ ":" +:+ appendInt (Z.abs zone mod 60) 2).

End time.

(** ** Package crypto/sha256 (FIPS 180-4), on 32-bit words as [Z] *)
Module sha256.

Definition w32 (x : Z) : Z := x mod 2 ^ 32.
Definition rotr (n x : Z) : Z := Z.lor (Z.shiftr x n) (w32 (Z.shiftl x (32 - n))).
Definition Ch (x y z : Z) : Z := Z.lxor (Z.land x y) (Z.land (w32 (Z.lnot x)) z).
Definition Maj (x y z : Z) : Z := Z.lxor (Z.lxor (Z.land x y) (Z.land x z)) (Z.land y z).
Definition Sigma0 (x : Z) : Z := Z.lxor (Z.lxor (rotr 2 x) (rotr 13 x)) (rotr 22 x).
Definition Sigma1 (x : Z) : Z := Z.lxor (Z.lxor (rotr 6 x) (rotr 11 x)) (rotr 25 x).
Definition sigma0 (x : Z) : Z := Z.lxor (Z.lxor (rotr 7 x) (rotr 18 x)) (Z.shiftr x 3).
Definition sigma1 (x : Z) : Z := Z.lxor (Z.lxor (rotr 17 x) (rotr 19 x)) (Z.shiftr x 10).

(** The first 64 primes. *)
Definition is_prime (p : nat) : bool :=
  forallb (fun d => negb (p mod d =? 0)%nat) (seq 2 (p - 2)).

Definition primes : list Z :=
  Eval vm_compute in map Z.of_nat (filter (fun p => is_prime p) (seq 2 310)).

(** The integer cube root, bit by bit from bit [n - 1] down. *)
Fixpoint cbrt_bits (n : nat) (x r : Z) : Z :=
  match n with
  | O => r
  | S n' =>
    let r' := r + 2 ^ Z.of_nat n' in
    cbrt_bits n' x (if r' * r' * r' <=? x then r' else r)
  end.

(** The round constants: the first 32 bits of the fractional parts of the
    cube roots of the primes. *)
Definition K : list Z :=
  Eval vm_compute in map (fun p => w32 (cbrt_bits 40 (p * 2 ^ 96) 0)) primes.

(** The initial hash value: the same of the square roots of the first
    eight. *)
Definition H0 : list Z :=
  Eval vm_compute in map (fun p => w32 (Z.sqrt (p * 2 ^ 64))) (take 8 primes).

(** The message followed by the bit 1, zeros up to 56 modulo 64 bytes, and
    the bit length in 8 bytes, big-endian. *)
Definition be_bytes (n : nat) (x : Z) : list Z :=
  map (fun i => Z.shiftr x (8 * Z.of_nat i) mod 256) (rev (seq 0 n)).

Definition pad (msg : list Z) : list Z :=
  let len := Z.of_nat (length msg) in
  msg ++ [128] ++ repeat 0 (Z.to_nat ((55 - len) mod 64)) ++ be_bytes 8 (8 * len).

Fixpoint be_words (bs : list Z) : list Z :=
  match bs with
  | b0 :: b1 :: b2 :: b3 :: bs' =>
    (((b0 * 256 + b1) * 256 + b2) * 256 + b3) :: be_words bs'
  | _ => []
  end.

(** The message schedule, latest word first: [n] more words after [w]. *)
Fixpoint schedule (n : nat) (w : list Z) : list Z :=
  match n with
  | O => w
  | S n' =>
    schedule n'
      (w32 (sigma1 (nth 1 w 0) + nth 6 w 0 + sigma0 (nth 14 w 0) + nth 15 w 0) :: w)
  end.

Definition round (st : list Z) (kw : Z * Z) : list Z :=
  match st with
  | [a; b; c; d; e; f; g; h] =>
    let t1 := h + Sigma1 e + Ch e f g + fst kw + snd kw in
    let t2 := Sigma0 a + Maj a b c in
    [w32 (t1 + t2); a; b; c; w32 (d + t1); e; f; g]
  | _ => st
  end.

Definition block (st : list Z) (ws : list Z) : list Z :=
  let w := rev (schedule 48 (rev ws)) in
  map (fun p => w32 (fst p + snd p)) (combine st (fold_left round (combine K w) st)).

Fixpoint blocks (fuel : nat) (st : list Z) (ws : list Z) : list Z :=
  match fuel with
  | O => st
  | S fuel' =>
    match ws with
    | [] => st
    | _ => blocks fuel' (block st (take 16 ws)) (drop 16 ws)
    end
  end.

(** [sha256.Sum256(data)], the 32 bytes of the digest. *)
Definition Sum256 (data : list Z) : list Z :=
  let ws := be_words (pad data) in
  flat_map (be_bytes 4) (blocks (length ws) H0 ws).

End sha256.

(** The bytes of a string. *)
Definition bytes_of_string (s : string) : list Z :=
  map (fun c => Z.of_nat (nat_of_ascii c)) (list_ascii_of_string s).

Definition hex_digit (x : Z) : ascii :=
  ascii_of_nat (Z.to_nat (if x <? 10 then 48 + x else 87 + x)).

(** [fmt.Sprintf("%x", hash)] for a byte array *)
Definition hex (bs : list Z) : string :=
  string_of_list_ascii (flat_map (fun b => [hex_digit (b / 16); hex_digit (b mod 16)]) bs).

(** ** Package models *)
Module models.

Record Asset : Type := {
  ID : string;
  UserID : string;
  Status : string;
  CreatedAt : time.Time;
  RawAnalysis : string;
  OriginalityScore : Z;
  Narrative : string;
  Embedding : list float32
}.

End models.

(** ** Package certificate *)
Module certificate.

Record AuthenticityRating : Type := {
  rating_Type : string;
  RatingValue : Z;
  BestRating : Z;
  WorstRating : Z
}.

Record CredentialSubject : Type := {
  subject_ID : string;
  subject_Type : string;
  Creator : string;
  subject_AuthenticityRating : AuthenticityRating;
  AuthenticityNarrative : string
}.

Record Proof : Type := {
  proof_Type : string;
  Created : string;
  ProofPurpose : string;
  ProofValue : string
}.

Record VerifiableCredential : Type := {
  Context : list string;
  Type_ : list string;
  Issuer : string;
  IssuanceDate : string;
  credentialSubject : CredentialSubject;
  proof : Proof
}.

(** [Generate]; [asset = None] is the nil pointer and [now] the value of
    [time.Now()] during the call. *)
Definition Generate (asset : option models.Asset) (now : time.Time)
    : option VerifiableCredential * option error :=
  match asset with
  | None => (None, Some (errorString "asset cannot be nil"))
  | Some asset =>
    let proofData := models.ID asset +:+ time.FormatRFC3339 (models.CreatedAt asset) in
    let hash := sha256.Sum256 (bytes_of_string proofData) in
    let proofValue := hex hash in
    let issuanceDate := time.FormatRFC3339 now in
    let proofCreated := time.FormatRFC3339 now in
    let credentialSubjectID := "urn:proofpix:asset:" +:+ models.ID asset in
    let ratingValue := models.OriginalityScore asset in
    let ratingValue :=
      if ratingValue <? 1 then 1
      else if 10 <? ratingValue then 10
      else ratingValue in
    let authenticityNarrative := models.Narrative asset in
    let authenticityNarrative :=
      if String.eqb authenticityNarrative "" then models.RawAnalysis asset
      else authenticityNarrative in
    (Some {|
       Context := ["https://www.w3.org/2018/credentials/v1"; "https://schema.org"];
       Type_ := ["VerifiableCredential"; "ProofPixAuthenticityCredential"];
       Issuer := "https://proofpix.com";
       IssuanceDate := issuanceDate;
       credentialSubject := {|
         subject_ID := credentialSubjectID;
         subject_Type := "ImageAuthenticityAssertion";
         Creator := models.UserID asset;
         subject_AuthenticityRating := {|
           rating_Type := "Rating";
           RatingValue := ratingValue;
           BestRating := 10;
           WorstRating := 1
         |};
         AuthenticityNarrative := authenticityNarrative
       |};
       proof := {|
         proof_Type := "DataIntegrityProof";
         Created := proofCreated;
         ProofPurpose := "assertionMethod";
         ProofValue := proofValue
       |}
     |}, None)
  end.

(** The proof value of the credential that [Generate] returned. *)
Definition proofValueOf (r : option VerifiableCredential * option error) : option string :=
  match r with
  | (Some credential, None) => Some (ProofValue (proof credential))
  | _ => None
  end.

(** The rating of the credential that [Generate] returned. *)
Definition ratingOf (r : option VerifiableCredential * option error)
    : option AuthenticityRating :=
  match r with
  | (Some credential, None) => Some (subject_AuthenticityRating (credentialSubject credential))
  | _ => None
  end.

End certificate.

(** ** cmd/fingerprint-worker/main.go: the pipeline of one asset *)
Module worker.
Import faiss.

(** [type Asset struct] of package main: the Firestore document. *)
Record Asset : Type := {
  ID : string;
  UserID : string;
  Status : string;
  CreatedAt : time.Time;
  RawAnalysis : string;
  OriginalityScore : Z;
  Narrative : string;
  Embedding : list float32;
  TrillianLeafIndex : Z
}.

(** [certificate.Generate(asset)] receives the fields that
    [models.Asset] has. *)
Definition to_models (a : Asset) : models.Asset :=
  {| models.ID := ID a; models.UserID := UserID a; models.Status := Status a;
     models.CreatedAt := CreatedAt a; models.RawAnalysis := RawAnalysis a;
     models.OriginalityScore := OriginalityScore a;
     models.Narrative := Narrative a; models.Embedding := Embedding a |}.

(** A call on [globalIndexManager]. *)
Inductive Call : Type :=
| CallSearch (vector : list float32) (k : Z)
| CallAdd (assetID : string) (vector : list float32).

(** What one run of [processImage] meets outside the program: the
    environment variables, the answers of the two model calls, the clock,
    and for each remote call whether it fails. *)
Record World : Type := {
  w_NewClient : option error;                      (* storage.NewClient, every call *)
  w_NewReader : option error;                      (* object.NewReader *)
  w_ReadAll : list byte * option error;            (* io.ReadAll(reader) *)
  w_getAuthenticityAnalysis : list byte -> string * option error;
  w_getEmbedding : list byte -> list float32 * option error;
  w_Now : time.Time;                               (* time.Now() for CreatedAt *)
  w_GenerateNow : time.Time;                       (* time.Now() in Generate *)
  w_GOOGLE_CLOUD_PROJECT : string;
  w_TRILLIAN_LOG_ID : string;
  w_TRILLIAN_LOG_SERVER_ADDR : string;
  w_firestore_NewClient : option error;
  w_Set : option error;                            (* docRef.Set *)
  w_Update : option error;                         (* Doc(assetID).Update *)
  w_MarshalIndent : certificate.VerifiableCredential -> list byte * option error;
  w_certificate_Write : option error;              (* writer of saveJSONCertificate *)
  w_QueueLeaf : Z * option error;                  (* the log server's answer *)
  w_GenerateBadge : Z -> list byte * option error;
  w_badge_Write : option error                     (* writer of savePNGBadge *)
}.

(** The outcomes of the two calls of the Analyze stage. *)
Definition analysisErr (w : World) : option error :=
  snd (w_getAuthenticityAnalysis w (fst (w_ReadAll w))).

Definition embeddingOf (w : World) : list float32 :=
  fst (w_getEmbedding w (fst (w_ReadAll w))).

Definition embeddingErr (w : World) : option error :=
  snd (w_getEmbedding w (fst (w_ReadAll w))).

(** The image was fetched, so that the Analyze stage is reached. *)
Definition fetched (w : World) : Prop :=
  w_NewClient w = None /\ w_NewReader w = None /\ snd (w_ReadAll w) = None.

(** Exactly one of the two calls failed. *)
Definition one_failed (w : World) : Prop :=
  (analysisErr w = None /\ embeddingErr w <> None) \/
  (analysisErr w <> None /\ embeddingErr w = None).

Section Pipeline.
Context {I : Type} `{Index I}.

(** Everything that [processImage] can change, and the calls it made on
    the index manager (latest last). *)
Record State : Type := {
  globalIndexManager : index.IndexManager I;
  assets : gmap string Asset;                    (* Firestore collection assets *)
  certificates : gmap string (list byte);        (* bucket proofpix-certificates *)
  badges : gmap string (list byte);              (* bucket proofpix-badges *)
  leaves : list (list Z);                        (* leaves queued in the log *)
  calls : list Call
}.

Definition M (A : Type) : Type := State -> A * State.
Definition ret {A : Type} (a : A) : M A := fun st => (a, st).
Definition bind {A B : Type} (c : M A) (k : A -> M B) : M B :=
  fun st => let '(a, st') := c st in k a st'.

Notation "'let*' x ':=' c 'in' k" := (bind c (fun x => k))
  (at level 10, x pattern, c at level 100, k at level 200).

Definition Search (vector : list float32) (k : Z)
    : M (list float32 * list string * option error) :=
  fun st =>
    (index.Search (globalIndexManager st) vector k,
     {| globalIndexManager := globalIndexManager st; assets := assets st;
        certificates := certificates st; badges := badges st;
        leaves := leaves st; calls := calls st ++ [CallSearch vector k] |}).

Definition Add (assetID : string) (vector : list float32) : M (option error) :=
  fun st =>
    let '(m', err) := index.Add (globalIndexManager st) assetID vector in
    (err,
     {| globalIndexManager := m'; assets := assets st;
        certificates := certificates st; badges := badges st;
        leaves := leaves st; calls := calls st ++ [CallAdd assetID vector] |}).

(** [saveAsset] *)
Definition saveAsset (w : World) (asset : Asset) : M (option error) :=
  fun st =>
    if String.eqb (w_GOOGLE_CLOUD_PROJECT w) "" then
      (Some (errorString "GOOGLE_CLOUD_PROJECT environment variable not set"), st)
    else
      match w_firestore_NewClient w with
      | Some err =>
        (Some (errorString ("failed to create Firestore client: " +:+ Error err)), st)
      | None =>
        match w_Set w with
        | Some err =>
          (Some (errorString ("failed to save asset to Firestore: " +:+ Error err)), st)
        | None =>
          (None,
           {| globalIndexManager := globalIndexManager st;
              assets := <[ID asset := asset]> (assets st);
              certificates := certificates st; badges := badges st;
              leaves := leaves st; calls := calls st |})
        end
      end.

(** [saveJSONCertificate]: object [certificates/{assetID}.json] *)
Definition saveJSONCertificate (w : World) (assetID : string) (data : list byte)
    : M (option error) :=
  fun st =>
    match w_NewClient w with
    | Some err => (Some (errorString ("failed to create storage client: " +:+ Error err)), st)
    | None =>
      match w_certificate_Write w with
      | Some err => (Some (errorString ("failed to write certificate data: " +:+ Error err)), st)
      | None =>
        (None,
         {| globalIndexManager := globalIndexManager st; assets := assets st;
            certificates := <["certificates/" +:+ assetID +:+ ".json" := data]> (certificates st);
            badges := badges st; leaves := leaves st; calls := calls st |})
      end
    end.

(** [savePNGBadge]: object [badges/{assetID}.png] *)
Definition savePNGBadge (w : World) (assetID : string) (data : list byte)
    : M (option error) :=
  fun st =>
    match w_NewClient w with
    | Some err => (Some (errorString ("failed to create storage client: " +:+ Error err)), st)
    | None =>
      match w_badge_Write w with
      | Some err => (Some (errorString ("failed to write badge data: " +:+ Error err)), st)
      | None =>
        (None,
         {| globalIndexManager := globalIndexManager st; assets := assets st;
            certificates := certificates st;
            badges := <["badges/" +:+ assetID +:+ ".png" := data]> (badges st);
            leaves := leaves st; calls := calls st |})
      end
    end.

(** [queueLeafInTrillian]: on success the leaf is queued and the server
    tells its index. *)
Definition queueLeafInTrillian (w : World) (leafValue : list Z) : M (Z * option error) :=
  fun st =>
    match w_QueueLeaf w with
    | (_, Some err) => ((0, Some err), st)
    | (leafIndex, None) =>
      ((leafIndex, None),
       {| globalIndexManager := globalIndexManager st; assets := assets st;
          certificates := certificates st; badges := badges st;
          leaves := leaves st ++ [leafValue]; calls := calls st |})
    end.

(** [firestoreClient.Collection("assets").Doc(assetID).Update(...)] of the
    field [trillian_leaf_index]; the document must exist. *)
Definition updateLeafIndex (w : World) (assetID : string) (leafIndex : Z)
    : M (option error) :=
  fun st =>
    match w_Update w, assets st !! assetID with
    | Some err, _ => (Some err, st)
    | None, None => (Some (errorString "firestore: document not found"), st)
    | None, Some a =>
      (None,
       {| globalIndexManager := globalIndexManager st;
          assets := <[assetID :=
            {| ID := ID a; UserID := UserID a; Status := Status a;
               CreatedAt := CreatedAt a; RawAnalysis := RawAnalysis a;
               OriginalityScore := OriginalityScore a; Narrative := Narrative a;
               Embedding := Embedding a; TrillianLeafIndex := leafIndex |}]> (assets st);
          certificates := certificates st; badges := badges st;
          leaves := leaves st; calls := calls st |})
    end.

(** The steps of [processImage] from the Trillian block on, run once the
    certificate is stored. *)
Definition afterCertificate (w : World) (assetID : string) (asset : Asset)
    (certificateJSON : list byte) : M unit :=
  let* _ :=
    (if negb (String.eqb (w_TRILLIAN_LOG_ID w) "")
        && negb (String.eqb (w_TRILLIAN_LOG_SERVER_ADDR w) "") then
       match strconv.ParseInt (list_ascii_of_string (w_TRILLIAN_LOG_ID w)) with
       | (_, Some parseErr) => ret tt
       | (logID, None) =>
         let leafValue := sha256.Sum256 (map flat.Z_of_byte certificateJSON) in
         let* r := queueLeafInTrillian w leafValue in
         match r with
         | (_, Some err) => ret tt
         | (leafIndex, None) =>
           if String.eqb (w_GOOGLE_CLOUD_PROJECT w) "" then ret tt
           else
             match w_firestore_NewClient w with
             | Some err => ret tt
             | None =>
               let* updateErr := updateLeafIndex w assetID leafIndex in
               ret tt
             end
         end
       end
     else ret tt) in
  match w_GenerateBadge w (OriginalityScore asset) with
  | (_, Some err) => ret tt
  | (badgeData, None) =>
    let* err := savePNGBadge w assetID badgeData in
    ret tt
  end.

(** [processImage] *)
Definition processImage (w : World) (userID assetID : string) : M unit :=
  match w_NewClient w with
  | Some err => ret tt
  | None =>
    match w_NewReader w with
    | Some err => ret tt
    | None =>
      match w_ReadAll w with
      | (_, Some err) => ret tt
      | (imageData, None) =>
        (* the two goroutines, joined by wg.Wait() *)
        let '(analysisText, analysisErr) := w_getAuthenticityAnalysis w imageData in
        let '(embedding, embeddingErr) := w_getEmbedding w imageData in
        let '(score, narrative) :=
          match analysisErr with
          | Some _ => (0, "")
          | None =>
            match analysis.parseAnalysis analysisText with
            | (_, _, Some parseErr) => (0, analysisText)
            | (parsedScore, parsedNarrative, None) => (parsedScore, parsedNarrative)
            end
          end in
        let* _ :=
          match embeddingErr with
          | Some _ => ret tt
          | None =>
            let* r := Search embedding 5 in
            let* addErr := Add assetID embedding in
            ret tt
          end in
        match analysisErr, embeddingErr with
        | None, None =>
          let asset :=
            {| ID := assetID; UserID := userID; Status := "completed";
               CreatedAt := w_Now w; RawAnalysis := analysisText;
               OriginalityScore := score; Narrative := narrative;
               Embedding := embedding; TrillianLeafIndex := 0 |} in
          let* err := saveAsset w asset in
          match err with
          | Some _ => ret tt
          | None =>
            match certificate.Generate (Some (to_models asset)) (w_GenerateNow w) with
            | (Some credential, None) =>
              match w_MarshalIndent w credential with
              | (_, Some err) => ret tt
              | (certificateJSON, None) =>
                let* err := saveJSONCertificate w assetID certificateJSON in
                match err with
                | Some _ => ret tt
                | None => afterCertificate w assetID asset certificateJSON
                end
              end
            | _ => ret tt
            end
          end
        | _, _ => ret tt
        end
      end
    end
  end.

End Pipeline.

Arguments State I : clear implicits.

End worker.

(** ** Notions for the bounds on rounding

    [shr_rel k a b]: the record [b] is [a] shifted right by [k] bits, and
    its round and sticky bits are set only if a set bit was shifted out or
    they were set before.  [loc_up l] is what rounding may add to a mantissa
    at location [l]. *)
Definition shr_rel (k : Z) (a b : shr_record) : Prop :=
  shr_m b = shr_m a / 2 ^ k /\
  (shr_r b || shr_s b = true -> shr_m a mod 2 ^ k <> 0 \/ shr_r a || shr_s a = true).

Definition loc_up (l : location) : Z :=
  match l with
  | loc_Exact => 0
  | loc_Inexact _ => 1
  end.


(** ** Concrete inputs, for the examples below *)
Module sample.
Import faiss index flat.

Definition dim : Z := 1408.

(** 1.0 and 2.0 as binary32 *)
Definition one : float32 := 127 * 2 ^ 23.
Definition two : float32 := 128 * 2 ^ 23.

Definition vec (x : float32) : list float32 := repeat x (Z.to_nat dim).

(** A manager whose index was just created: [NewIndexFlatL2(1408)]. *)
Definition installed : IndexManager IndexFlat :=
  {| index := Some (NewIndexFlatL2 dim); idMap := None |}.


Definition requests : list (string * list float32) :=
  [("asset-1", vec one); ("asset-2", vec two)].

(** The manager after the two requests. *)
Definition two_assets : IndexManager IndexFlat := fst (AddAll installed requests).

(** Two requests, the first with a slice of two vectors. *)
Definition requests_long : list (string * list float32) :=
  [("asset-1", vec one ++ vec two); ("asset-2", vec one)].

Definition skipped : IndexManager IndexFlat := fst (AddAll installed requests_long).

Definition store : gmap (string * string) (list byte) :=
  fst (Save no_faults ∅ two_assets "proofpix-index" "latest.faiss").

(** A fresh manager that loaded the snapshot of [two_assets]. *)
Definition reloaded : IndexManager IndexFlat :=
  fst (Load no_faults store new_manager "proofpix-index" "latest.faiss").

(** The asset of [TestGenerate], created at 2024-01-15T10:30:00Z. *)
Definition testAsset : models.Asset :=
  {| models.ID := "test-asset-123"; models.UserID := "user-456";
     models.Status := "completed";
     models.CreatedAt := {| time.unixSec := 1705314600; time.nsec := 0; time.offset := 0 |};
     models.RawAnalysis := "This image appears to be authentic with no signs of manipulation.";
     models.OriginalityScore := 8;
     models.Narrative := "High confidence in image authenticity";
     models.Embedding := [one; two; one] |}.

(** The same asset created half a second later. *)
Definition testAsset_later : models.Asset :=
  {| models.ID := "test-asset-123"; models.UserID := "user-456";
     models.Status := "completed";
     models.CreatedAt :=
       {| time.unixSec := 1705314600; time.nsec := 500000000; time.offset := 0 |};
     models.RawAnalysis := "This image appears to be authentic with no signs of manipulation.";
     models.OriginalityScore := 8;
     models.Narrative := "High confidence in image authenticity";
     models.Embedding := [one; two; one] |}.

(** The asset with another originality score. *)
Definition scored (score : Z) : models.Asset :=
  {| models.ID := "test-asset-123"; models.UserID := "user-456";
     models.Status := "completed";
     models.CreatedAt := {| time.unixSec := 1705314600; time.nsec := 0; time.offset := 0 |};
     models.RawAnalysis := "";
     models.OriginalityScore := score;
     models.Narrative := "";
     models.Embedding := [] |}.

Definition noon : time.Time :=
  {| time.unixSec := 1705320000; time.nsec := 0; time.offset := 0 |}.

(** The input of [TestParseAnalysis_Success]. *)
Definition analysisText : string :=
  "Confidence Score: 0.98" +:+ nl +:+ nl
    +:+ "Justification: The lighting and shadows appear natural.".

(** A run in which the image is fetched, the analysis call fails and the
    embedding call succeeds; nothing else fails. *)
Definition world_analysis_fails : worker.World :=
  {| worker.w_NewClient := None;
     worker.w_NewReader := None;
     worker.w_ReadAll := ([x00], None);
     worker.w_getAuthenticityAnalysis := fun _ => (""%string, Some (errorString "API call failed"));
     worker.w_getEmbedding := fun _ => (vec one, None);
     worker.w_Now := noon;
     worker.w_GenerateNow := noon;
     worker.w_GOOGLE_CLOUD_PROJECT := "proofpix";
     worker.w_TRILLIAN_LOG_ID := "1";
     worker.w_TRILLIAN_LOG_SERVER_ADDR := "localhost:8090";
     worker.w_firestore_NewClient := None;
     worker.w_Set := None;
     worker.w_Update := None;
     worker.w_MarshalIndent := fun _ => ([x7b; x7d], None);
     worker.w_certificate_Write := None;
     worker.w_QueueLeaf := (0, None);
     worker.w_GenerateBadge := fun _ => ([x89], None);
     worker.w_badge_Write := None |}.

(** The same run with the outcomes of the two calls exchanged. *)
Definition world_embedding_fails : worker.World :=
  {| worker.w_NewClient := None;
     worker.w_NewReader := None;
     worker.w_ReadAll := ([x00], None);
     worker.w_getAuthenticityAnalysis := fun _ => (analysisText, None);
     worker.w_getEmbedding := fun _ => ([], Some (errorString "API call failed"));
     worker.w_Now := noon;
     worker.w_GenerateNow := noon;
     worker.w_GOOGLE_CLOUD_PROJECT := "proofpix";
     worker.w_TRILLIAN_LOG_ID := "1";
     worker.w_TRILLIAN_LOG_SERVER_ADDR := "localhost:8090";
     worker.w_firestore_NewClient := None;
     worker.w_Set := None;
     worker.w_Update := None;
     worker.w_MarshalIndent := fun _ => ([x7b; x7d], None);
     worker.w_certificate_Write := None;
     worker.w_QueueLeaf := (0, None);
     worker.w_GenerateBadge := fun _ => ([x89], None);
     worker.w_badge_Write := None |}.

(** The run in which both calls succeed. *)
Definition world_ok : worker.World :=
  {| worker.w_NewClient := None;
     worker.w_NewReader := None;
     worker.w_ReadAll := ([x00], None);
     worker.w_getAuthenticityAnalysis := fun _ => (analysisText, None);
     worker.w_getEmbedding := fun _ => (vec one, None);
     worker.w_Now := noon;
     worker.w_GenerateNow := noon;
     worker.w_GOOGLE_CLOUD_PROJECT := "proofpix";
     worker.w_TRILLIAN_LOG_ID := "1";
     worker.w_TRILLIAN_LOG_SERVER_ADDR := "localhost:8090";
     worker.w_firestore_NewClient := None;
     worker.w_Set := None;
     worker.w_Update := None;
     worker.w_MarshalIndent := fun _ => ([x7b; x7d], None);
     worker.w_certificate_Write := None;
     worker.w_QueueLeaf := (7, None);
     worker.w_GenerateBadge := fun _ => ([x89], None);
     worker.w_badge_Write := None |}.

(** The worker after start-up on an empty index: nothing stored, no call
    made. *)
Definition initial : worker.State IndexFlat :=
  {| worker.globalIndexManager := installed;
     worker.assets := ∅;
     worker.certificates := ∅;
     worker.badges := ∅;
     worker.leaves := [];
     worker.calls := [] |}.


(** The inputs of [TestParseAnalysis_EdgeCases]. *)
Definition missingScore : string :=
  "This is some analysis text." +:+ nl +:+ nl
    +:+ "Justification: The image looks authentic.".

Definition missingJustification : string :=
  "Confidence Score: 0.85" +:+ nl +:+ nl
    +:+ "This is some other text without justification.".

Definition gibberish : string :=
  "Random gibberish text 12345 !@#$% no structure at all".

(** Both labels, the first one without a number. *)
Definition labelWithoutValue : string :=
  "Confidence Score: high" +:+ nl +:+ nl +:+ "Justification: x".

(** A confidence value of 5. *)
Definition confidenceFive : string :=
  "Confidence Score: 5" +:+ nl +:+ nl +:+ "Justification: x".

(** The two words of the first label on lines of their own. *)
Definition splitLabel : string :=
  "confidence" +:+ nl +:+ nl +:+ "score: 0.5" +:+ nl +:+ nl +:+ "Justification: x".

End sample.

(** ** What a match is

    [matches r s cap s' cap']: the pattern [r] matches a prefix of [s] and
    leaves [s']; [cap] is the first group before the match and [cap'] after
    it.  The matcher [exec] picks one of these matches. *)
Module matching.
Import regexp.

Inductive matches : regex -> list ascii -> option (list ascii)
                    -> list ascii -> option (list ascii) -> Prop :=
| matches_Empty s cap : matches Empty s cap s cap
| matches_Class (p : ascii -> bool) c s cap :
    p c = true -> matches (Class p) (c :: s) cap s cap
| matches_Seq r1 r2 s cap s1 cap1 s2 cap2 :
    matches r1 s cap s1 cap1 -> matches r2 s1 cap1 s2 cap2 ->
    matches (Seq r1 r2) s cap s2 cap2
| matches_AltL r1 r2 s cap s' cap' :
    matches r1 s cap s' cap' -> matches (Alt r1 r2) s cap s' cap'
| matches_AltR r1 r2 s cap s' cap' :
    matches r2 s cap s' cap' -> matches (Alt r1 r2) s cap s' cap'
| matches_StarStop g r s cap : matches (Star g r) s cap s cap
| matches_StarStep g r s cap s1 cap1 s2 cap2 :
    matches r s cap s1 cap1 -> (length s1 < length s)%nat ->
    matches (Star g r) s1 cap1 s2 cap2 ->
    matches (Star g r) s cap s2 cap2
| matches_Group r s cap s' cap' :
    matches r s cap s' cap' ->
    matches (Group r) s cap s' (Some (take (length s - length s') s))
| matches_EndText cap : matches EndText [] cap [] cap.

Fixpoint group_free (r : regex) : bool :=
  match r with
  | Empty | Class _ | EndText => true
  | Seq r1 r2 | Alt r1 r2 => group_free r1 && group_free r2
  | Star _ r' => group_free r'
  | Group _ => false
  end.

Definition is_space (x : ascii) : bool :=
  let n := nat_of_ascii x in
  ((n =? 9) || (n =? 10) || (n =? 12) || (n =? 13) || (n =? 32))%nat.

Definition not_newline (x : ascii) : bool := negb (nat_of_ascii x =? 10)%nat.

Definition LF : ascii := ascii_of_nat 10.

(** The lines of a text, without their line breaks. *)
Fixpoint lines (s : list ascii) : list (list ascii) :=
  match s with
  | [] => [[]]
  | c :: s' =>
    if Ascii.eqb c LF then [] :: lines s'
    else match lines s' with
         | line :: rest => (c :: line) :: rest
         | [] => [[c]]
         end
  end.

(** The texts that the group of [scoreRegex] lets through. *)
Inductive decimal_text : list ascii -> Prop :=
| decimal_digits (d : ascii) (d1 d2 : list ascii) :
    Forall (fun c => regexp.is_digit c = true) d1 -> regexp.is_digit d = true ->
    Forall (fun c => regexp.is_digit c = true) d2 ->
    decimal_text (d1 ++ d :: d2)
| decimal_point (d : ascii) (d1 d2 : list ascii) :
    Forall (fun c => regexp.is_digit c = true) d1 -> regexp.is_digit d = true ->
    Forall (fun c => regexp.is_digit c = true) d2 ->
    decimal_text (d1 ++ "."%char :: d :: d2).

(** What the matcher does on [c*] and on [c*?] for a class [c], told
    without fuel: the greedy repetition goes on as long as it can and comes
    back one character at a time when what follows fails; the lazy one
    tries what follows first and takes one more character when that
    fails. *)
Section Repetition.
Context {A : Type}.
Variable p : ascii -> bool.
Variable k : list ascii -> option (list ascii) -> option A.

Fixpoint greedy (s : list ascii) (cap : option (list ascii)) : option A :=
  match s with
  | c :: s' => if p c then orelse (greedy s' cap) (fun _ => k s cap) else k s cap
  | [] => k s cap
  end.

Fixpoint lazy (s : list ascii) (cap : option (list ascii)) : option A :=
  orelse (k s cap)
    (fun _ => match s with
              | c :: s' => if p c then lazy s' cap else None
              | [] => None
              end).

End Repetition.

(** The loop of [exec] on a repetition, with its fuel. *)
Section Loop.
Context {A : Type}.
Variable g : bool.
Variable r : regex.
Variable k : list ascii -> option (list ascii) -> option A.

Fixpoint star_loop (fuel : nat) (s : list ascii) (cap : option (list ascii)) : option A :=
  match fuel with
  | O => k s cap
  | S fuel' =>
    let again (_ : unit) :=
      exec r s cap (fun s' cap' =>
        if (length s' <? length s)%nat then star_loop fuel' s' cap' else None) in
    if g then orelse (again tt) (fun _ => k s cap)
    else orelse (k s cap) again
  end.

End Loop.

(** An answer in the layout that the prompt asks for: the score line, a
    blank line, the justification line. *)
Definition formatted (digits narrative : list ascii) : string :=
  string_of_list_ascii
    (list_ascii_of_string "Confidence Score: " ++ digits
       ++ [LF; LF] ++ list_ascii_of_string "Justification: " ++ narrative).

End matching.

(** ** Firestore documents

    [doc.Data()] is a [map[string]interface{}]; [Value] lists the dynamic
    types that the program tests for, and [Other] stands for the rest
    (booleans, times, references, nested maps, nil). *)
Module firestore.

#[warnings="-register-all"] Inductive Value : Type :=
| Float64 (f : spec_float)
| Int64 (n : Z)
| Str (s : string)
| Array (l : list Value)            (* []interface{} *)
| Other.

Record DocumentSnapshot : Type := {
  Ref_ID : string;                  (* doc.Ref.ID *)
  Data : gmap string Value          (* doc.Data() *)
}.

(** What the program meets at Firestore in one run: whether
    [firestore.NewClient] fails for the project, and for each collection the
    results of the calls of [iter.Next()] that come before [iterator.Done]. *)
Record Firestore : Type := {
  NewClient : string -> option error;
  Documents : string -> list (DocumentSnapshot + error)
}.

End firestore.

(** ** [IndexManager.Build] *)
Module index_build.
Import faiss index firestore.

(** [float32(floatVal)]: the nearest binary32, ties to even. *)
Definition float32_of_float64 (f : spec_float) : float32 :=
  flat.f32_encode
    match f with
    | S754_finite s m e => binary_round flat.prec32 flat.emax32 s m e
    | _ => f
    end.

(** The loop over [embeddingSlice]: an element that is no [float64] leaves
    the zero that [make] put there. *)
Definition vector_of (embeddingSlice : list Value) : list float32 :=
  map (fun val => match val with
                  | Float64 floatVal => float32_of_float64 floatVal
                  | _ => 0
                  end) embeddingSlice.

(** The loop over the documents: [vectors] and [assetIDs] grow together. *)
Fixpoint collect (iter : list (DocumentSnapshot + error))
    (vectors : list (list float32)) (assetIDs : list string)
    : list (list float32) * list string + error :=
  match iter with
  | [] => inl (vectors, assetIDs)                       (* iterator.Done *)
  | inr err :: _ => inr err
  | inl doc :: iter' =>
    match Data doc !! "embedding"%string with
    | Some (Array embeddingSlice) =>
      let vector := vector_of embeddingSlice in
      let assetID :=
        match Data doc !! "assetId"%string with
        | Some (Str assetIDStr) => assetIDStr
        | _ => Ref_ID doc
        end in
      collect iter' (vectors ++ [vector]) (assetIDs ++ [assetID])
    | _ => collect iter' vectors assetIDs
    end
  end.

(** [copy(dst[lo:hi], src)] on the slice [dst]: as many elements as the
    shorter of the window and [src] has. *)
Definition copy_window (dst : list float32) (lo hi : nat) (src : list float32)
    : list float32 :=
  let n := Nat.min (hi - lo) (length src) in
  take lo dst ++ take n src ++ drop (lo + n) dst.

(** [for i, vector := range vectors { copy(flatVectors[i*1408:(i+1)*1408], vector) }] *)
Fixpoint fill (i : nat) (vectors : list (list float32)) (flatVectors : list float32)
    : list float32 :=
  match vectors with
  | [] => flatVectors
  | vector :: vectors' =>
    fill (S i) vectors' (copy_window flatVectors (i * 1408) ((i + 1) * 1408) vector)
  end.

(** [for i, assetID := range assetIDs { m.idMap[int64(i)] = assetID }] *)
Fixpoint populate (i : Z) (assetIDs : list string) (idMap : gmap Z string)
    : gmap Z string :=
  match assetIDs with
  | [] => idMap
  | assetID :: assetIDs' => populate (i + 1) assetIDs' (<[i := assetID]> idMap)
  end.

Section Build.
Context {I : Type} `{Index I}.

(** [faiss.NewIndexFlatL2], the constructor that [Build] calls. *)
Variable NewIndexFlatL2 : Z -> I + error.

(** [Build] *)
Definition Build (fs : Firestore) (m : IndexManager I) (projectID collectionName : string)
    : IndexManager I * option error :=
  match NewClient fs projectID with
  | Some err => (m, Some err)
  | None =>
    match collect (Documents fs collectionName) [] [] with
    | inr err => (m, Some err)
    | inl (vectors, assetIDs) =>
      match NewIndexFlatL2 1408 with
      | inr err => (m, Some err)
      | inl index0 =>
        let '(index1, err) :=
          if (0 <? length vectors)%nat then
            let flatVectors := fill 0 vectors (repeat 0 (length vectors * 1408)) in
            idx_Add index0 flatVectors
          else (index0, None) in
        match err with
        | Some err => (m, Some err)
        | None =>
          ({| index := Some index1; idMap := Some (populate 0 assetIDs ∅) |}, None)
        end
      end
    end
  end.

End Build.

(** *** The documents that [Build] takes, told apart from the loop *)

Definition embedding_of (doc : DocumentSnapshot) : option (list Value) :=
  match Data doc !! "embedding"%string with
  | Some (Array l) => Some l
  | _ => None
  end.

Definition has_embedding (doc : DocumentSnapshot) : bool :=
  match embedding_of doc with
  | Some _ => true
  | None => false
  end.

Definition assetID_of (doc : DocumentSnapshot) : string :=
  match Data doc !! "assetId"%string with
  | Some (Str s) => s
  | _ => Ref_ID doc
  end.

(** The slot of a vector in [flatVectors]: cut to 1408 floats or filled up
    with zeros. *)
Definition slot (v : list float32) : list float32 :=
  take 1408 v ++ repeat 0 (1408 - length v).

(** The documents before the first error of the iterator. *)
Fixpoint snapshots (iter : list (DocumentSnapshot + error)) : list DocumentSnapshot :=
  match iter with
  | inl doc :: iter' => doc :: snapshots iter'
  | _ => []
  end.

(** The documents that [Build] takes: those with a slice under
    [embedding]. *)
Definition taken (iter : list (DocumentSnapshot + error)) : list DocumentSnapshot :=
  filter (fun doc => has_embedding doc = true) (snapshots iter).

(** The vector that [Build] makes of such a document. *)
Definition vector_of_doc (doc : DocumentSnapshot) : list float32 :=
  vector_of (default [] (embedding_of doc)).

Fixpoint first_error (iter : list (DocumentSnapshot + error)) : option error :=
  match iter with
  | [] => None
  | inr err :: _ => Some err
  | inl _ :: iter' => first_error iter'
  end.

End index_build.

(** ** The start-up of the worker: [main] up to [http.ListenAndServe] *)
Module startup.
Import faiss index firestore index_build.

Definition indexBucketName : string := "proofpix-index".
Definition indexObjectName : string := "latest.faiss".
Definition assetsCollection : string := "assets".

(** How [main] goes on: [log.Fatal] ends the process, or the server
    listens. *)
Inductive Outcome : Type :=
| Fatal (msg : string)
| Serving.

Section Main.
Context {I : Type} `{Index I}.
Variable NewIndexFlatL2 : Z -> I + error.

(** [main]: the faults of the [Load] and of the [Save], Firestore, the
    environment variable and the object store; it gives the manager and the
    store as [main] leaves them. *)
Definition main (ftLoad ftSave : Faults) (fs : Firestore) (GOOGLE_CLOUD_PROJECT : string)
    (gcs : gmap (string * string) (list byte))
    : Outcome * IndexManager I * gmap (string * string) (list byte) :=
  let globalIndexManager := new_manager in
  let '(globalIndexManager, err) :=
    Load ftLoad gcs globalIndexManager indexBucketName indexObjectName in
  match err with
  | Some err => (Fatal ("Failed to load index: " +:+ Error err), globalIndexManager, gcs)
  | None =>
    if negb (HasIndex globalIndexManager) then
      let projectID := GOOGLE_CLOUD_PROJECT in
      if String.eqb projectID "" then
        (Fatal "GOOGLE_CLOUD_PROJECT environment variable not set", globalIndexManager, gcs)
      else
        let '(globalIndexManager, err) :=
          Build NewIndexFlatL2 fs globalIndexManager projectID assetsCollection in
        match err with
        | Some err =>
          (Fatal ("Failed to build index: " +:+ Error err), globalIndexManager, gcs)
        | None =>
          let '(gcs, err) :=
            Save ftSave gcs globalIndexManager indexBucketName indexObjectName in
          match err with
          | Some err =>
            (Fatal ("Failed to save index to GCS: " +:+ Error err), globalIndexManager, gcs)
          | None => (Serving, globalIndexManager, gcs)
          end
        end
    else (Serving, globalIndexManager, gcs)
  end.

End Main.

End startup.

(** ** JSON values, as [encoding/json] decodes them into [interface{}] *)
Module json.

#[warnings="-register-all"] Inductive Value : Type :=
| Null
| Bool (b : bool)
| Number (f : spec_float)                   (* float64 *)
| String (s : string)
| Array (l : list Value)                    (* []interface{} *)
| Object (fields : list (string * Value)).  (* map[string]interface{} *)

(** [m[key]] with the comma-ok form. *)
Fixpoint lookup (key : string) (fields : list (string * Value)) : option Value :=
  match fields with
  | [] => None
  | (k, v) :: fields' => if String.eqb k key then Some v else lookup key fields'
  end.

End json.

(** ** cmd/fingerprint-worker/main.go: the two calls of the Analyze stage *)
Module vertex.
Import json.

Record Part : Type := { Text : string }.
Record Content : Type := { Parts : list Part }.
Record Candidate : Type := { candidate_Content : option Content }.
Record GenerateContentResponse : Type := { Candidates : list Candidate }.
Record PredictResponse : Type := { Predictions : list Value }.

(** What one run meets at Vertex AI: the project variable, whether the
    service can be created and the request be built, and the answers of the
    two models for an endpoint and an image ([resp, err] as [Do()] returns
    them; [resp = None] is the nil pointer). *)
Record Service : Type := {
  GOOGLE_CLOUD_PROJECT : string;
  NewService : option error;
  Marshal : option error;
  Unmarshal : option error;
  GenerateContent : string -> list byte -> option GenerateContentResponse * option error;
  Predict : string -> list byte -> option PredictResponse * option error
}.

(** [fmt.Sprintf("projects/%s/locations/%s/publishers/google/models/%s", ...)] *)
Definition endpoint (projectID location model : string) : string :=
  "projects/" +:+ projectID +:+ "/locations/" +:+ location
    +:+ "/publishers/google/models/" +:+ model.

(** [getAuthenticityAnalysis] *)
Definition getAuthenticityAnalysis (sv : Service) (imageData : list byte)
    : string * option error :=
  let projectID := GOOGLE_CLOUD_PROJECT sv in
  if String.eqb projectID "" then
    (""%string, Some (errorString "GOOGLE_CLOUD_PROJECT environment variable not set"))
  else
    match NewService sv with
    | Some err =>
      (""%string, Some (errorString ("failed to create AI Platform service: " +:+ Error err)))
    | None =>
      match Marshal sv with
      | Some err =>
        (""%string, Some (errorString ("failed to marshal request payload: " +:+ Error err)))
      | None =>
        match Unmarshal sv with
        | Some err =>
          (""%string, Some (errorString ("failed to unmarshal request: " +:+ Error err)))
        | None =>
          match GenerateContent sv (endpoint projectID "us-central1" "gemini-1.5-flash")
                  imageData with
          | (_, Some err) =>
            (""%string, Some (errorString ("API call failed: " +:+ Error err)))
          | (None, None) =>
            (""%string, Some (errorString "received nil response from API"))
          | (Some resp, None) =>
            match Candidates resp with
            | [] => (""%string, Some (errorString "no candidates in response"))
            | candidate :: _ =>
              match candidate_Content candidate with
              | None => (""%string, Some (errorString "candidate has no content"))
              | Some content =>
                match Parts content with
                | [] => (""%string, Some (errorString "candidate content has no parts"))
                | part :: _ =>
                  if String.eqb (Text part) "" then
                    (""%string, Some (errorString "candidate part has no text"))
                  else (Text part, None)
                end
              end
            end
          end
        end
      end
    end.

(** The loop of [getEmbedding] over [imageEmbeddingSlice], from index [i]
    on: the first element that is no [float64] ends it with an error. *)
Fixpoint convert (i : nat) (imageEmbeddingSlice : list Value) : list float32 + error :=
  match imageEmbeddingSlice with
  | [] => inl []
  | val :: rest =>
    match val with
    | Number floatVal =>
      match convert (S i) rest with
      | inl embedding => inl (index_build.float32_of_float64 floatVal :: embedding)
      | inr err => inr err
      end
    | _ =>
      inr (errorString ("embedding value at index " +:+ time.digits (Z.of_nat i)
                          +:+ " is not a float"))
    end
  end.

(** [getEmbedding]; the nil slice is [[]]. *)
Definition getEmbedding (sv : Service) (imageData : list byte)
    : list float32 * option error :=
  let projectID := GOOGLE_CLOUD_PROJECT sv in
  if String.eqb projectID "" then
    ([], Some (errorString "GOOGLE_CLOUD_PROJECT environment variable not set"))
  else
    match NewService sv with
    | Some err =>
      ([], Some (errorString ("failed to create AI Platform service: " +:+ Error err)))
    | None =>
      match Marshal sv with
      | Some err =>
        ([], Some (errorString ("failed to marshal request payload: " +:+ Error err)))
      | None =>
        match Unmarshal sv with
        | Some err =>
          ([], Some (errorString ("failed to unmarshal request: " +:+ Error err)))
        | None =>
          match Predict sv (endpoint projectID "us-central1" "multimodalembedding@001")
                  imageData with
          | (_, Some err) => ([], Some (errorString ("API call failed: " +:+ Error err)))
          | (None, None) => ([], Some (errorString "received nil response from API"))
          | (Some resp, None) =>
            match Predictions resp with
            | [] => ([], Some (errorString "no predictions in response"))
            | prediction :: _ =>
              match prediction with
              | Object predictionMap =>
                match lookup "imageEmbedding" predictionMap with
                | None =>
                  ([], Some (errorString "imageEmbedding field not found in response"))
                | Some (Array imageEmbeddingSlice) =>
                  match convert 0 imageEmbeddingSlice with
                  | inl embedding => (embedding, None)
                  | inr err => ([], Some err)
                  end
                | Some _ => ([], Some (errorString "imageEmbedding is not a slice"))
                end
              | _ => ([], Some (errorString "prediction is not a map"))
              end
            end
          end
        end
      end
    end.

End vertex.

(** ** cmd/fingerprint-worker/main.go: [processHandler] *)
Module handler.

(** The request, as far as [processHandler] looks at it: the method and
    what [json.NewDecoder(r.Body).Decode(&req)] gives, the two fields of
    [req] or an error. *)
Record Request : Type := {
  Method : string;
  Decode : string * string + error          (* UserID, AssetID *)
}.

(** What the handler does: the status code, the body, and the arguments
    of the [processImage] that it starts, if it starts one. *)
Record Response : Type := {
  StatusCode : Z;
  Body : string;
  launched : option (string * string)
}.

(** The double quote. *)
Definition dq : string := String (ascii_of_nat 34) EmptyString.

(** [processHandler] *)
Definition processHandler (r : Request) : Response :=
  if negb (String.eqb (Method r) "POST") then
    {| StatusCode := 405; Body := "Method not allowed" +:+ nl; launched := None |}
  else
    match Decode r with
    | inr err =>
      {| StatusCode := 400; Body := "Invalid JSON request" +:+ nl; launched := None |}
    | inl (UserID, AssetID) =>
      if String.eqb UserID "" || String.eqb AssetID "" then
        {| StatusCode := 400; Body := "Missing user_id or asset_id" +:+ nl;
           launched := None |}
      else
        {| StatusCode := 200;
           Body := "{" +:+ dq +:+ "message" +:+ dq +:+ ":" +:+ dq
                   +:+ "Image processing started" +:+ dq +:+ "," +:+ dq +:+ "status"
                   +:+ dq +:+ ":" +:+ dq +:+ "accepted" +:+ dq +:+ "}" +:+ nl;
           launched := Some (UserID, AssetID) |}
    end.

End handler.

(** ** Package auth: the two middlewares *)
Module auth.

(** [*auth.Token], as far as the package reads it. *)
Record Token : Type := { UID : string }.

(** The request: the [Authorization] header ([""] when there is none)
    and the two values that the middlewares put into its context. *)
Record Request : Type := {
  Authorization : string;
  ctx_UserIDKey : option string;
  ctx_UserKey : option Token
}.

(** What a middleware does with a request: it answers with
    [respondWithError], or it calls [next.ServeHTTP] with a request. *)
Inductive Served : Type :=
| respondWithError (statusCode : Z) (error message : string)
| next_ServeHTTP (r : Request).

(** [strings.Split(s, " ")] *)
Fixpoint Split_from (part : list ascii) (s : list ascii) : list (list ascii) :=
  match s with
  | [] => [rev part]
  | c :: s' =>
    if Ascii.eqb c " " then rev part :: Split_from [] s'
    else Split_from (c :: part) s'
  end.

Definition Split (s : string) : list string :=
  map string_of_list_ascii (Split_from [] (list_ascii_of_string s)).

(** The parts put together again, with a space between two of them. *)
Fixpoint Join (parts : list (list ascii)) : list ascii :=
  match parts with
  | [] => []
  | [part] => part
  | part :: parts' => part ++ " "%char :: Join parts'
  end.

(** [strings.ToLower] on the letters [A] to [Z].  The middlewares compare
    the result with [bearer] only, and no character outside ASCII has one
    of the letters of that word as its lower case, so the comparison comes
    out the same. *)
Definition lower (c : ascii) : ascii :=
  let n := nat_of_ascii c in
  if ((65 <=? n) && (n <=? 90))%nat then ascii_of_nat (n + 32) else c.

Definition ToLower (s : string) : string :=
  string_of_list_ascii (map lower (list_ascii_of_string s)).

(** [r.WithContext(ctx)] with the two values of the verified token. *)
Definition with_user (r : Request) (decodedToken : Token) : Request :=
  {| Authorization := Authorization r;
     ctx_UserIDKey := Some (UID decodedToken);
     ctx_UserKey := Some decodedToken |}.

Section Middleware.

(** The package variable [firebaseClient]: [None] before [InitFirebase]
    has succeeded, and else [client.VerifyIDToken]. *)
Variable firebaseClient : option (string -> Token + error).

(** [VerifyFirebaseJWT(next)], applied to a request *)
Definition VerifyFirebaseJWT (r : Request) : Served :=
  let authHeader := Authorization r in
  if String.eqb authHeader "" then
    respondWithError 401 "Missing Authorization header" "Authorization header is required"
  else
    match Split authHeader with
    | [scheme; token] =>
      if negb (String.eqb (ToLower scheme) "bearer") then
        respondWithError 401 "Invalid Authorization header format"
          "Expected format: Bearer <token>"
      else if String.eqb token "" then
        respondWithError 401 "Empty token" "Token cannot be empty"
      else
        match firebaseClient with
        | None =>
          respondWithError 500 "Authentication service unavailable" "Internal server error"
        | Some VerifyIDToken =>
          match VerifyIDToken token with
          | inr err => respondWithError 401 "Invalid token" "Token verification failed"
          | inl decodedToken => next_ServeHTTP (with_user r decodedToken)
          end
        end
    | _ =>
      respondWithError 401 "Invalid Authorization header format"
        "Expected format: Bearer <token>"
    end.

(** [OptionalFirebaseJWT(next)], applied to a request *)
Definition OptionalFirebaseJWT (r : Request) : Served :=
  let authHeader := Authorization r in
  if String.eqb authHeader "" then next_ServeHTTP r
  else
    match Split authHeader with
    | [scheme; token] =>
      if String.eqb (ToLower scheme) "bearer" then
        match firebaseClient with
        | Some VerifyIDToken =>
          match VerifyIDToken token with
          | inl decodedToken => next_ServeHTTP (with_user r decodedToken)
          | inr _ => next_ServeHTTP r
          end
        | None => next_ServeHTTP r
        end
      else next_ServeHTTP r
    | _ => next_ServeHTTP r
    end.

End Middleware.

(** The package variables [firebaseClient] and [once]. *)
Record State : Type := {
  once_done : bool;                                   (* once.Do has run *)
  firebaseClient : option (string -> Token + error)
}.

(** What [InitFirebase] meets: the three environment variables, whether
    [firebase.NewApp] fails for a project id (with or without the key), and
    what [app.Auth] gives. *)
Record Env : Type := {
  FIREBASE_PROJECT_ID : string;
  PROJECT_ID : string;
  FIREBASE_SERVICE_ACCOUNT_KEY : string;
  NewApp : string -> option string -> option error;
  app_Auth : (string -> Token + error) + error
}.

(** [InitFirebase]: the body runs under [once.Do], so only in the first
    call; the error is a local variable of the call. *)
Definition InitFirebase (env : Env) (st : State) : State * option error :=
  if once_done st then (st, None)
  else
    let st := {| once_done := true; firebaseClient := firebaseClient st |} in
    let projectID := FIREBASE_PROJECT_ID env in
    let projectID := if String.eqb projectID "" then PROJECT_ID env else projectID in
    if String.eqb projectID "" then
      (st, Some (errorString
                   "FIREBASE_PROJECT_ID or PROJECT_ID environment variable is required"))
    else
      let serviceAccountKey := FIREBASE_SERVICE_ACCOUNT_KEY env in
      let err :=
        if negb (String.eqb serviceAccountKey "") then
          NewApp env projectID (Some serviceAccountKey)
        else NewApp env projectID None in
      match err with
      | Some err =>
        (st, Some (errorString ("error initializing firebase app: " +:+ Error err)))
      | None =>
        match app_Auth env with
        | inr authErr =>
          (st, Some (errorString ("error getting auth client: " +:+ Error authErr)))
        | inl authClient =>
          ({| once_done := true; firebaseClient := Some authClient |}, None)
        end
      end.

(** [GetFirebaseClient] *)
Definition GetFirebaseClient (st : State) : (string -> Token + error) + error :=
  match firebaseClient st with
  | None => inr (errorString "firebase client not initialized. Call InitFirebase() first")
  | Some client => inl client
  end.

(** [GetUserID] *)
Definition GetUserID (r : Request) : string * bool :=
  match ctx_UserIDKey r with
  | Some userID => (userID, true)
  | None => (""%string, false)
  end.

End auth.

(** ** Notions for the statements about [processImage] *)
Module stages.
Import worker.

(** The answer of the analysis call of the run. *)
Definition analysisTextOf (w : World) : string :=
  fst (w_getAuthenticityAnalysis w (fst (w_ReadAll w))).

(** The run [w] with another configuration and another behaviour of the
    transparency log: the two variables, the answer of the log server and
    the outcome of the update of the leaf index. *)
Definition with_log (w : World) (logID addr : string) (queued : Z * option error)
    (update : option error) : World :=
  {| w_NewClient := w_NewClient w;
     w_NewReader := w_NewReader w;
     w_ReadAll := w_ReadAll w;
     w_getAuthenticityAnalysis := w_getAuthenticityAnalysis w;
     w_getEmbedding := w_getEmbedding w;
     w_Now := w_Now w;
     w_GenerateNow := w_GenerateNow w;
     w_GOOGLE_CLOUD_PROJECT := w_GOOGLE_CLOUD_PROJECT w;
     w_TRILLIAN_LOG_ID := logID;
     w_TRILLIAN_LOG_SERVER_ADDR := addr;
     w_firestore_NewClient := w_firestore_NewClient w;
     w_Set := w_Set w;
     w_Update := update;
     w_MarshalIndent := w_MarshalIndent w;
     w_certificate_Write := w_certificate_Write w;
     w_QueueLeaf := queued;
     w_GenerateBadge := w_GenerateBadge w;
     w_badge_Write := w_badge_Write w |}.

(** A run in which the log is configured and no call fails. *)
Definition smooth (w : World) : Prop :=
  fetched w /\ analysisErr w = None /\ embeddingErr w = None /\
  w_GOOGLE_CLOUD_PROJECT w <> ""%string /\
  w_firestore_NewClient w = None /\ w_Set w = None /\
  (forall credential, snd (w_MarshalIndent w credential) = None) /\
  w_certificate_Write w = None /\
  w_TRILLIAN_LOG_ID w <> ""%string /\
  w_TRILLIAN_LOG_SERVER_ADDR w <> ""%string /\
  snd (strconv.ParseInt (list_ascii_of_string (w_TRILLIAN_LOG_ID w))) = None /\
  snd (w_QueueLeaf w) = None /\
  w_Update w = None /\
  (forall score, snd (w_GenerateBadge w score) = None) /\
  w_badge_Write w = None.

End stages.

(** ** The Asset documents in Firestore *)
Module stored.
Import worker firestore.

(** The document that [docRef.Set(ctx, asset)] writes for an [Asset]: the
    document id is the asset id, and the fields carry the names of the
    [firestore] tags of the struct.  Firestore keeps a [[]float32] as an
    array of doubles, and leaves out a leaf index of zero ([omitempty]).
    The embedding of an asset that [processImage] stores is a slice made by
    [make], never nil. *)
Definition to_document (a : Asset) : DocumentSnapshot :=
  let fields : gmap string Value :=
    <["id"%string := Str (ID a)]>
   (<["user_id"%string := Str (UserID a)]>
   (<["status"%string := Str (Status a)]>
   (<["created_at"%string := Other]>
   (<["raw_analysis"%string := Str (RawAnalysis a)]>
   (<["originality_score"%string := Int64 (OriginalityScore a)]>
   (<["narrative"%string := Str (Narrative a)]>
   (<["embedding"%string :=
        Array (map (fun x => Float64 (flat.f32_decode x)) (Embedding a))]> ∅))))))) in
  {| Ref_ID := ID a;
     Data := if TrillianLeafIndex a =? 0 then fields
             else <["trillian_leaf_index"%string := Int64 (TrillianLeafIndex a)]> fields |}.

(** The bits of a [float32] that is a number: 32 bits, not a NaN. *)
Definition is_number (x : float32) : bool :=
  (0 <=? x) && (x <? 2 ^ 32) &&
  negb ((Z.land (Z.shiftr x 23) 255 =? 255) && negb (Z.land x (2 ^ 23 - 1) =? 0)).

End stored.

(** ** The digits of a digest *)
Module digest.

(** A lower-case hexadecimal digit. *)
Definition is_hex_digit (c : ascii) : bool :=
  let n := nat_of_ascii c in
  (((48 <=? n) && (n <=? 57)) || ((97 <=? n) && (n <=? 102)))%nat.

End digest.

(** ** More concrete inputs *)
Module scenario.
Import faiss index flat firestore.

(** A confidence value of 10^400, written out in digits. *)
Definition hugeConfidence : string :=
  "Confidence Score: 1" +:+ time.zeros 400 +:+ nl +:+ nl +:+ "Justification: x".

(** The error that [strconv.ParseFloat] and then [parseAnalysis] report for
    it. *)
Definition hugeConfidence_error : error :=
  errorString
    ("failed to parse confidence score: strconv.ParseFloat: parsing "
       +:+ dquote +:+ "1" +:+ time.zeros 400 +:+ dquote +:+ ": value out of range").

(** A manager over a flat index of dimension 2 that holds one vector. *)
Definition small : IndexManager IndexFlat :=
  fst (Add {| index := Some (NewIndexFlatL2 2); idMap := None |}
         "asset-1" [sample.one; sample.two]).

(** The object store after [small] was saved. *)
Definition small_store : gmap (string * string) (list byte) :=
  fst (Save no_faults ∅ small "proofpix-index" "latest.faiss").

(** 1.0 and 2.0 as binary64 *)
Definition one64 : spec_float := S754_finite false 1 0.
Definition two64 : spec_float := S754_finite false 1 1.

(** A collection [assets] of four documents: one with an embedding of two
    numbers and an [assetId]; one whose embedding holds an integer and
    which has no [assetId]; one without embedding; one whose [embedding] is
    a string. *)
Definition documents : list (DocumentSnapshot + error) :=
  [inl {| Ref_ID := "doc-1";
          Data := <["embedding"%string := Array [Float64 one64; Float64 two64]]>
                  (<["assetId"%string := Str "asset-1"]> ∅) |};
   inl {| Ref_ID := "doc-2";
          Data := <["embedding"%string := Array [Int64 7; Float64 two64]]>
                  (<["assetId"%string := Int64 2]> ∅) |};
   inl {| Ref_ID := "doc-3"; Data := <["status"%string := Str "pending"]> ∅ |};
   inl {| Ref_ID := "doc-4"; Data := <["embedding"%string := Str "none"]> ∅ |}].

Definition fs : Firestore :=
  {| NewClient := fun _ => None;
     Documents := fun collectionName =>
       if String.eqb collectionName "assets" then documents else [] |}.

(** Firestore with an iterator that fails at the second call. *)
Definition fs_broken : Firestore :=
  {| NewClient := fun _ => None;
     Documents := fun _ => take 1 documents ++ [inr (errorString "rpc error")] |}.

(** [faiss.NewIndexFlatL2] of the flat index: it does not fail. *)
Definition NewIndexFlatL2_ok (d : Z) : IndexFlat + error := inl (NewIndexFlatL2 d).

(** Vertex AI as it answers in a run without failure: the analysis of
    [sample.analysisText] and an embedding of two numbers. *)
Definition service : vertex.Service :=
  {| vertex.GOOGLE_CLOUD_PROJECT := "proofpix";
     vertex.NewService := None;
     vertex.Marshal := None;
     vertex.Unmarshal := None;
     vertex.GenerateContent := fun _ _ =>
       (Some {| vertex.Candidates :=
                  [{| vertex.candidate_Content :=
                        Some {| vertex.Parts := [{| vertex.Text := sample.analysisText |}] |}
                   |}] |}, None);
     vertex.Predict := fun _ _ =>
       (Some {| vertex.Predictions :=
                  [json.Object [("imageEmbedding"%string,
                                 json.Array [json.Number one64; json.Number two64])]] |},
        None) |}.

(** The run of [sample.world_ok] with the two calls of the Analyze stage
    made by [getAuthenticityAnalysis] and [getEmbedding]. *)
Definition world_vertex : worker.World :=
  {| worker.w_NewClient := None;
     worker.w_NewReader := None;
     worker.w_ReadAll := ([x00], None);
     worker.w_getAuthenticityAnalysis := vertex.getAuthenticityAnalysis service;
     worker.w_getEmbedding := vertex.getEmbedding service;
     worker.w_Now := sample.noon;
     worker.w_GenerateNow := sample.noon;
     worker.w_GOOGLE_CLOUD_PROJECT := "proofpix";
     worker.w_TRILLIAN_LOG_ID := "1";
     worker.w_TRILLIAN_LOG_SERVER_ADDR := "localhost:8090";
     worker.w_firestore_NewClient := None;
     worker.w_Set := None;
     worker.w_Update := None;
     worker.w_MarshalIndent := fun _ => ([x7b; x7d], None);
     worker.w_certificate_Write := None;
     worker.w_QueueLeaf := (7, None);
     worker.w_GenerateBadge := fun _ => ([x89], None);
     worker.w_badge_Write := None |}.

(** Two assets as the worker stores them, and Firestore holding their
    documents. *)
Definition stored_assets : list worker.Asset :=
  [{| worker.ID := "asset-1"; worker.UserID := "user-456"; worker.Status := "completed";
      worker.CreatedAt := sample.noon; worker.RawAnalysis := sample.analysisText;
      worker.OriginalityScore := 98;
      worker.Narrative := "The lighting and shadows appear natural.";
      worker.Embedding := [sample.one; sample.two]; worker.TrillianLeafIndex := 7 |};
   {| worker.ID := "asset-2"; worker.UserID := "user-456"; worker.Status := "completed";
      worker.CreatedAt := sample.noon; worker.RawAnalysis := "no layout";
      worker.OriginalityScore := 0; worker.Narrative := "no layout";
      worker.Embedding := [sample.two]; worker.TrillianLeafIndex := 0 |}].

Definition fs_stored : Firestore :=
  {| NewClient := fun _ => None;
     Documents := fun _ => map (fun a => inl (stored.to_document a)) stored_assets |}.

(** A Firebase client that knows one token. *)
Definition VerifyIDToken (token : string) : auth.Token + error :=
  if String.eqb token "abc.def.ghi" then inl {| auth.UID := "user-456" |}
  else inr (errorString "invalid token").

(** The package [auth] before any call, an environment without project
    id, and one in which everything is there. *)
Definition fresh : auth.State := {| auth.once_done := false; auth.firebaseClient := None |}.

Definition env_missing : auth.Env :=
  {| auth.FIREBASE_PROJECT_ID := ""; auth.PROJECT_ID := "";
     auth.FIREBASE_SERVICE_ACCOUNT_KEY := "";
     auth.NewApp := fun _ _ => None;
     auth.app_Auth := inl VerifyIDToken |}.

Definition env_ok : auth.Env :=
  {| auth.FIREBASE_PROJECT_ID := ""; auth.PROJECT_ID := "proofpix";
     auth.FIREBASE_SERVICE_ACCOUNT_KEY := "";
     auth.NewApp := fun _ _ => None;
     auth.app_Auth := inl VerifyIDToken |}.

Definition request (header : string) : auth.Request :=
  {| auth.Authorization := header; auth.ctx_UserIDKey := None; auth.ctx_UserKey := None |}.

End scenario.

(** * Properties *)

Lemma pair_snd {A B : Type} (p : A * B) (b : B) : snd p = b -> p = (fst p, b).
Proof. destruct p. simpl. intros ->. reflexivity. Qed.

(** ** The index manager *)
Section IndexManagerProperties.
Import faiss index.
Context {I : Type} `{Index I}.

Implicit Types (m : IndexManager I) (idx : I) (v : list float32).

Lemma Add_inv m idx assetID v :
  index m = Some idx ->
  Add m assetID v =
    match idx_Add idx v with
    | (idx', Some err) => ({| index := Some idx'; idMap := idMap m |}, Some err)
    | (idx', None) =>
      ({| index := Some idx';
          idMap := Some (<[Ntotal idx := assetID]> (default ∅ (idMap m))) |}, None)
    end.
Proof.
  intros Hidx. unfold Add. rewrite Hidx.
  destruct (idx_Add idx v) as [idx' [err|]]; [reflexivity|].
  destruct (idMap m); reflexivity.
Qed.

Lemma Add_ok_inv m idx assetID v m' :
  index m = Some idx ->
  Add m assetID v = (m', None) ->
  exists idx', idx_Add idx v = (idx', None) /\ index m' = Some idx' /\
               idMap m' = Some (<[Ntotal idx := assetID]> (default ∅ (idMap m))).
Proof.
  intros Hidx Hadd. rewrite (Add_inv _ _ _ _ Hidx) in Hadd.
  destruct (idx_Add idx v) as [idx' [err|]]; [discriminate|].
  injection Hadd as <-. exists idx'. auto.
Qed.

Lemma idMap_lookup_insert (im : option (gmap Z string)) (i j : Z) (a : string) :
  idMap_lookup (Some (<[i := a]> (default ∅ im))) j =
    if decide (i = j) then Some a else idMap_lookup im j.
Proof.
  unfold idMap_lookup. rewrite lookup_insert. destruct (decide (i = j)); [reflexivity|].
  destruct im; [reflexivity | apply lookup_empty].
Qed.

Lemma Load_idMap (ft : Faults) (gcs : gmap (string * string) (list byte)) m bucketName objectName :
  idMap (fst (Load ft gcs m bucketName objectName)) = idMap m.
Proof.
  unfold Load.
  repeat match goal with
         | |- context [match ?x with _ => _ end] => destruct x
         end; reflexivity.
Qed.

Lemma Search_ids m v k ds ids :
  Search m v k = (ds, ids, None) ->
  (ids = [] /\ ds = []) \/
  exists idx labels, index m = Some idx /\ idx_Search idx v k = (ds, labels, None) /\
                     ids = map (label_assetID (idMap m)) labels.
Proof.
  unfold Search. destruct (index m) as [idx|] eqn:Hi; [|intros [= <- <-]; auto].
  destruct (Ntotal idx =? 0); [intros [= <- <-]; auto|].
  destruct (idx_Search idx v k) as [[ds' labels] [err|]] eqn:Hs; [discriminate|].
  intros [= <- <-]. right. exists idx, labels. auto.
Qed.

(** C5.  Empty-index search: on a manager with no installed index, or whose
    installed index holds zero vectors, [Search] returns empty distances,
    empty asset ids and no error, for every query vector and every [k]. *)
Theorem Search_empty_index m v k :
  index m = None \/ (exists idx, index m = Some idx /\ Ntotal idx = 0) ->
  Search m v k = ([], [], None).
Proof.
  unfold Search. intros [-> | (idx & -> & ->)]; reflexivity.
Qed.


(** C10, as the code has it.  [Search] never fails for a missing id
    mapping: when it returns without error, every hit whose label has no
    entry in the id map comes back with the empty string as asset id, and an
    error of [Search] is the error of the underlying search.  [Load] installs
    the index and leaves the id map as it was: after a successful [Load] the
    hits are named by the id map that the manager had before, so on a manager
    whose id map had no entry, as the fresh manager on which [main] calls
    [Load], every hit of every successful search has the empty asset id. *)
Theorem Search_missing_mapping :
  (forall m v k ds ids,
     Search m v k = (ds, ids, None) ->
     (ids = [] /\ ds = []) \/
     exists idx labels,
       index m = Some idx /\ idx_Search idx v k = (ds, labels, None) /\
       length ids = length labels /\
       forall (i : nat) label, labels !! i = Some label ->
         idMap_lookup (idMap m) label = None -> ids !! i = Some ""%string) /\
  (forall m v k ds ids err,
     Search m v k = (ds, ids, Some err) ->
     exists idx ds' labels, index m = Some idx /\
                            idx_Search idx v k = (ds', labels, Some err)) /\
  (forall (ft : Faults) (gcs : gmap (string * string) (list byte)) bucketName objectName
          m m' v k ds ids,
     Load ft gcs m bucketName objectName = (m', None) ->
     Search m' v k = (ds, ids, None) ->
     idMap m' = idMap m /\
     ((ids = [] /\ ds = []) \/
      exists idx labels,
        index m' = Some idx /\ idx_Search idx v k = (ds, labels, None) /\
        ids = map (label_assetID (idMap m)) labels)) /\
  (forall (ft : Faults) (gcs : gmap (string * string) (list byte)) bucketName objectName
          m m' v k ds ids,
     (forall label, idMap_lookup (idMap m) label = None) ->
     Load ft gcs m bucketName objectName = (m', None) ->
     Search m' v k = (ds, ids, None) ->
     Forall (fun assetID => assetID = ""%string) ids).
Proof.
  split; [|split; [|split]].
  - intros m v k ds ids Hs. destruct (Search_ids _ _ _ _ _ Hs) as [E|(idx & labels & Hi & Hl & ->)];
      [left; exact E|].
    right. exists idx, labels. repeat split; [assumption.. | now rewrite length_map |].
    intros i label Hlab Hnone. rewrite list_lookup_fmap, Hlab. simpl.
    unfold label_assetID. rewrite Hnone. reflexivity.
  - intros m v k ds ids err. unfold Search.
    destruct (index m) as [idx|]; [|discriminate].
    destruct (Ntotal idx =? 0); [discriminate|].
    destruct (idx_Search idx v k) as [[ds' labels] [err'|]] eqn:E; [|discriminate].
    intros [= <- <- <-]. eauto.
  - intros ft gcs b o m m' v k ds ids Hload Hs.
    pose proof (Load_idMap ft gcs m b o) as Hmap.
    rewrite Hload in Hmap. simpl in Hmap. split; [exact Hmap|].
    destruct (Search_ids _ _ _ _ _ Hs) as [E|(idx & labels & Hi & Hl & ->)];
      [left; exact E|].
    right. exists idx, labels. rewrite Hmap. auto.
  - intros ft gcs b o m m' v k ds ids Hempty Hload Hs.
    pose proof (Load_idMap ft gcs m b o) as Hmap.
    rewrite Hload in Hmap. simpl in Hmap.
    destruct (Search_ids _ _ _ _ _ Hs) as [[-> _]|(idx & labels & _ & _ & ->)];
      [constructor|].
    rewrite Hmap. clear - Hempty. induction labels as [|label labels IH]; constructor;
      [|exact IH].
    unfold label_assetID. rewrite Hempty. reflexivity.
Qed.

End IndexManagerProperties.

(** ** Sequence ids

    What the library promises about an [Add] of one vector of the index's
    dimension is taken as hypothesis: the index holds [Ntotal] vectors, and a
    successful [Add] of such a vector appends it and keeps the dimension. *)
Section SequenceIds.
Import faiss index.
Context {I : Type} `{Index I}.

Hypothesis Ntotal_contents :
  forall idx : I, Ntotal idx = Z.of_nat (length (contents idx)).
Hypothesis Add_appends :
  forall (idx : I) (v : list float32) (idx' : I),
    Z.of_nat (length v) = D idx -> idx_Add idx v = (idx', None) ->
    contents idx' = contents idx ++ [v] /\ D idx' = D idx.

Lemma AddAll_run (reqs : list (string * list float32)) :
  forall (m : IndexManager I) (idx : I) (m' : IndexManager I) (errs : list (option error)),
    index m = Some idx ->
    Forall (fun r => Z.of_nat (length (snd r)) = D idx) reqs ->
    AddAll m reqs = (m', errs) ->
    Forall (fun e => e = None) errs ->
    exists idx',
      index m' = Some idx' /\ D idx' = D idx /\
      contents idx' = contents idx ++ map snd reqs /\
      forall j : Z,
        idMap_lookup (idMap m') j =
          if decide (Ntotal idx <= j < Ntotal idx + Z.of_nat (length reqs))
          then fst <$> reqs !! Z.to_nat (j - Ntotal idx)
          else idMap_lookup (idMap m) j.
Proof.
  induction reqs as [|[assetID v] reqs IH]; intros m idx m' errs Hidx Hlen Hrun Herrs.
  - simpl in Hrun. injection Hrun as <- <-. exists idx. repeat split; [assumption | |].
    + simpl. now rewrite app_nil_r.
    + intros j. destruct (decide _) as [Hj|]; [simpl in Hj; lia | reflexivity].
  - simpl in Hrun.
    destruct (Add m assetID v) as [m1 err] eqn:Hadd.
    destruct (AddAll m1 reqs) as [m2 errs'] eqn:Hrest.
    injection Hrun as <- <-.
    apply Forall_cons in Herrs as [-> Herrs].
    apply Forall_cons in Hlen as [Hv Hlen]. simpl in Hv.
    destruct (Add_ok_inv _ _ _ _ _ Hidx Hadd) as (idx1 & Hlib & Hidx1 & Hmap1).
    destruct (Add_appends _ _ _ Hv Hlib) as [Hc1 Hd1].
    assert (Hn1 : Ntotal idx1 = Ntotal idx + 1).
    { rewrite !Ntotal_contents, Hc1, length_app. simpl. lia. }
    rewrite <- Hd1 in Hlen.
    destruct (IH m1 idx1 m2 errs' Hidx1 Hlen Hrest Herrs) as (idx' & Hi' & Hd' & Hc' & Hl').
    exists idx'. repeat split; [assumption | congruence | |].
    + rewrite Hc', Hc1, <- app_assoc. reflexivity.
    + intros j. rewrite Hl', Hn1, Hmap1, idMap_lookup_insert.
      pose proof (Ntotal_contents idx) as Hn0. simpl length.
      repeat destruct (decide _); try lia.
      * replace (Z.to_nat (j - Ntotal idx)) with (S (Z.to_nat (j - (Ntotal idx + 1)))) by lia.
        reflexivity.
      * subst j. replace (Z.to_nat (Ntotal idx - Ntotal idx)) with O by lia. reflexivity.
      * reflexivity.
Qed.

(** C4, as the code has it.  Monotonic sequence ids.  A successful [Add]
    records the asset id under the size that the index had just before the
    call and touches no other entry of the id map; a vector of the index's
    dimension then sits at that position.  Hence, after [M] successful [Add]
    calls on an installed empty index, each with one vector of the index's
    dimension and taken in the order of the writer lock, the index holds the
    [M] vectors in that order, its size is [M], and the id map sends [j] to
    the asset id of the call number [j] for every [j] in [0..M-1] and is
    otherwise as before: the ids are [0..M-1], none skipped and none used
    twice. *)
Theorem Add_monotonic_ids :
  (forall (m : IndexManager I) (idx : I) assetID v m',
     index m = Some idx ->
     Add m assetID v = (m', None) ->
     idMap_lookup (idMap m') (Ntotal idx) = Some assetID /\
     (forall j, j <> Ntotal idx -> idMap_lookup (idMap m') j = idMap_lookup (idMap m) j) /\
     (Z.of_nat (length v) = D idx ->
      exists idx', index m' = Some idx' /\ contents idx' = contents idx ++ [v] /\
                   contents idx' !! Z.to_nat (Ntotal idx) = Some v)) /\
  (forall (m0 : IndexManager I) (idx0 : I) reqs m' errs,
     index m0 = Some idx0 ->
     Ntotal idx0 = 0 ->
     Forall (fun r => Z.of_nat (length (snd r)) = D idx0) reqs ->
     AddAll m0 reqs = (m', errs) ->
     Forall (fun e => e = None) errs ->
     exists idx',
       index m' = Some idx' /\
       Ntotal idx' = Z.of_nat (length reqs) /\
       contents idx' = map snd reqs /\
       (forall j : Z, 0 <= j < Z.of_nat (length reqs) ->
          idMap_lookup (idMap m') j = fst <$> reqs !! Z.to_nat j) /\
       (forall j : Z, ~ 0 <= j < Z.of_nat (length reqs) ->
          idMap_lookup (idMap m') j = idMap_lookup (idMap m0) j)).
Proof.
  split.
  - intros m idx assetID v m' Hidx Hadd.
    destruct (Add_ok_inv _ _ _ _ _ Hidx Hadd) as (idx1 & Hlib & Hidx1 & Hmap1).
    repeat split.
    + rewrite Hmap1, idMap_lookup_insert. destruct (decide _); congruence.
    + intros j Hj. rewrite Hmap1, idMap_lookup_insert. destruct (decide _); congruence.
    + intros Hv. destruct (Add_appends _ _ _ Hv Hlib) as [Hc1 _].
      exists idx1. repeat split; [assumption.. |].
      rewrite Hc1, Ntotal_contents, Nat2Z.id, lookup_app_r by lia.
      now rewrite Nat.sub_diag.
  - intros m0 idx0 reqs m' errs Hidx Hzero Hlen Hrun Herrs.
    destruct (AddAll_run reqs m0 idx0 m' errs Hidx Hlen Hrun Herrs)
      as (idx' & Hi' & _ & Hc' & Hl').
    assert (Hnil : contents idx0 = []).
    { rewrite Ntotal_contents in Hzero. destruct (contents idx0); [reflexivity|simpl in Hzero; lia]. }
    rewrite Hnil in Hc'. simpl in Hc'.
    exists idx'. repeat split; [assumption | | assumption | |].
    + rewrite Ntotal_contents, Hc', length_map. reflexivity.
    + intros j Hj. rewrite Hl', Hzero. destruct (decide _); [|lia].
      now rewrite Z.sub_0_r.
    + intros j Hj. rewrite Hl', Hzero. destruct (decide _); [lia|reflexivity].
Qed.

End SequenceIds.

(** ** The snapshot *)
Section Snapshot.
Import faiss index.
Context {I : Type} `{Index I}.


End Snapshot.

(** ** The reference implementation keeps the library's promises *)
Section FlatIndex.
Import faiss index flat.

Lemma chunks_nil (fuel d : nat) : chunks fuel d [] = [].
Proof. destruct fuel; reflexivity. Qed.

Lemma chunks_one (v : list float32) :
  v <> [] -> chunks (length v) (length v) v = [v].
Proof.
  destruct v as [|a v]; [congruence|]. intros _.
  change (chunks (length (a :: v)) (length (a :: v)) (a :: v))
    with (take (length (a :: v)) (a :: v)
            :: chunks (length v) (length (a :: v)) (drop (length (a :: v)) (a :: v))).
  rewrite firstn_all, drop_all, chunks_nil. reflexivity.
Qed.

Lemma flat_Ntotal_contents (idx : IndexFlat) :
  Ntotal idx = Z.of_nat (length (contents idx)).
Proof. reflexivity. Qed.

Lemma flat_Add_appends (idx : IndexFlat) (v : list float32) (idx' : IndexFlat) :
  Z.of_nat (length v) = D idx -> idx_Add idx v = (idx', None) ->
  contents idx' = contents idx ++ [v] /\ D idx' = D idx.
Proof.
  simpl. unfold flat_Add. intros Hlen.
  destruct (_ && _ && _) eqn:Hc; [|discriminate].
  intros [= <-]. simpl. split; [|reflexivity].
  rewrite <- Hlen, Nat2Z.id, chunks_one; [reflexivity|].
  intros ->. simpl in Hlen. rewrite <- Hlen in Hc. simpl in Hc. discriminate.
Qed.








Lemma chunks_Forall (P : float32 -> Prop) (d : nat) :
  (0 < d)%nat ->
  forall (fuel : nat) (x : list float32),
    (exists q, length x = (q * d)%nat) -> Forall P x ->
    Forall (fun v => length v = d /\ Forall P v) (chunks fuel d x).
Proof.
  intros Hd. induction fuel as [|fuel IH]; intros x [q Hq] HP; [constructor|].
  destruct x as [|a x]; [constructor|].
  cbn [chunks]. remember (a :: x) as y eqn:Hy.
  assert (Hq1 : (1 <= q)%nat).
  { destruct q; [|lia]. subst y. simpl in Hq. lia. }
  constructor; [split|].
  - rewrite length_take. nia.
  - apply Forall_take. exact HP.
  - apply IH.
    + exists (q - 1)%nat. rewrite length_drop. nia.
    + apply Forall_drop. exact HP.
Qed.

Lemma flat_Add_wf (idx idx' : IndexFlat) (x : list float32) :
  flat_wf idx ->
  Forall (fun a => 0 <= a < 2 ^ 32) x ->
  flat_Add idx x = (idx', None) ->
  Z.of_nat (length (flat_xb idx')) < 2 ^ 64 ->
  flat_wf idx'.
Proof.
  intros (Hd & Hn & Hxb) Hx. unfold flat_Add.
  destruct (_ && _ && _) eqn:Hc; [|discriminate].
  intros [= <-] Hn'. cbn [flat_d flat_xb] in *.
  apply andb_true_iff in Hc as [Hc _]. apply andb_true_iff in Hc as [Hpos Hmod].
  apply Z.ltb_lt in Hpos. apply Z.eqb_eq in Hmod.
  split; [exact Hd|]. split; [exact Hn'|].
  apply Forall_app. split; [exact Hxb|].
  apply Z.mod_divide in Hmod; [|lia]. destruct Hmod as [z Hz].
  assert (Hz0 : 0 <= z) by nia.
  eapply Forall_impl.
  - apply (chunks_Forall (fun a => 0 <= a < 2 ^ 32) (Z.to_nat (flat_d idx)));
      [lia | | exact Hx].
    exists (Z.to_nat z). apply Nat2Z.inj. rewrite Nat2Z.inj_mul, !Z2Nat.id by lia. exact Hz.
  - intros v [Hl Hv]. cbn [flat_d]. unfold float32 in *. split; [lia | exact Hv].
Qed.

End FlatIndex.

(** ** Examples on the reference implementation *)
Section IndexExamples.
Import faiss index flat.

Lemma Search_empty_index_example :
  Search (new_manager : IndexManager IndexFlat) (sample.vec sample.one) 5 = ([], [], None) /\
  Search sample.installed (sample.vec sample.one) 5 = ([], [], None).
Proof.
  split; apply Search_empty_index.
  - left. reflexivity.
  - right. exists (NewIndexFlatL2 sample.dim). split; reflexivity.
Defined.



Lemma Add_monotonic_ids_example :
  exists idx',
    index sample.two_assets = Some idx' /\
    Ntotal idx' = 2 /\
    contents idx' = [sample.vec sample.one; sample.vec sample.two] /\
    idMap_lookup (idMap sample.two_assets) 0 = Some "asset-1"%string /\
    idMap_lookup (idMap sample.two_assets) 1 = Some "asset-2"%string /\
    idMap_lookup (idMap sample.two_assets) 2 = None.
Proof.
  destruct (Add_monotonic_ids flat_Ntotal_contents flat_Add_appends) as [_ Hrun].
  destruct (Hrun sample.installed (NewIndexFlatL2 sample.dim) sample.requests
              sample.two_assets (snd (AddAll sample.installed sample.requests)))
    as (idx' & Hi & Hn & Hc & Hin & Hout).
  - reflexivity.
  - reflexivity.
  - repeat constructor.
  - apply surjective_pairing.
  - vm_compute. repeat constructor.
  - exists idx'.
    split; [exact Hi|]. split; [exact Hn|]. split; [exact Hc|].
    split; [|split].
    + rewrite (Hin 0); [reflexivity | simpl; lia].
    + rewrite (Hin 1); [reflexivity | simpl; lia].
    + rewrite (Hout 2); [reflexivity | simpl; lia].
Defined.

(** C4 fails as stated: [Add] does not look at the length of the slice, and
    the index takes a slice of 2816 floats as two vectors.  After two
    successful calls the size is 3, and sequence id 1 belongs to no asset. *)
Lemma Add_long_vector_skips_id :
  index sample.installed = Some (NewIndexFlatL2 sample.dim) /\
  Ntotal (NewIndexFlatL2 sample.dim) = 0 /\
  AddAll sample.installed sample.requests_long = (sample.skipped, [None; None]) /\
  (exists idx', index sample.skipped = Some idx' /\ Ntotal idx' = 3) /\
  idMap_lookup (idMap sample.skipped) 0 = Some "asset-1"%string /\
  idMap_lookup (idMap sample.skipped) 1 = None /\
  idMap_lookup (idMap sample.skipped) 2 = Some "asset-2"%string /\
  ~ (forall reqs m' errs,
       AddAll sample.installed reqs = (m', errs) ->
       Forall (fun e => e = None) errs ->
       exists idx',
         index m' = Some idx' /\
         Ntotal idx' = Z.of_nat (length reqs) /\
         forall j : Z, 0 <= j < Z.of_nat (length reqs) ->
           idMap_lookup (idMap m') j = fst <$> reqs !! Z.to_nat j).
Proof.
  assert (Hrun : AddAll sample.installed sample.requests_long = (sample.skipped, [None; None])).
  { apply pair_snd. vm_compute. reflexivity. }
  assert (H1 : idMap_lookup (idMap sample.skipped) 1 = None) by (vm_compute; reflexivity).
  split; [reflexivity|]. split; [reflexivity|]. split; [exact Hrun|].
  split; [eexists; split; [vm_compute; reflexivity | vm_compute; reflexivity]|].
  split; [vm_compute; reflexivity|]. split; [exact H1|]. split; [vm_compute; reflexivity|].
  intros Hall.
  destruct (Hall _ _ _ Hrun) as (idx' & _ & _ & Hids); [repeat constructor|].
  specialize (Hids 1 ltac:(simpl; lia)). rewrite H1 in Hids. discriminate Hids.
Qed.

Lemma Search_missing_mapping_example :
  Load no_faults sample.store new_manager "proofpix-index" "latest.faiss" = (sample.reloaded, None) /\
  snd (fst (Search sample.two_assets (sample.vec sample.one) 2))
    = ["asset-1"; "asset-2"]%string /\
  snd (fst (Search sample.reloaded (sample.vec sample.one) 2)) = [""; ""]%string /\
  Forall (fun assetID => assetID = ""%string)
         (snd (fst (Search sample.reloaded (sample.vec sample.one) 2))).
Proof.
  assert (HL : Load no_faults sample.store new_manager "proofpix-index" "latest.faiss"
               = (sample.reloaded, None)) by (apply pair_snd; vm_compute; reflexivity).
  split; [exact HL|]. split; [vm_compute; reflexivity|].
  split; [vm_compute; reflexivity|].
  destruct (@Search_missing_mapping IndexFlat _) as (_ & _ & _ & H4).
  apply (H4 no_faults sample.store "proofpix-index" "latest.faiss" new_manager sample.reloaded
            (sample.vec sample.one) 2
            (fst (fst (Search sample.reloaded (sample.vec sample.one) 2)))).
  - reflexivity.
  - exact HL.
  - vm_compute. reflexivity.
Defined.

(** C10 fails as stated: a manager that maps its two vectors to [asset-1]
    and [asset-2] loads its own snapshot without error, and a search
    afterwards still returns the two asset ids, not the empty string. *)
Lemma Load_keeps_idMap_hits :
  snd (Load no_faults sample.store sample.two_assets "proofpix-index" "latest.faiss") = None /\
  snd (Search (fst (Load no_faults sample.store sample.two_assets
                        "proofpix-index" "latest.faiss"))
              (sample.vec sample.one) 2) = None /\
  snd (fst (Search (fst (Load no_faults sample.store sample.two_assets
                             "proofpix-index" "latest.faiss"))
                   (sample.vec sample.one) 2))
    = ["asset-1"; "asset-2"]%string /\
  ~ Forall (fun assetID => assetID = ""%string) ["asset-1"; "asset-2"]%string.
Proof.
  split; [vm_compute; reflexivity|]. split; [vm_compute; reflexivity|].
  split; [vm_compute; reflexivity|].
  intros Hall. apply Forall_cons in Hall as [Hx _]. discriminate Hx.
Qed.



End IndexExamples.

(** ** The certificate generator *)
Section Certificate.
Import certificate.

Lemma Generate_proofValue (asset : models.Asset) (now : time.Time) :
  proofValueOf (Generate (Some asset) now) =
    Some (hex (sha256.Sum256 (bytes_of_string
           (models.ID asset +:+ time.FormatRFC3339 (models.CreatedAt asset))))).
Proof. reflexivity. Qed.

(** C9.  Rating clamp: for every asset, [Generate] succeeds and the rating
    of the credential is the originality score clamped into [1..10] without
    rescaling: 1 for a score below 1, 10 for a score above 10, the score
    itself from 1 to 10; the best rating is 10 and the worst is 1. *)
Theorem Generate_rating_clamp (asset : models.Asset) (now : time.Time) :
  exists rating,
    ratingOf (Generate (Some asset) now) = Some rating /\
    BestRating rating = 10 /\
    WorstRating rating = 1 /\
    RatingValue rating = Z.max 1 (Z.min 10 (models.OriginalityScore asset)) /\
    (models.OriginalityScore asset < 1 -> RatingValue rating = 1) /\
    (10 < models.OriginalityScore asset -> RatingValue rating = 10) /\
    (1 <= models.OriginalityScore asset <= 10 ->
     RatingValue rating = models.OriginalityScore asset).
Proof.
  eexists. split; [reflexivity|]. simpl.
  destruct (Z.ltb_spec (models.OriginalityScore asset) 1);
    [|destruct (Z.ltb_spec 10 (models.OriginalityScore asset))];
    repeat split; lia.
Qed.

Lemma Generate_rating_clamp_example :
  (RatingValue <$> ratingOf (Generate (Some (sample.scored 0)) sample.noon)) = Some 1 /\
  (RatingValue <$> ratingOf (Generate (Some (sample.scored 98)) sample.noon)) = Some 10 /\
  (RatingValue <$> ratingOf (Generate (Some sample.testAsset) sample.noon)) = Some 8.
Proof.
  destruct (Generate_rating_clamp (sample.scored 0) sample.noon) as (r0 & E0 & _ & _ & _ & H0 & _).
  destruct (Generate_rating_clamp (sample.scored 98) sample.noon) as (r1 & E1 & _ & _ & _ & _ & H1 & _).
  destruct (Generate_rating_clamp sample.testAsset sample.noon) as (r2 & E2 & _ & _ & _ & _ & _ & H2).
  rewrite E0, E1, E2. simpl.
  rewrite H0, H1, H2 by (simpl; lia). auto.
Defined.

(** C8 fails as stated: two assets with the same id whose creation times
    differ by half a second get the same proof value. *)
Lemma Generate_same_digest_for_different_times :
  models.ID sample.testAsset = models.ID sample.testAsset_later /\
  models.CreatedAt sample.testAsset <> models.CreatedAt sample.testAsset_later /\
  proofValueOf (Generate (Some sample.testAsset) sample.noon)
    = proofValueOf (Generate (Some sample.testAsset_later) sample.noon).
Proof.
  split; [reflexivity|]. split; [discriminate|]. reflexivity.
Qed.

(** C8, as the code has it.  [Generate] succeeds for every asset, and the
    proof value is the SHA-256 digest, in hexadecimal, of the asset id
    followed by the creation time in RFC 3339 notation, which has whole
    seconds.  So it does not depend on the time of generation; two assets for
    which that text is the same get the same proof value, in particular two
    assets with one id, created in the same second at the same offset; and
    two proof values differ only if the ids or the creation times differ. *)
Theorem Generate_proof_determinism :
  (forall asset now,
     exists credential,
       Generate (Some asset) now = (Some credential, None) /\
       ProofValue (proof credential)
         = hex (sha256.Sum256 (bytes_of_string
                  (models.ID asset +:+ time.FormatRFC3339 (models.CreatedAt asset))))) /\
  (forall asset now1 now2,
     proofValueOf (Generate (Some asset) now1) = proofValueOf (Generate (Some asset) now2)) /\
  (forall a1 a2 now1 now2,
     models.ID a1 +:+ time.FormatRFC3339 (models.CreatedAt a1)
       = models.ID a2 +:+ time.FormatRFC3339 (models.CreatedAt a2) ->
     proofValueOf (Generate (Some a1) now1) = proofValueOf (Generate (Some a2) now2)) /\
  (forall a1 a2 now1 now2,
     models.ID a1 = models.ID a2 ->
     time.unixSec (models.CreatedAt a1) = time.unixSec (models.CreatedAt a2) ->
     time.offset (models.CreatedAt a1) = time.offset (models.CreatedAt a2) ->
     proofValueOf (Generate (Some a1) now1) = proofValueOf (Generate (Some a2) now2)) /\
  (forall a1 a2 now1 now2,
     proofValueOf (Generate (Some a1) now1) <> proofValueOf (Generate (Some a2) now2) ->
     models.ID a1 <> models.ID a2 \/ models.CreatedAt a1 <> models.CreatedAt a2).
Proof.
  split; [|split; [|split; [|split]]].
  - intros asset now. eexists. split; reflexivity.
  - intros. reflexivity.
  - intros a1 a2 now1 now2 E. rewrite !Generate_proofValue, E. reflexivity.
  - intros a1 a2 now1 now2 Hid Hsec Hoff. rewrite !Generate_proofValue.
    unfold time.FormatRFC3339. rewrite Hid, Hsec, Hoff. reflexivity.
  - intros a1 a2 now1 now2 Hne.
    destruct (decide (models.ID a1 = models.ID a2)) as [Hid|]; [|left; assumption].
    right. intros Ht. apply Hne. rewrite !Generate_proofValue, Hid, Ht. reflexivity.
Qed.

Lemma Generate_proof_determinism_example :
  proofValueOf (Generate (Some sample.testAsset) sample.noon)
    = proofValueOf (Generate (Some sample.testAsset_later) sample.noon) /\
  time.FormatRFC3339 (models.CreatedAt sample.testAsset) = "2024-01-15T10:30:00Z"%string.
Proof.
  destruct Generate_proof_determinism as (_ & _ & _ & H3 & _).
  split; [apply H3; reflexivity | reflexivity].
Defined.

End Certificate.

(** ** Rounding to binary64 stays below a bound that is itself a float *)
Section Rounding.


Lemma shr_1_rel (a : shr_record) : 0 <= shr_m a -> shr_rel 1 a (shr_1 a).
Proof.
  destruct a as [m r s]. unfold shr_rel. simpl. intros Hm.
  destruct m as [|p|p]; [| |lia].
  - simpl. split; [reflexivity|]. intros H. right. exact H.
  - rewrite Z.pow_1_r. destruct p as [p|p|]; simpl shr_m; simpl shr_r; simpl shr_s.
    + split; [rewrite Pos2Z.inj_xI; apply Z.div_unique with 1; lia|].
      intros _. left. rewrite Pos2Z.inj_xI.
      replace (2 * Z.pos p + 1) with (1 + Z.pos p * 2) by lia.
      rewrite Z_mod_plus_full. discriminate.
    + split; [rewrite Pos2Z.inj_xO; apply Z.div_unique with 0; lia|].
      intros H. right. exact H.
    + split; [reflexivity|]. intros _. left. discriminate.
Qed.

Lemma shr_rel_trans (j k : Z) (a b c : shr_record) :
  0 <= j -> 0 <= k -> 0 <= shr_m a ->
  shr_rel j a b -> shr_rel k b c -> shr_rel (j + k) a c.
Proof.
  intros Hj Hk Ha [Hb1 Hb2] [Hc1 Hc2].
  assert (Hpj : 0 < 2 ^ j) by (apply Z.pow_pos_nonneg; lia).
  assert (Hpk : 0 < 2 ^ k) by (apply Z.pow_pos_nonneg; lia).
  split.
  - rewrite Hc1, Hb1, Z.pow_add_r, Z.div_div by lia. reflexivity.
  - intros Hc. destruct (Hc2 Hc) as [Hmod|Hb].
    + left. intros Hz. apply Hmod. rewrite Hb1.
      rewrite Z.pow_add_r in Hz by lia.
      apply Z.mod_divide in Hz; [|lia]. destruct Hz as [t Ht].
      rewrite Ht. replace (t * (2 ^ j * 2 ^ k)) with (t * 2 ^ k * 2 ^ j) by lia.
      rewrite Z.div_mul by lia. apply Z_mod_mult.
    + destruct (Hb2 Hb) as [Hmod|Ha']; [|right; exact Ha'].
      left. intros Hz. apply Hmod.
      rewrite Z.pow_add_r in Hz by lia.
      apply Z.mod_divide in Hz; [|lia]. destruct Hz as [t Ht].
      rewrite Ht. replace (t * (2 ^ j * 2 ^ k)) with (t * 2 ^ k * 2 ^ j) by lia.
      apply Z_mod_mult.
Qed.

Lemma shr_rel_nonneg (k : Z) (a b : shr_record) :
  0 <= k -> 0 <= shr_m a -> shr_rel k a b -> 0 <= shr_m b.
Proof.
  intros Hk Ha [Hb _]. rewrite Hb. apply Z.div_pos; [lia|]. apply Z.pow_pos_nonneg; lia.
Qed.

Lemma iter_pos_shr_rel (p : positive) :
  forall a, 0 <= shr_m a -> shr_rel (Z.pos p) a (SpecFloat.iter_pos shr_1 p a).
Proof.
  induction p as [p IH|p IH|]; intros a Ha; simpl SpecFloat.iter_pos.
  - pose proof (shr_1_rel a Ha) as H1.
    pose proof (shr_rel_nonneg 1 _ _ ltac:(lia) Ha H1) as Hb.
    pose proof (IH _ Hb) as H2.
    pose proof (shr_rel_nonneg (Z.pos p) _ _ ltac:(lia) Hb H2) as Hc.
    pose proof (IH _ Hc) as H3.
    rewrite Pos2Z.inj_xI. replace (2 * Z.pos p + 1) with (1 + (Z.pos p + Z.pos p)) by lia.
    apply (shr_rel_trans 1 (Z.pos p + Z.pos p) a (shr_1 a)); [lia | lia | assumption | assumption |].
    apply (shr_rel_trans (Z.pos p) (Z.pos p) _ (SpecFloat.iter_pos shr_1 p (shr_1 a)));
      try lia; assumption.
  - pose proof (IH _ Ha) as H2.
    pose proof (shr_rel_nonneg (Z.pos p) _ _ ltac:(lia) Ha H2) as Hc.
    pose proof (IH _ Hc) as H3.
    rewrite Pos2Z.inj_xO. replace (2 * Z.pos p) with (Z.pos p + Z.pos p) by lia.
    apply (shr_rel_trans (Z.pos p) (Z.pos p) a (SpecFloat.iter_pos shr_1 p a));
      try lia; assumption.
  - apply shr_1_rel. exact Ha.
Qed.

Lemma shr_spec (m : Z) (l : location) (e n : Z) :
  0 <= m ->
  let k := Z.max n 0 in
  let res := shr (shr_record_of_loc m l) e n in
  snd res = e + k /\
  shr_m (fst res) = m / 2 ^ k /\
  (loc_up (loc_of_shr_record (fst res)) = 1 -> m mod 2 ^ k <> 0 \/ loc_up l = 1).
Proof.
  intros Hm k res.
  assert (Hflags : forall x, shr_r (shr_record_of_loc x l) || shr_s (shr_record_of_loc x l) = true
                             -> loc_up l = 1).
  { intros x. destruct l as [|[| |]]; simpl; congruence. }
  assert (Hloc : forall mrs, loc_up (loc_of_shr_record mrs) = 1 -> shr_r mrs || shr_s mrs = true).
  { intros [x [|] [|]]; simpl; congruence. }
  assert (Hm0 : shr_m (shr_record_of_loc m l) = m) by (destruct l as [|[| |]]; reflexivity).
  destruct n as [|p|p]; subst k res; simpl shr; simpl Z.max; cbv zeta; simpl fst; simpl snd.
  - rewrite Z.add_0_r, Z.pow_0_r, Z.div_1_r, Hm0. repeat split.
    intros H. right. apply (Hflags m). apply Hloc. exact H.
  - destruct (iter_pos_shr_rel p (shr_record_of_loc m l)) as [H1 H2]; [rewrite Hm0; exact Hm|].
    rewrite Hm0 in H1, H2. repeat split; [exact H1|].
    intros H. destruct (H2 (Hloc _ H)) as [Hmod|Hf]; [left; exact Hmod|right; exact (Hflags _ Hf)].
  - rewrite Z.add_0_r, Z.pow_0_r, Z.div_1_r, Hm0. repeat split.
    intros H. right. apply (Hflags m). apply Hloc. exact H.
Qed.

Lemma round_nearest_even_bounds (m : Z) (l : location) :
  m <= round_nearest_even m l <= m + loc_up l.
Proof.
  destruct l as [|[| |]]; simpl; try lia. destruct (Z.even m); lia.
Qed.

Lemma digits2_pos_size (p : positive) : digits2_pos p = Pos.size p.
Proof. induction p; simpl; congruence. Qed.

Lemma Zdigits2_bound (m t : Z) :
  0 <= m -> 0 <= t -> m < 2 ^ t -> Zdigits2 m <= t.
Proof.
  intros Hm Ht Hlt. destruct m as [|p|p]; [simpl; lia | | lia].
  simpl. rewrite digits2_pos_size.
  pose proof (Pos.size_le p) as Hs.
  assert (Hs' : 2 ^ Z.pos (Pos.size p) <= 2 * Z.pos p).
  { rewrite <- Pos2Z.inj_pow. change (2 * Z.pos p) with (Z.pos p~0). apply Pos2Z.pos_le_pos. exact Hs. }
  destruct (Z_le_gt_dec (Z.pos (Pos.size p)) t) as [|Hgt]; [assumption|exfalso].
  assert (2 ^ (t + 1) <= 2 ^ Z.pos (Pos.size p)) by (apply Z.pow_le_mono_r; lia).
  rewrite Z.pow_add_r, Z.pow_1_r in H by lia. lia.
Qed.

Lemma fexp_le (c g m e : Z) :
  0 < c < 2 ^ 53 -> -1074 <= g -> 0 <= m -> e <= g -> m <= c * 2 ^ (g - e) ->
  fexp 53 1024 (Zdigits2 m + e) <= g.
Proof.
  intros Hc Hg Hm He Hle.
  assert (Hp : 0 < 2 ^ (g - e)) by (apply Z.pow_pos_nonneg; lia).
  assert (Hd : Zdigits2 m <= 53 + (g - e)).
  { apply Zdigits2_bound; [lia | lia |]. rewrite Z.pow_add_r by lia. nia. }
  unfold fexp, emin. lia.
Qed.

Lemma shr_fexp_round_le (c g m e : Z) (l : location) :
  0 < c < 2 ^ 53 -> -1074 <= g -> 0 <= m -> e <= g ->
  m + loc_up l <= c * 2 ^ (g - e) ->
  let res := shr_fexp 53 1024 m e l in
  let m' := round_nearest_even (shr_m (fst res)) (loc_of_shr_record (fst res)) in
  snd res <= g /\ 0 <= shr_m (fst res) <= m' /\ m' <= c * 2 ^ (g - snd res).
Proof.
  intros Hc Hg Hm He Hle res m'.
  assert (Hup : 0 <= loc_up l <= 1) by (destruct l; simpl; lia).
  pose proof (fexp_le c g m e Hc Hg Hm He ltac:(lia)) as Hfexp.
  unfold shr_fexp in res.
  set (n := fexp 53 1024 (Zdigits2 m + e) - e) in *.
  destruct (shr_spec m l e n Hm) as (He' & Hm' & Hloc).
  fold res in He', Hm', Hloc.
  set (k := Z.max n 0) in *.
  assert (Hk : 0 <= k) by lia.
  assert (Hpk : 0 < 2 ^ k) by (apply Z.pow_pos_nonneg; lia).
  assert (Heg : snd res <= g) by lia.
  assert (Hsplit : 2 ^ (g - e) = 2 ^ (g - snd res) * 2 ^ k).
  { rewrite <- Z.pow_add_r by lia. f_equal. lia. }
  assert (Hp' : 0 < 2 ^ (g - snd res)) by (apply Z.pow_pos_nonneg; lia).
  pose proof (round_nearest_even_bounds (shr_m (fst res)) (loc_of_shr_record (fst res))) as Hr.
  fold m' in Hr.
  assert (H0 : 0 <= shr_m (fst res)).
  { rewrite Hm'. apply Z.div_pos; lia. }
  split; [exact Heg|]. split; [lia|].
  set (C := c * 2 ^ (g - snd res)) in *.
  assert (HC : m + loc_up l <= C * 2 ^ k) by (unfold C; rewrite Hsplit in Hle; lia).
  assert (Hup' : loc_up (loc_of_shr_record (fst res)) = 0 \/
                 loc_up (loc_of_shr_record (fst res)) = 1)
    by (destruct (loc_of_shr_record (fst res)); simpl; lia).
  destruct Hup' as [Hz|Ho].
  - rewrite Hz in Hr. assert (shr_m (fst res) <= C); [|lia].
    rewrite Hm'. apply Z.div_le_upper_bound; lia.
  - rewrite Ho in Hr. assert (shr_m (fst res) < C); [|lia].
    rewrite Hm'. apply Z.div_lt_upper_bound; [lia|].
    destruct (Hloc Ho) as [Hmod|Hl]; [|lia].
    assert (m <> C * 2 ^ k); [|lia].
    intros Heq. apply Hmod. rewrite Heq. apply Z_mod_mult.
Qed.

Lemma binary_round_aux_le (c g mx ex : Z) (lx : location) :
  0 < c < 2 ^ 53 -> -1074 <= g <= 971 -> 0 <= mx -> ex <= g ->
  mx + loc_up lx <= c * 2 ^ (g - ex) ->
  binary_round_aux 53 1024 false mx ex lx = S754_zero false \/
  exists m e, binary_round_aux 53 1024 false mx ex lx = S754_finite false m e /\
              e <= g /\ Z.pos m <= c * 2 ^ (g - e).
Proof.
  intros Hc Hg Hm He Hle.
  destruct (shr_fexp_round_le c g mx ex lx Hc ltac:(lia) Hm He Hle) as (He1 & Hm1 & Hle1).
  unfold binary_round_aux.
  destruct (shr_fexp 53 1024 mx ex lx) as [mrs1 e1]. simpl fst in *. simpl snd in *.
  set (m1 := round_nearest_even (shr_m mrs1) (loc_of_shr_record mrs1)) in *.
  destruct (shr_fexp_round_le c g m1 e1 loc_Exact Hc ltac:(lia) ltac:(lia) He1
              ltac:(simpl; lia)) as (He2 & Hm2 & Hle2).
  destruct (shr_fexp 53 1024 m1 e1 loc_Exact) as [mrs2 e2]. simpl fst in *. simpl snd in *.
  destruct (shr_m mrs2) as [|m2|m2] eqn:E2; [left; reflexivity | | lia].
  right. destruct (Z.leb_spec e2 (1024 - 53)) as [_|Hbig]; [|lia].
  exists m2, e2. repeat split; [exact He2 | lia].
Qed.

End Rounding.

Section Score.
Import strconv.

Lemma new_location_up (nb k : Z) : loc_up (new_location nb k) = 1 -> k <> 0.
Proof.
  unfold new_location, new_location_even, new_location_odd.
  destruct (Z.even nb); destruct (Z.eqb_spec k 0); simpl; congruence.
Qed.

Lemma float64_of_decimal_le_one (n : Z) (k : nat) :
  n <= 10 ^ Z.of_nat k ->
  float64_of_decimal n k = S754_zero false \/
  exists m e, float64_of_decimal n k = S754_finite false m e /\
              e <= 0 /\ Z.pos m <= 1 * 2 ^ (0 - e).
Proof.
  intros Hn. unfold float64_of_decimal.
  destruct n as [|p|p]; [left; reflexivity | | left; reflexivity].
  destruct (10 ^ Z.of_nat k) as [|q|q] eqn:Hq; [left; reflexivity | | left; reflexivity].
  unfold SFdiv, SFdiv_core_binary.
  set (e' := Z.min _ _).
  assert (He' : e' <= 0) by (unfold e'; lia).
  set (s := 0 - 0 - e').
  set (m' := match s with Z.pos _ => Z.shiftl (Z.pos p) s | 0 => Z.pos p | Z.neg _ => 0 end).
  assert (Hm' : m' = Z.pos p * 2 ^ s).
  { unfold m'. destruct s as [|t|t] eqn:Hs.
    - rewrite Z.pow_0_r. lia.
    - rewrite Z.shiftl_mul_pow2 by lia. reflexivity.
    - lia. }
  assert (Hps : 0 < 2 ^ s) by (apply Z.pow_pos_nonneg; lia).
  pose proof (Z_div_mod m' (Z.pos q) ltac:(lia)) as Hdm.
  destruct (Z.div_eucl m' (Z.pos q)) as [qq r]. destruct Hdm as [Hdiv Hr].
  simpl xorb.
  assert (Hqq : 0 <= qq) by nia.
  apply binary_round_aux_le; [lia | lia | exact Hqq | exact He' |].
  replace (0 - e') with s by lia. rewrite Z.mul_1_l.
  assert (Hle : Z.pos q * qq + r <= Z.pos q * 2 ^ s) by nia.
  destruct (new_location (Z.pos q) r) as [|c] eqn:Hl; simpl loc_up.
  - nia.
  - assert (r <> 0) by (apply (new_location_up (Z.pos q)); rewrite Hl; reflexivity).
    nia.
Qed.

Lemma int_of_float64_mul_hundred (f : spec_float) :
  (f = S754_zero false \/
   exists m e, f = S754_finite false m e /\ e <= 0 /\ Z.pos m <= 1 * 2 ^ (0 - e)) ->
  0 <= int_of_float64 (float64_mul f float64_hundred) <= 100.
Proof.
  intros [-> | (m & e & -> & He & Hm)]; [simpl; lia|].
  unfold float64_mul, float64_hundred, SFmul, prec64, emax64. simpl xorb.
  assert (Hp : 0 < 2 ^ (0 - e)) by (apply Z.pow_pos_nonneg; lia).
  destruct (binary_round_aux_le 25 2 (Z.pos (m * 25)) (e + 2) loc_Exact)
    as [-> | (m' & e' & -> & He' & Hm')]; try lia.
  - simpl loc_up. replace (2 - (e + 2)) with (0 - e) by lia. lia.
  - simpl. lia.
  - unfold int_of_float64.
    assert (Ha : 0 <= match e' with
                      | 0 => Z.pos m'
                      | Z.pos _ => Z.pos m' * 2 ^ e'
                      | Z.neg _ => Z.pos m' / 2 ^ (- e')
                      end <= 100).
    { destruct e' as [|t|t].
      - simpl in Hm'. lia.
      - assert (t = 1%positive \/ t = 2%positive) as [-> | ->] by lia.
        + change (2 ^ (2 - 1)) with 2 in Hm'. change (2 ^ 1) with 2. lia.
        + change (2 ^ (2 - 2)) with 1 in Hm'. change (2 ^ 2) with 4. lia.
      - assert (Hpt : 0 < 2 ^ (- Z.neg t)) by (apply Z.pow_pos_nonneg; lia).
        replace (2 - Z.neg t) with (2 + - Z.neg t) in Hm' by lia.
        rewrite Z.pow_add_r in Hm' by lia.
        split; [apply Z.div_pos; lia|].
        apply Z.div_le_upper_bound; [lia|]. nia. }
    set (a := match e' with 0 => _ | Z.pos _ => _ | Z.neg _ => _ end) in *.
    destruct (Z.leb_spec (- 2 ^ 63) a); destruct (Z.ltb_spec a (2 ^ 63)); simpl; lia.
Qed.

End Score.

(** ** The analysis parser *)
Section Analysis.
Import regexp analysis.

Lemma parseAnalysis_inv (rawText : string) :
  parseAnalysis rawText =
    match FindStringSubmatch scoreRegex (list_ascii_of_string rawText) with
    | None => (0, ""%string, Some (errorString "confidence score not found in raw text"))
    | Some digits =>
      match strconv.ParseFloat digits with
      | (_, Some err) =>
        (0, ""%string,
         Some (errorString ("failed to parse confidence score: " +:+ Error err)))
      | (f, None) =>
        match FindStringSubmatch narrativeRegex (list_ascii_of_string rawText) with
        | None => (0, ""%string, Some (errorString "justification text not found in raw text"))
        | Some narrative =>
          (int_of_float64 (float64_mul f float64_hundred),
           string_of_list_ascii narrative, None)
        end
      end
    end.
Proof. reflexivity. Qed.

Section Lit.
Context {A : Type}.
Implicit Types (k : list ascii -> option (list ascii) -> option A).

Lemma orelse_None (x : option A) : orelse x (fun _ => None) = x.
Proof. destruct x; reflexivity. Qed.

Lemma s_not_lead (x : ascii) :
  Ascii.eqb "s" x || is_upper_of "s" x = true -> Ascii.eqb (ascii_of_nat 197) x = false.
Proof.
  intros Hx. destruct (Ascii.eqb_spec (ascii_of_nat 197) x) as [<-|]; [|reflexivity].
  vm_compute in Hx. discriminate.
Qed.

Lemma exec_fold (c : ascii) (s : list ascii) cap k :
  exec (fold c) s cap k =
    match strip_fold c s with
    | Some s' => k s' cap
    | None => None
    end.
Proof.
  unfold fold, strip_fold.
  destruct (Ascii.eqb_spec c "s") as [->|Hc].
  - destruct s as [|x s']; [reflexivity|].
    cbn [exec fold_s chr orelse].
    destruct (Ascii.eqb "s" x || is_upper_of "s" x) eqn:Hx.
    + rewrite (s_not_lead x Hx). apply orelse_None.
    + cbn [orelse]. destruct (Ascii.eqb (ascii_of_nat 197) x);
        destruct s' as [|y s'']; cbn [andb]; try reflexivity.
      destruct (Ascii.eqb (ascii_of_nat 191) y); reflexivity.
  - destruct s as [|x s']; [reflexivity|]. cbn [exec].
    destruct (Ascii.eqb c x || is_upper_of c x); reflexivity.
Qed.

Lemma exec_lit (l : string) : forall (s : list ascii) cap k,
  exec (lit l) s cap k =
    match strip_label l s with
    | Some s' => k s' cap
    | None => None
    end.
Proof.
  induction l as [|c l IH]; intros s cap k; [reflexivity|].
  cbn [lit strip_label]. change (exec (Seq (fold c) (lit l)) s cap k)
    with (exec (fold c) s cap (fun s' cap' => exec (lit l) s' cap' k)).
  rewrite exec_fold. destruct (strip_fold c s); [apply IH | reflexivity].
Qed.

End Lit.

Lemma FindStringSubmatch_label (l : string) (r : regex) (s : list ascii) :
  occurs l s = false -> FindStringSubmatch (Seq (lit l) r) s = None.
Proof.
  induction s as [|x s IH]; simpl; unfold match_here;
    change (exec (Seq (lit l) r) ?s ?c ?k)
      with (exec (lit l) s c (fun s' cap' => exec r s' cap' k));
    rewrite exec_lit; destruct (strip_label l _); try discriminate; auto.
Qed.

Lemma parseAnalysis_no_match (rawText : string) :
  FindStringSubmatch scoreRegex (list_ascii_of_string rawText) = None \/
  FindStringSubmatch narrativeRegex (list_ascii_of_string rawText) = None ->
  exists err, parseAnalysis rawText = (0, ""%string, Some err).
Proof.
  intros Hmiss. rewrite parseAnalysis_inv.
  destruct (FindStringSubmatch scoreRegex _) as [digits|]; [|eauto].
  destruct (strconv.ParseFloat digits) as [f [err|]]; [eauto|].
  destruct Hmiss as [Hs|Hn]; [discriminate|]. rewrite Hn. eauto.
Qed.

(** C7 fails as stated: a confidence value of 5 is accepted and gives the
    score 500. *)
Lemma parseAnalysis_score_above_100 :
  parseAnalysis sample.confidenceFive = (500, "x"%string, None) /\
  ~ (0 <= 500 <= 100).
Proof. split; [vm_compute; reflexivity | lia]. Qed.

(** C7, as the code has it.  For every text that [parseAnalysis] accepts,
    the score is the binary64 nearest to the matched decimal number, times
    100 in binary64, with the fraction cut off.  The number is not checked
    against any range; the score is in [0..100] whenever the matched number
    is at most 1. *)
Theorem parseAnalysis_score (rawText : string) (score : Z) (narrative : string) :
  parseAnalysis rawText = (score, narrative, None) ->
  exists digits n k,
    FindStringSubmatch scoreRegex (list_ascii_of_string rawText) = Some digits /\
    strconv.parse_decimal digits = Some (n, k) /\
    score = int_of_float64
              (float64_mul (strconv.float64_of_decimal n k) float64_hundred) /\
    (n <= 10 ^ Z.of_nat k -> 0 <= score <= 100).
Proof.
  rewrite parseAnalysis_inv.
  destruct (FindStringSubmatch scoreRegex _) as [digits|]; [|discriminate].
  unfold strconv.ParseFloat.
  destruct (strconv.parse_decimal digits) as [[n k]|] eqn:Hp; [|discriminate].
  pose proof (float64_of_decimal_le_one n k) as Hone.
  pose proof (int_of_float64_mul_hundred (strconv.float64_of_decimal n k)) as Hint.
  destruct (strconv.float64_of_decimal n k) as [sg|sg| |sg m e] eqn:Hf;
    try discriminate;
    (destruct (FindStringSubmatch narrativeRegex _); [|discriminate]);
    intros [= <- _]; exists digits, n, k;
    (split; [reflexivity|]); (split; [exact Hp|]); (split; [rewrite Hf; reflexivity|]);
    intros Hle; exact (Hint (Hone Hle)).
Qed.

Lemma parseAnalysis_score_example :
  parseAnalysis sample.analysisText
    = (98, "The lighting and shadows appear natural."%string, None) /\
  strconv.parse_decimal (list_ascii_of_string "0.98") = Some (98, 2%nat) /\
  0 <= 98 <= 100.
Proof.
  assert (Hp : parseAnalysis sample.analysisText
               = (98, "The lighting and shadows appear natural."%string, None))
    by (vm_compute; reflexivity).
  destruct (parseAnalysis_score _ _ _ Hp) as (digits & n & k & Hd & Hn & _ & Hr).
  assert (Hd' : digits = list_ascii_of_string "0.98").
  { vm_compute in Hd. injection Hd as <-. reflexivity. }
  subst digits. vm_compute in Hn. injection Hn as <- <-.
  split; [exact Hp|]. split; [reflexivity|]. apply Hr. vm_compute. discriminate.
Defined.

End Analysis.

(** ** The pipeline *)
Section Pipeline.
Import faiss worker.
Context {I : Type} `{Index I}.

(** C2, as the code has it.  When exactly one of the two calls of the Analyze
    stage fails, [processImage] writes no Asset document, no certificate, no
    log leaf and no badge.  The index update hangs on the embedding alone:
    when the embedding call failed, [Search] and [Add] are not called and the
    index manager stays as it was; when it succeeded (and the analysis
    failed), [Search] and then [Add] are called with the embedding, and the
    index manager is the one that [Add] leaves. *)
Theorem processImage_commit_gating (w : World) (userID assetID : string) (st : State I) :
  one_failed w ->
  let st' := snd (processImage w userID assetID st) in
  assets st' = assets st /\
  certificates st' = certificates st /\
  leaves st' = leaves st /\
  badges st' = badges st /\
  (embeddingErr w <> None ->
   calls st' = calls st /\ globalIndexManager st' = globalIndexManager st) /\
  (fetched w -> embeddingErr w = None ->
   calls st' = calls st ++ [CallSearch (embeddingOf w) 5; CallAdd assetID (embeddingOf w)] /\
   globalIndexManager st'
     = fst (index.Add (globalIndexManager st) assetID (embeddingOf w))).
Proof.
  unfold one_failed, fetched, analysisErr, embeddingErr, embeddingOf, processImage.
  intros Hone.
  destruct (w_NewClient w) as [e1|]; [simpl; intuition congruence|].
  destruct (w_NewReader w) as [e2|]; [simpl; intuition congruence|].
  destruct (w_ReadAll w) as [imageData [e3|]]; [simpl; intuition congruence|].
  simpl fst in *.
  destruct (w_getAuthenticityAnalysis w imageData) as [analysisText aerr].
  destruct (w_getEmbedding w imageData) as [embedding eerr].
  simpl fst in *. simpl snd in *.
  destruct aerr as [aerr|], eerr as [eerr|];
    try (destruct Hone as [[? ?]|[? ?]]; congruence).
  - (* the analysis failed, the embedding is there *)
    unfold bind, Search, Add, ret. cbn.
    destruct (index.Add (globalIndexManager st) assetID embedding) as [m' addErr].
    cbn. rewrite <- app_assoc. intuition congruence.
  - (* the embedding failed, the analysis is there *)
    destruct (analysis.parseAnalysis analysisText) as [[score narrative] [parseErr|]];
      unfold bind, ret; simpl; intuition congruence.
Qed.

End Pipeline.

Section PipelineExamples.
Import faiss flat worker.

(** C2 fails as stated: in a run where the analysis call fails and the
    embedding call succeeds, [Search] and [Add] are called on the index
    manager and the index takes the vector, although no Asset document is
    written. *)
Lemma processImage_index_updated_without_asset :
  one_failed sample.world_analysis_fails /\
  calls (snd (processImage sample.world_analysis_fails "user-456" "asset-9" sample.initial))
    = [CallSearch (sample.vec sample.one) 5; CallAdd "asset-9" (sample.vec sample.one)] /\
  index.idMap_lookup
    (index.idMap (globalIndexManager
       (snd (processImage sample.world_analysis_fails "user-456" "asset-9" sample.initial)))) 0
    = Some "asset-9"%string /\
  assets (snd (processImage sample.world_analysis_fails "user-456" "asset-9" sample.initial))
    = ∅.
Proof.
  split; [right; split; [discriminate | reflexivity]|].
  split; [vm_compute; reflexivity|]. split; vm_compute; reflexivity.
Qed.

Lemma processImage_commit_gating_example :
  let st' := snd (processImage sample.world_embedding_fails "user-456" "asset-9"
                    sample.initial) in
  assets st' = ∅ /\ certificates st' = ∅ /\ leaves st' = [] /\ badges st' = ∅ /\
  calls st' = [] /\ globalIndexManager st' = sample.installed.
Proof.
  assert (Hone : one_failed sample.world_embedding_fails)
    by (left; split; [reflexivity | discriminate]).
  destruct (processImage_commit_gating sample.world_embedding_fails "user-456" "asset-9"
              sample.initial Hone) as (Ha & Hc & Hl & Hb & He & _).
  destruct (He ltac:(discriminate)) as [Hcalls Hm].
  repeat split; assumption.
Defined.

(** When both calls succeed the asset is stored, with its certificate, its
    log leaf, the leaf index and its badge. *)
Example processImage_commits :
  let st' := snd (processImage sample.world_ok "user-456" "asset-9" sample.initial) in
  (OriginalityScore <$> assets st' !! "asset-9"%string) = Some 98 /\
  (TrillianLeafIndex <$> assets st' !! "asset-9"%string) = Some 7 /\
  certificates st' !! "certificates/asset-9.json"%string = Some [x7b; x7d] /\
  badges st' !! "badges/asset-9.png"%string = Some [x89] /\
  length (leaves st') = 1%nat /\
  length (calls st') = 2%nat.
Proof. vm_compute. repeat split; reflexivity. Qed.

End PipelineExamples.

(** ** The model against the repository's tests and known values *)
Section Checks.
Import certificate.

(** FIPS 180-4, the one-block and the two-block message. *)
Example Sum256_abc :
  hex (sha256.Sum256 (bytes_of_string "abc"))
    = "ba7816bf8f01cfea414140de5dae2223b00361a396177a9cb410ff61f20015ad"%string.
Proof. vm_compute. reflexivity. Qed.

Example Sum256_two_blocks :
  hex (sha256.Sum256
         (bytes_of_string "abcdbcdecdefdefgefghfghighijhijkijkljklmklmnlmnomnopnopq"))
    = "248d6a61d20638b8e5c026930c3e6039a33ce45964ff2167f6ecedd419db06c1"%string.
Proof. vm_compute. reflexivity. Qed.

Example FormatRFC3339_utc :
  time.FormatRFC3339 {| time.unixSec := 1705314600; time.nsec := 0; time.offset := 0 |}
    = "2024-01-15T10:30:00Z"%string.
Proof. vm_compute. reflexivity. Qed.

Example FormatRFC3339_offset :
  time.FormatRFC3339 {| time.unixSec := 1705314600; time.nsec := 7; time.offset := 19800 |}
    = "2024-01-15T16:00:00+05:30"%string.
Proof. vm_compute. reflexivity. Qed.

Example FormatRFC3339_leap_day :
  time.FormatRFC3339 {| time.unixSec := 951868799; time.nsec := 0; time.offset := 0 |}
    = "2000-02-29T23:59:59Z"%string.
Proof. vm_compute. reflexivity. Qed.

(** [TestGenerate] *)
Example TestGenerate :
  exists credential,
    Generate (Some sample.testAsset) sample.noon = (Some credential, None) /\
    Context credential = ["https://www.w3.org/2018/credentials/v1"; "https://schema.org"]%string /\
    Issuer credential = "https://proofpix.com"%string /\
    proof_Type (proof credential) = "DataIntegrityProof"%string /\
    ProofPurpose (proof credential) = "assertionMethod"%string /\
    subject_ID (credentialSubject credential) = "urn:proofpix:asset:test-asset-123"%string /\
    Creator (credentialSubject credential) = "user-456"%string /\
    RatingValue (subject_AuthenticityRating (credentialSubject credential)) = 8 /\
    AuthenticityNarrative (credentialSubject credential)
      = "High confidence in image authenticity"%string /\
    ProofValue (proof credential) <> ""%string /\
    IssuanceDate credential = "2024-01-15T12:00:00Z"%string.
Proof. eexists. split; [reflexivity|]. vm_compute. repeat split; discriminate. Qed.

(** [TestGenerateNilAsset] *)
Example TestGenerateNilAsset :
  exists err, Generate None sample.noon = (None, Some err).
Proof. eexists. reflexivity. Qed.

(** [TestGenerateWithFallbackNarrative] *)
Example TestGenerateWithFallbackNarrative (asset : models.Asset) (now : time.Time) :
  models.Narrative asset = ""%string ->
  exists credential,
    Generate (Some asset) now = (Some credential, None) /\
    AuthenticityNarrative (credentialSubject credential) = models.RawAnalysis asset.
Proof.
  intros Hn. eexists. split; [reflexivity|]. simpl. rewrite Hn. reflexivity.
Qed.

(** The nearest binary64 to 0.1, and products that fall below the integer. *)
Example ParseFloat_tenth :
  strconv.ParseFloat (list_ascii_of_string "0.1")
    = (S754_finite false 7205759403792794 (-56), None).
Proof. vm_compute. reflexivity. Qed.

Example score_of_0_29 :
  analysis.parseAnalysis ("Confidence Score: 0.29" +:+ nl +:+ nl +:+ "Justification: x")
    = (28, "x"%string, None).
Proof. vm_compute. reflexivity. Qed.

(** A greedy [\s*] gives back what the lazy group needs. *)
Example narrative_backtracks :
  analysis.parseAnalysis
    ("confidence score: 1 JUSTIFICATION: " +:+ nl +:+ nl +:+ "a" +:+ nl +:+ "b")
    = (100, " "%string, None).
Proof. vm_compute. reflexivity. Qed.

(** The flat index ranks by distance, the earlier vector first on a tie, and
    pads with label -1. *)
Example flat_Search_ranks :
  flat.flat_Search
    (fst (flat.flat_Add (flat.NewIndexFlatL2 2)
            [sample.two; sample.two; sample.one; sample.two; 0; 0]))
    [sample.one; sample.one] 4
    = ([sample.one; sample.two; sample.two; flat.FLT_MAX], [1; 0; 2; -1], None).
Proof. vm_compute. reflexivity. Qed.

End Checks.

(** ** What the two patterns let through *)
Section AnalysisShape.
Import regexp matching analysis strconv.

Section Sound.
Context {A : Type}.

Lemma exec_sound (r : regex) :
  forall (s : list ascii) (cap : option (list ascii))
         (k : list ascii -> option (list ascii) -> option A) (a : A),
    exec r s cap k = Some a ->
    exists s' cap', matches r s cap s' cap' /\ k s' cap' = Some a.
Proof.
  induction r as [|p|r1 IH1 r2 IH2|r1 IH1 r2 IH2|g r IH|r IH|]; intros s cap k a Hex.
  - exists s, cap. split; [constructor | exact Hex].
  - cbn [exec] in Hex. destruct s as [|c s]; [discriminate|].
    destruct (p c) eqn:Hp; [|discriminate].
    exists s, cap. split; [constructor; exact Hp | exact Hex].
  - cbn [exec] in Hex.
    destruct (IH1 _ _ _ _ Hex) as (s1 & cap1 & Hm1 & Hk1).
    destruct (IH2 _ _ _ _ Hk1) as (s2 & cap2 & Hm2 & Hk2).
    exists s2, cap2. split; [econstructor; eassumption | exact Hk2].
  - cbn [exec] in Hex. unfold orelse in Hex.
    destruct (exec r1 s cap k) as [a1|] eqn:H1.
    + injection Hex as <-. destruct (IH1 _ _ _ _ H1) as (s' & cap' & Hm & Hk).
      exists s', cap'. split; [apply matches_AltL; exact Hm | exact Hk].
    + destruct (IH2 _ _ _ _ Hex) as (s' & cap' & Hm & Hk).
      exists s', cap'. split; [apply matches_AltR; exact Hm | exact Hk].
  - cbn [exec] in Hex.
    match type of Hex with
    | ?L (length s) s cap = _ => set (loop := L) in Hex
    end.
    revert Hex. generalize (length s). intros fuel. revert s cap a.
    induction fuel as [|fuel IHf]; intros s cap a Hex.
    + exists s, cap. split; [constructor | exact Hex].
    + change (loop (S fuel) s cap)
        with (if g
              then orelse (exec r s cap (fun s' cap' =>
                             if (length s' <? length s)%nat then loop fuel s' cap' else None))
                          (fun _ => k s cap)
              else orelse (k s cap)
                          (fun _ => exec r s cap (fun s' cap' =>
                             if (length s' <? length s)%nat then loop fuel s' cap' else None)))
        in Hex.
      assert (Hstep : forall a',
                exec r s cap (fun s' cap' =>
                  if (length s' <? length s)%nat then loop fuel s' cap' else None) = Some a' ->
                exists s' cap', matches (Star g r) s cap s' cap' /\ k s' cap' = Some a').
      { intros a' Hagain. destruct (IH _ _ _ _ Hagain) as (s1 & cap1 & Hm1 & Hk1).
        destruct (Nat.ltb_spec (length s1) (length s)) as [Hlt|]; [|discriminate].
        destruct (IHf _ _ _ Hk1) as (s2 & cap2 & Hm2 & Hk2).
        exists s2, cap2. split; [eapply matches_StarStep; eassumption | exact Hk2]. }
      unfold orelse in Hex. destruct g.
      * match type of Hex with
        | match ?e with _ => _ end = _ => destruct e as [a1|] eqn:H1
        end.
        -- injection Hex as <-. apply Hstep. reflexivity.
        -- exists s, cap. split; [constructor | exact Hex].
      * destruct (k s cap) as [a1|] eqn:Hk.
        -- injection Hex as <-. exists s, cap. split; [constructor | exact Hk].
        -- apply Hstep. exact Hex.
  - cbn [exec] in Hex. destruct (IH _ _ _ _ Hex) as (s' & cap' & Hm & Hk).
    exists s', (Some (take (length s - length s') s)).
    split; [eapply matches_Group; exact Hm | exact Hk].
  - cbn [exec] in Hex. destruct s; [|discriminate].
    exists [], cap. split; [constructor | exact Hex].
Qed.

End Sound.

Lemma matches_suffix r s cap s' cap' :
  matches r s cap s' cap' -> exists pre, s = pre ++ s'.
Proof.
  induction 1.
  - exists []. reflexivity.
  - exists [c]. reflexivity.
  - destruct IHmatches1 as [p1 ->], IHmatches2 as [p2 ->]. exists (p1 ++ p2).
    now rewrite <- app_assoc.
  - assumption.
  - assumption.
  - exists []. reflexivity.
  - destruct IHmatches1 as [p1 ->], IHmatches2 as [p2 ->]. exists (p1 ++ p2).
    now rewrite <- app_assoc.
  - assumption.
  - exists []. reflexivity.
Qed.

Lemma matches_group_free r s cap s' cap' :
  matches r s cap s' cap' -> group_free r = true -> cap' = cap.
Proof.
  induction 1; cbn [group_free]; intros Hg; try reflexivity;
    try (apply andb_true_iff in Hg as [Hg1 Hg2]).
  - rewrite IHmatches2, IHmatches1 by assumption. reflexivity.
  - auto.
  - auto.
  - rewrite IHmatches2, IHmatches1 by assumption. reflexivity.
  - discriminate.
Qed.

Lemma matches_Star_Class g (p : ascii -> bool) s cap s' cap' :
  matches (Star g (Class p)) s cap s' cap' ->
  cap' = cap /\ exists pre, s = pre ++ s' /\ Forall (fun c => p c = true) pre.
Proof.
  remember (Star g (Class p)) as r eqn:Hr. induction 1; try discriminate.
  - split; [reflexivity|]. exists []. split; [reflexivity | constructor].
  - injection Hr as -> ->. inversion H; subst.
    destruct (IHmatches2 eq_refl) as (-> & pre & -> & Hpre).
    split; [reflexivity|]. exists (c :: pre). split; [reflexivity|].
    constructor; assumption.
Qed.


Lemma FindStringSubmatch_inv (r : regex) (s g : list ascii) :
  FindStringSubmatch r s = Some g ->
  exists pre t, s = pre ++ t /\ match_here r t = Some g.
Proof.
  induction s as [|x s IH]; cbn [FindStringSubmatch].
  - destruct (match_here r []) eqn:E; [|discriminate].
    intros [= ->]. exists [], []. auto.
  - destruct (match_here r (x :: s)) eqn:E.
    + intros [= ->]. exists [], (x :: s). auto.
    + intros Hf. destruct (IH Hf) as (pre & t & -> & Hm).
      exists (x :: pre), t. auto.
Qed.

Lemma strip_fold_suffix (c : ascii) (s s' : list ascii) :
  strip_fold c s = Some s' -> exists lbl, s = lbl ++ s'.
Proof.
  unfold strip_fold. destruct s as [|x s]; [discriminate|].
  destruct (Ascii.eqb c x || is_upper_of c x).
  - intros [= <-]. exists [x]. reflexivity.
  - destruct (Ascii.eqb c "s"); [|discriminate].
    destruct s as [|y s]; [discriminate|].
    destruct (_ && _); [|discriminate].
    intros [= <-]. exists [x; y]. reflexivity.
Qed.

Lemma strip_label_suffix (l : string) : forall (s s' : list ascii),
  strip_label l s = Some s' -> exists lbl, s = lbl ++ s'.
Proof.
  induction l as [|c l IH]; intros s s'; cbn [strip_label].
  - intros [= <-]. exists []. reflexivity.
  - destruct (strip_fold c s) as [s1|] eqn:E; [|discriminate].
    intros Hl. destruct (strip_fold_suffix _ _ _ E) as [l1 ->].
    destruct (IH _ _ Hl) as [l2 ->]. exists (l1 ++ l2). now rewrite <- app_assoc.
Qed.

Lemma group_free_lit (l : string) : group_free (lit l) = true.
Proof.
  induction l as [|c l IH]; [reflexivity|].
  cbn [lit group_free]. rewrite IH, andb_true_r.
  unfold fold. destruct (Ascii.eqb c "s"); reflexivity.
Qed.

Lemma matches_Group_inv (r : regex) s cap s' cap' :
  matches (Group r) s cap s' cap' ->
  exists pre cap1, s = pre ++ s' /\ cap' = Some pre /\ matches r s cap s' cap1.
Proof.
  inversion 1; subst.
  destruct (matches_suffix _ _ _ _ _ H1) as [pre ->].
  exists pre, cap'0. split; [reflexivity|]. split; [|assumption].
  f_equal. rewrite length_app.
  replace (length pre + length s' - length s')%nat with (length pre) by lia.
  apply take_app_length.
Qed.

Lemma matches_Plus_Class g (p : ascii -> bool) s cap s' cap' :
  matches (Plus g (Class p)) s cap s' cap' ->
  cap' = cap /\ exists c pre, s = c :: pre ++ s' /\ p c = true /\
                              Forall (fun c => p c = true) pre.
Proof.
  unfold Plus. inversion 1; subst.
  match goal with Hc : matches (Class p) _ _ _ _ |- _ => inversion Hc; subst end.
  match goal with Hs : matches (Star _ _) _ _ _ _ |- _ =>
    destruct (matches_Star_Class _ _ _ _ _ _ Hs) as (-> & pre & -> & Hpre) end.
  split; [reflexivity|]. eauto.
Qed.

Lemma read_digits_app (ds : list ascii) :
  Forall (fun c => is_digit c = true) ds ->
  forall (acc : Z) (rest : list ascii),
    match rest with c :: _ => is_digit c = false | [] => True end ->
    exists v, read_digits acc (ds ++ rest) = (v, length ds, rest).
Proof.
  induction 1 as [|c ds Hc _ IH]; intros acc rest Hrest.
  - exists acc. destruct rest as [|c rest]; [reflexivity|].
    cbn [app read_digits]. rewrite Hrest. reflexivity.
  - destruct (IH (10 * acc + digit_value c) rest Hrest) as [v Hv].
    exists v. cbn [app read_digits]. rewrite Hc, Hv. reflexivity.
Qed.

Lemma parse_decimal_text (s : list ascii) :
  decimal_text s -> exists n k, parse_decimal s = Some (n, k).
Proof.
  destruct 1 as [d d1 d2 H1 Hd H2|d d1 d2 H1 Hd H2]; unfold parse_decimal.
  - assert (Hall : Forall (fun c => is_digit c = true) (d1 ++ d :: d2)).
    { apply Forall_app. split; [assumption|]. constructor; assumption. }
    destruct (read_digits_app _ Hall 0 [] I) as [v Hv].
    rewrite app_nil_r in Hv. rewrite Hv.
    rewrite length_app. cbn [length].
    replace (length d1 + S (length d2) + 0 =? 0)%nat with false
      by (symmetry; apply Nat.eqb_neq; lia).
    eauto.
  - destruct (read_digits_app _ H1 0 ("."%char :: d :: d2) eq_refl) as [ip Hip].
    rewrite Hip. cbn [Ascii.eqb Bool.eqb]. 
    assert (Hall : Forall (fun c => is_digit c = true) (d :: d2)) by (constructor; assumption).
    destruct (read_digits_app _ Hall ip [] I) as [v Hv].
    rewrite app_nil_r in Hv.
    change (Ascii.eqb "." ".") with true. cbv iota. rewrite Hv. cbn [length].
    replace (length d1 + S (length d2) =? 0)%nat with false
      by (symmetry; apply Nat.eqb_neq; lia).
    eauto.
Qed.

Lemma scoreRegex_decimal (s digits : list ascii) :
  FindStringSubmatch scoreRegex s = Some digits -> decimal_text digits.
Proof.
  intros Hf. destruct (FindStringSubmatch_inv _ _ _ Hf) as (pre & t & -> & Hm).
  clear Hf. unfold match_here, scoreRegex in Hm.
  change (exec (Seq (lit "confidence") ?r) ?s ?c ?k)
    with (exec (lit "confidence") s c (fun s' cap' => exec r s' cap' k)) in Hm.
  rewrite exec_lit in Hm.
  destruct (strip_label "confidence" t) as [t1|]; [|discriminate].
  apply exec_sound in Hm. destruct Hm as (s' & cap' & Hm & Hg).
  injection Hg as <-.
  inversion Hm as [| |r1 r2 s0 c0 s1 c1 s2 c2 Hsp Hrest| | | | | |]; subst.
  apply matches_group_free in Hsp; [|reflexivity]. subst c1.
  inversion Hrest as [| |r1 r2 s0 c0 s2 c2 s3 c3 Hlit Hrest2| | | | | |]; subst.
  apply matches_group_free in Hlit; [|exact (group_free_lit "score:")]. subst c2.
  inversion Hrest2 as [| |r1 r2 s0 c0 s3 c3 s4 c4 Hsp2 Hgrp| | | | | |]; subst.
  apply matches_group_free in Hsp2; [|reflexivity]. subst c3.
  apply matches_Group_inv in Hgrp.
  destruct Hgrp as (g & cap1 & -> & -> & Hin). cbn [default].
  inversion Hin as [| |r1 r2 s0 c0 s4 c4 s5 c5 Hd1 Hin2| | | | | |]; subst.
  apply matches_Star_Class in Hd1. destruct Hd1 as (-> & d1 & Hs3 & Hd1).
  inversion Hin2 as [| |r1 r2 s0 c0 s5 c5 s6 c6 Hq Hd2| | | | | |]; subst.
  apply matches_Plus_Class in Hd2. destruct Hd2 as (-> & d & d2 & -> & Hd & Hd2).
  assert (Hq' : s4 = "."%char :: d :: d2 ++ s' \/ s4 = d :: d2 ++ s').
  { unfold Quest, chr in Hq. inversion Hq as [| | |r1 r2 s0 c0 s7 c7 Hc|r1 r2 s0 c0 s7 c7 He| | | |]; subst.
    - inversion Hc as [|p c s0 c0 Hp| | | | | | |]; subst.
      apply Ascii.eqb_eq in Hp. subst c. left. reflexivity.
    - inversion He; subst. right. reflexivity. }
  destruct Hq' as [-> | ->].
  - assert (g = d1 ++ "."%char :: d :: d2).
    { apply (app_inv_tail s'). rewrite Hs3, <- app_assoc. reflexivity. }
    subst g. constructor; assumption.
  - assert (g = d1 ++ d :: d2).
    { apply (app_inv_tail s'). rewrite Hs3, <- app_assoc. reflexivity. }
    subst g. constructor; assumption.
Qed.

Lemma narrativeRegex_shape (s narr : list ascii) :
  FindStringSubmatch narrativeRegex s = Some narr ->
  exists pre lbl sp after,
    s = pre ++ lbl ++ sp ++ narr ++ after /\
    strip_label "justification:" (lbl ++ sp ++ narr ++ after)
      = Some (sp ++ narr ++ after) /\
    Forall (fun c => is_space c = true) sp /\
    narr <> [] /\
    Forall (fun c => not_newline c = true) narr /\
    (after = [] \/ exists rest, after = LF :: LF :: rest).
Proof.
  intros Hf. destruct (FindStringSubmatch_inv _ _ _ Hf) as (pre & t & -> & Hm).
  clear Hf. unfold match_here, narrativeRegex in Hm.
  change (exec (Seq (lit "justification:") ?r) ?s ?c ?k)
    with (exec (lit "justification:") s c (fun s' cap' => exec r s' cap' k)) in Hm.
  rewrite exec_lit in Hm.
  destruct (strip_label "justification:" t) as [t1|] eqn:Hlbl; [|discriminate].
  destruct (strip_label_suffix _ _ _ Hlbl) as [lbl ->].
  apply exec_sound in Hm. destruct Hm as (s' & cap' & Hm & Hg).
  injection Hg as <-.
  inversion Hm as [| |r1 r2 s0 c0 s1 c1 s2 c2 Hsp Hrest| | | | | |]; subst.
  apply matches_Star_Class in Hsp. destruct Hsp as (-> & sp & -> & Hsp).
  inversion Hrest as [| |r1 r2 s0 c0 s2 c2 s3 c3 Hgrp Hend| | | | | |]; subst.
  apply matches_Group_inv in Hgrp.
  destruct Hgrp as (g & cap1 & -> & -> & Hin).
  pose proof (matches_group_free _ _ _ _ _ Hend eq_refl) as ->. cbn [default].
  apply matches_Plus_Class in Hin. destruct Hin as (_ & c & cs & Hg & Hc & Hcs).
  assert (g = c :: cs).
  { apply (app_inv_tail s2). rewrite Hg. reflexivity. }
  subst g.
  exists pre, lbl, sp, s2. split; [reflexivity|]. split; [exact Hlbl|].
  split; [exact Hsp|]. split; [discriminate|]. split; [constructor; assumption|].
  inversion Hend as [| | |r1 r2 s0 c0 s7 c7 Hnn|r1 r2 s0 c0 s7 c7 Hz| | | |]; subst.
  - right. unfold newline, chr in Hnn.
    inversion Hnn as [| |r1 r2 s0 c0 s4 c4 s5 c5 Hn1 Hn2| | | | | |]; subst.
    inversion Hn1 as [|p x s0 c0 Hp1| | | | | | |]; subst.
    inversion Hn2 as [|p x' s0 c0 Hp2| | | | | | |]; subst.
    apply Ascii.eqb_eq in Hp1, Hp2. subst x x'. exists s'. reflexivity.
  - left. inversion Hz; subst. reflexivity.
Qed.

Lemma list_ascii_of_string_of_list (l : list ascii) :
  list_ascii_of_string (string_of_list_ascii l) = l.
Proof. induction l as [|c l IH]; [reflexivity|]. cbn. rewrite IH. reflexivity. Qed.

Lemma parseAnalysis_narrative_nonempty (rawText : string) (score : Z) (narrative : string) :
  parseAnalysis rawText = (score, narrative, None) -> narrative <> ""%string.
Proof.
  rewrite parseAnalysis_inv.
  destruct (FindStringSubmatch scoreRegex _) as [digits|]; [|discriminate].
  destruct (ParseFloat digits) as [f [e|]]; [discriminate|].
  destruct (FindStringSubmatch narrativeRegex _) as [narr|] eqn:Hn; [|discriminate].
  intros [= _ <-].
  destruct (narrativeRegex_shape _ _ Hn) as (_ & _ & _ & _ & _ & _ & _ & Hne & _).
  destruct narr; [contradiction | discriminate].
Qed.

(** The three ways in which [parseAnalysis] fails.  The text that the score
    pattern captures is always a decimal number that [ParseFloat] can read,
    so the conversion fails only when the number is too large for a
    [float64]: a syntax error cannot come out of it.  The message then is
    that of the [*NumError], with the number between double quotes. *)
Theorem parseAnalysis_errors (rawText : string) (score : Z) (narrative : string)
    (err : error) :
  parseAnalysis rawText = (score, narrative, Some err) ->
  (FindStringSubmatch scoreRegex (list_ascii_of_string rawText) = None /\
   err = errorString "confidence score not found in raw text") \/
  (exists digits n k sg,
     FindStringSubmatch scoreRegex (list_ascii_of_string rawText) = Some digits /\
     decimal_text digits /\
     parse_decimal digits = Some (n, k) /\
     float64_of_decimal n k = S754_infinity sg /\
     ParseFloat digits
       = (S754_infinity sg,
          Some (NumError "ParseFloat" (string_of_list_ascii digits) ErrRange)) /\
     err = errorString
             ("failed to parse confidence score: strconv.ParseFloat: parsing "
                +:+ dquote +:+ string_of_list_ascii digits +:+ dquote
                +:+ ": value out of range")) \/
  (exists digits f,
     FindStringSubmatch scoreRegex (list_ascii_of_string rawText) = Some digits /\
     ParseFloat digits = (f, None) /\
     FindStringSubmatch narrativeRegex (list_ascii_of_string rawText) = None /\
     err = errorString "justification text not found in raw text").
Proof.
  intros H. rewrite parseAnalysis_inv in H.
  destruct (FindStringSubmatch scoreRegex _) as [digits|] eqn:Hs;
    [|injection H as _ _ <-; left; auto].
  right. pose proof (scoreRegex_decimal _ _ Hs) as Hdec.
  destruct (parse_decimal_text _ Hdec) as (n & k & Hp).
  unfold ParseFloat in *. rewrite Hp in *.
  destruct (float64_of_decimal n k) as [sg|sg| |sg m e] eqn:Hf.
  - destruct (FindStringSubmatch narrativeRegex _) eqn:Hn; [discriminate|].
    injection H as _ _ <-. right. exists digits, (S754_zero sg).
    rewrite Hp, Hf. auto.
  - injection H as _ _ <-. left. exists digits, n, k, sg. rewrite Hp, Hf.
    repeat split; assumption || reflexivity.
  - destruct (FindStringSubmatch narrativeRegex _) eqn:Hn; [discriminate|].
    injection H as _ _ <-. right. exists digits, S754_nan.
    rewrite Hp, Hf. auto.
  - destruct (FindStringSubmatch narrativeRegex _) eqn:Hn; [discriminate|].
    injection H as _ _ <-. right. exists digits, (S754_finite sg m e).
    rewrite Hp, Hf. auto.
Qed.

Lemma parseAnalysis_errors_example :
  (FindStringSubmatch scoreRegex (list_ascii_of_string scenario.hugeConfidence) = None /\
   scenario.hugeConfidence_error = errorString "confidence score not found in raw text") \/
  (exists digits n k sg,
     FindStringSubmatch scoreRegex (list_ascii_of_string scenario.hugeConfidence)
       = Some digits /\
     decimal_text digits /\
     parse_decimal digits = Some (n, k) /\
     float64_of_decimal n k = S754_infinity sg /\
     ParseFloat digits
       = (S754_infinity sg,
          Some (NumError "ParseFloat" (string_of_list_ascii digits) ErrRange)) /\
     scenario.hugeConfidence_error
       = errorString
           ("failed to parse confidence score: strconv.ParseFloat: parsing "
              +:+ dquote +:+ string_of_list_ascii digits +:+ dquote
              +:+ ": value out of range")) \/
  (exists digits f,
     FindStringSubmatch scoreRegex (list_ascii_of_string scenario.hugeConfidence)
       = Some digits /\
     ParseFloat digits = (f, None) /\
     FindStringSubmatch narrativeRegex (list_ascii_of_string scenario.hugeConfidence)
       = None /\
     scenario.hugeConfidence_error = errorString "justification text not found in raw text").
Proof.
  apply (parseAnalysis_errors scenario.hugeConfidence 0 "").
  vm_compute. reflexivity.
Defined.

Section Complete.
Context {A : Type}.
Implicit Types (k : list ascii -> option (list ascii) -> option A).

Lemma exec_Star (g : bool) (r : regex) s cap k :
  exec (Star g r) s cap k = star_loop g r k (length s) s cap.
Proof. reflexivity. Qed.

(** The matcher finds a match whenever there is one: if some match of [r]
    lets the continuation succeed, [exec] succeeds (with that match or with
    one that it tries earlier). *)
Lemma exec_complete (r : regex) :
  forall (s : list ascii) (cap : option (list ascii)) (s' : list ascii)
         (cap' : option (list ascii)),
    matches r s cap s' cap' ->
    forall k (a : A), k s' cap' = Some a -> exists a', exec r s cap k = Some a'.
Proof.
  induction r as [|p|r1 IH1 r2 IH2|r1 IH1 r2 IH2|g r IH|r IH|]; intros s cap s' cap' Hm k a Hk.
  - inversion Hm; subst. exists a. exact Hk.
  - inversion Hm as [|p' c s0 c0 Hp| | | | | | |]; subst. exists a. cbn [exec]. rewrite Hp. exact Hk.
  - inversion Hm as [| |r1' r2' s0 c0 s1 c1 s2 c2 Hm1 Hm2| | | | | |]; subst.
    destruct (IH2 _ _ _ _ Hm2 k a Hk) as [a2 H2].
    exact (IH1 _ _ _ _ Hm1 (fun s' cap' => exec r2 s' cap' k) a2 H2).
  - cbn [exec]. unfold orelse.
    inversion Hm as [| | |r1' r2' s0 c0 s1 c1 Hm1|r1' r2' s0 c0 s1 c1 Hm2| | | |]; subst.
    + destruct (IH1 _ _ _ _ Hm1 k a Hk) as [a1 ->]. eauto.
    + destruct (exec r1 s cap k); [eauto|]. exact (IH2 _ _ _ _ Hm2 k a Hk).
  - rewrite exec_Star.
    assert (Hloop : forall fuel, (length s <= fuel)%nat ->
                      exists a', star_loop g r k fuel s cap = Some a');
      [|apply Hloop; lia].
    remember (Star g r) as R eqn:HR.
    induction Hm as [| | | | |g' r' s cap|g' r' s cap s1 cap1 s2 cap2 Hm1 _ Hlt Hm2 IHm2| |];
      try discriminate; injection HR as -> ->; intros fuel Hfuel.
    + destruct fuel as [|fuel]; cbn [star_loop]; [eauto|].
      unfold orelse. destruct g.
      * match goal with |- exists _, match ?e with _ => _ end = _ => destruct e end; eauto.
      * rewrite Hk. eauto.
    + destruct fuel as [|fuel]; [lia|]. cbn [star_loop].
      destruct (IHm2 eq_refl Hk fuel ltac:(lia)) as [a2 H2].
      destruct (IH _ _ _ _ Hm1
                  (fun s' cap' => if (length s' <? length s)%nat
                                  then star_loop g r k fuel s' cap' else None) a2) as [a1 H1].
      { replace (length s1 <? length s)%nat with true by (symmetry; apply Nat.ltb_lt; exact Hlt).
        exact H2. }
      unfold orelse. rewrite H1. destruct g; [eauto|]. destruct (k s cap); eauto.
  - inversion Hm as [| | | | | | |r' s0 c0 s1 c1 Hm1|]; subst.
    cbn [exec]. exact (IH _ _ _ _ Hm1 (fun s'' _ => k s'' (Some (take (length s - length s'') s))) a Hk).
  - inversion Hm; subst. exists a. exact Hk.
Qed.

End Complete.

(** [FindStringSubmatch] returns nil exactly when the pattern matches at no
    place of the text. *)
Lemma FindStringSubmatch_None (r : regex) (s : list ascii) :
  FindStringSubmatch r s = None <->
  (forall pre t rest cap, s = pre ++ t -> ~ matches r t None rest cap).
Proof.
  split.
  - intros Hf pre. revert s Hf. induction pre as [|x pre IH]; intros s Hf t rest cap -> Hm.
    + cbn [app] in Hf.
      destruct (exec_complete r _ _ _ _ Hm (fun _ cap => Some (default [] cap)) _ eq_refl)
        as [g Hg].
      assert (Hh : match_here r t = Some g) by exact Hg.
      destruct t; cbn [FindStringSubmatch] in Hf; rewrite Hh in Hf; discriminate.
    + cbn [app FindStringSubmatch] in Hf.
      destruct (match_here r (x :: pre ++ t)); [discriminate|].
      exact (IH _ Hf t rest cap eq_refl Hm).
  - intros Hno. destruct (FindStringSubmatch r s) as [g|] eqn:Hf; [|reflexivity].
    destruct (FindStringSubmatch_inv _ _ _ Hf) as (pre & t & -> & Hm).
    unfold match_here in Hm. apply exec_sound in Hm. destruct Hm as (s' & cap' & Hm & _).
    exfalso. exact (Hno pre t s' cap' eq_refl Hm).
Qed.

(** C6 fails as stated: the text has the word [confidence] on its first
    line and [score: 0.5] on its third, so no line of it is a
    confidence-score line, and [parseAnalysis] accepts it: the white space of
    the pattern runs over line breaks. *)
Lemma parseAnalysis_label_across_lines :
  lines (list_ascii_of_string sample.splitLabel)
    = map list_ascii_of_string ["confidence"; ""; "score: 0.5"; ""; "Justification: x"]%string /\
  Forall (fun line => occurs "confidence" line && occurs "score:" line = false)
         (lines (list_ascii_of_string sample.splitLabel)) /\
  parseAnalysis sample.splitLabel = (50, "x"%string, None).
Proof.
  split; [vm_compute; reflexivity|]. split; [|vm_compute; reflexivity].
  repeat constructor.
Qed.

(** C6, as the code has it.  Parse contract: the sample answer parses to
    score 98 and the narrative of its justification line, without error; a
    text in which the pattern of the confidence score or the pattern of the
    justification matches at no place yields a parse error with score 0 and
    empty narrative, in particular a text in which the word [confidence] or
    the label [justification:] does not occur in any letter case; score 0
    and empty narrative come with every error of [parseAnalysis]; and a text
    is accepted only if both patterns match at some place.  The patterns are
    not tied to lines: their white space runs over line breaks. *)
Theorem parseAnalysis_contract :
  parseAnalysis sample.analysisText
    = (98, "The lighting and shadows appear natural."%string, None) /\
  (forall rawText,
     (forall pre t rest cap,
        list_ascii_of_string rawText = pre ++ t -> ~ matches scoreRegex t None rest cap) \/
     (forall pre t rest cap,
        list_ascii_of_string rawText = pre ++ t -> ~ matches narrativeRegex t None rest cap) ->
     exists err, parseAnalysis rawText = (0, ""%string, Some err)) /\
  (forall rawText,
     occurs "confidence" (list_ascii_of_string rawText) = false \/
     occurs "justification:" (list_ascii_of_string rawText) = false ->
     exists err, parseAnalysis rawText = (0, ""%string, Some err)) /\
  (forall rawText score narrative err,
     parseAnalysis rawText = (score, narrative, Some err) ->
     score = 0 /\ narrative = ""%string) /\
  (forall rawText score narrative,
     parseAnalysis rawText = (score, narrative, None) ->
     (exists pre t rest cap,
        list_ascii_of_string rawText = pre ++ t /\ matches scoreRegex t None rest cap) /\
     (exists pre t rest cap,
        list_ascii_of_string rawText = pre ++ t /\ matches narrativeRegex t None rest cap)).
Proof.
  split; [vm_compute; reflexivity|]. split; [|split; [|split]].
  - intros rawText [Hs|Hn]; apply parseAnalysis_no_match; [left|right];
      apply FindStringSubmatch_None; assumption.
  - intros rawText [Hc|Hj]; apply parseAnalysis_no_match; [left|right];
      apply FindStringSubmatch_label; assumption.
  - intros rawText score narrative err. rewrite parseAnalysis_inv.
    destruct (FindStringSubmatch scoreRegex _) as [digits|]; [|intros [= <- <- _]; auto].
    destruct (strconv.ParseFloat digits) as [f [e|]]; [intros [= <- <- _]; auto|].
    destruct (FindStringSubmatch narrativeRegex _); [discriminate|intros [= <- <- _]; auto].
  - intros rawText score narrative. rewrite parseAnalysis_inv.
    assert (Hfound : forall r g, FindStringSubmatch r (list_ascii_of_string rawText) = Some g ->
              exists pre t rest cap,
                list_ascii_of_string rawText = pre ++ t /\ matches r t None rest cap).
    { intros r g Hf. destruct (FindStringSubmatch_inv _ _ _ Hf) as (pre & t & Heq & Hm).
      unfold match_here in Hm. apply exec_sound in Hm. destruct Hm as (s' & cap' & Hm & _).
      exists pre, t, s', cap'. auto. }
    destruct (FindStringSubmatch scoreRegex _) as [digits|] eqn:Hs; [|discriminate].
    destruct (strconv.ParseFloat digits) as [f [e|]]; [discriminate|].
    destruct (FindStringSubmatch narrativeRegex _) as [narr|] eqn:Hn; [|discriminate].
    intros _. split; eauto.
Qed.

Lemma parseAnalysis_contract_example :
  (exists err, parseAnalysis sample.missingScore = (0, ""%string, Some err)) /\
  (exists err, parseAnalysis sample.missingJustification = (0, ""%string, Some err)) /\
  (exists err, parseAnalysis "" = (0, ""%string, Some err)) /\
  (exists err, parseAnalysis sample.gibberish = (0, ""%string, Some err)) /\
  (exists err, parseAnalysis sample.labelWithoutValue = (0, ""%string, Some err)).
Proof.
  destruct parseAnalysis_contract as (_ & Hmiss & Hlabel & _).
  split; [|split; [|split; [|split]]].
  - apply Hlabel. left. vm_compute. reflexivity.
  - apply Hlabel. right. vm_compute. reflexivity.
  - apply Hlabel. left. vm_compute. reflexivity.
  - apply Hlabel. left. vm_compute. reflexivity.
  - apply Hmiss. left. apply FindStringSubmatch_None. vm_compute. reflexivity.
Defined.

End AnalysisShape.

(** ** Build *)
Section BuildLoops.
Import faiss index firestore index_build.

Lemma collect_cons (doc : DocumentSnapshot) (iter : list (DocumentSnapshot + error))
    (vectors : list (list float32)) (assetIDs : list string) :
  collect (inl doc :: iter) vectors assetIDs =
    match embedding_of doc with
    | Some l => collect iter (vectors ++ [vector_of l]) (assetIDs ++ [assetID_of doc])
    | None => collect iter vectors assetIDs
    end.
Proof.
  cbn [collect]. unfold embedding_of, assetID_of.
  destruct (Data doc !! "embedding"%string) as [[f|n|s|l|]|]; reflexivity.
Qed.

Lemma omap_cons_eq {A B : Type} (f : A -> option B) (x : A) (l : list A) :
  omap f (x :: l) = match f x with Some y => y :: omap f l | None => omap f l end.
Proof. reflexivity. Qed.

Lemma collect_spec (iter : list (DocumentSnapshot + error)) :
  forall (vectors : list (list float32)) (assetIDs : list string),
    collect iter vectors assetIDs =
      match first_error iter with
      | Some err => inr err
      | None =>
        inl (vectors ++ omap (fun doc => vector_of <$> embedding_of doc) (snapshots iter),
             assetIDs ++ map assetID_of (filter (fun doc => has_embedding doc = true)
                                           (snapshots iter)))
      end.
Proof.
  induction iter as [|[doc|err] iter IH]; intros vectors assetIDs.
  - cbn. rewrite !app_nil_r. reflexivity.
  - rewrite collect_cons. cbn [first_error snapshots]. rewrite omap_cons_eq.
    destruct (embedding_of doc) as [l|] eqn:He; rewrite IH;
      destruct (first_error iter); try reflexivity.
    + rewrite filter_cons_True by (unfold has_embedding; rewrite He; reflexivity).
      cbn [fmap option_fmap option_map map]. rewrite <- !app_assoc. reflexivity.
    + rewrite filter_cons_False by (unfold has_embedding; rewrite He; discriminate).
      reflexivity.
  - reflexivity.
Qed.

Lemma length_slot (v : list float32) : length (slot v) = 1408%nat.
Proof. unfold slot. rewrite length_app, length_take, repeat_length. lia. Qed.

Lemma drop_repeat_add {A : Type} (x : A) (n m : nat) :
  drop n (repeat x (n + m)) = repeat x m.
Proof. rewrite repeat_app. apply drop_app_length'. now rewrite repeat_length. Qed.

Lemma copy_window_slot (done : list float32) (i n : nat) (v : list float32) :
  length done = (i * 1408)%nat ->
  copy_window (done ++ repeat 0 (S n * 1408)) (i * 1408) ((i + 1) * 1408) v
    = (done ++ slot v) ++ repeat 0 (n * 1408).
Proof.
  intros Hdone. unfold copy_window, slot.
  replace ((i + 1) * 1408 - i * 1408)%nat with 1408%nat by lia.
  rewrite <- Hdone, take_app_length. rewrite <- !app_assoc. f_equal.
  rewrite drop_app_add.
  destruct (Nat.le_ge_cases 1408 (length v)) as [Hle|Hge].
  - rewrite Nat.min_l by exact Hle.
    replace (1408 - length v)%nat with 0%nat by lia. cbn [repeat app].
    apply (f_equal (app (take 1408 v))).
    replace (S n * 1408)%nat with (1408 + n * 1408)%nat by lia.
    apply drop_repeat_add.
  - rewrite Nat.min_r by exact Hge.
    rewrite (take_ge v 1408) by exact Hge. rewrite take_ge by lia.
    apply (f_equal (app v)).
    replace (S n * 1408)%nat with (length v + ((1408 - length v) + n * 1408))%nat by lia.
    rewrite drop_repeat_add. apply repeat_app.
Qed.

Lemma fill_from (vectors : list (list float32)) :
  forall (i : nat) (done : list float32),
    length done = (i * 1408)%nat ->
    fill i vectors (done ++ repeat 0 (length vectors * 1408))
      = done ++ concat (map slot vectors).
Proof.
  induction vectors as [|v vectors IH]; intros i done Hdone.
  - cbn. reflexivity.
  - cbn [fill length map concat]. rewrite copy_window_slot by exact Hdone.
    rewrite IH; [now rewrite <- app_assoc|].
    rewrite length_app, length_slot. lia.
Qed.

(** The loop that fills [flatVectors] gives every vector a slot of its
    own, in order. *)
Lemma fill_slots (vectors : list (list float32)) :
  fill 0 vectors (repeat 0 (length vectors * 1408)) = concat (map slot vectors).
Proof. exact (fill_from vectors 0 [] eq_refl). Qed.

Lemma lookup_populate (assetIDs : list string) :
  forall (i : Z) (idMap : gmap Z string) (j : Z),
    populate i assetIDs idMap !! j =
      if decide (i <= j < i + Z.of_nat (length assetIDs))
      then assetIDs !! Z.to_nat (j - i)
      else idMap !! j.
Proof.
  induction assetIDs as [|a assetIDs IH]; intros i mp j; cbn [populate length].
  - destruct (decide _); [lia | reflexivity].
  - rewrite IH. destruct (decide (i + 1 <= j < i + 1 + Z.of_nat (length assetIDs))).
    + rewrite decide_True by lia.
      replace (Z.to_nat (j - i)) with (S (Z.to_nat (j - (i + 1)))) by lia. reflexivity.
    + destruct (decide (i = j)) as [<-|Hne].
      * rewrite decide_True by lia. rewrite lookup_insert_eq.
        replace (Z.to_nat (i - i)) with 0%nat by lia. reflexivity.
      * rewrite decide_False by lia. apply lookup_insert_ne. exact Hne.
Qed.

End BuildLoops.

Section BuildProperties.
Import faiss index firestore index_build.

Lemma omap_taken (docs : list DocumentSnapshot) :
  omap (fun doc => vector_of <$> embedding_of doc) docs
    = map vector_of_doc (filter (fun doc => has_embedding doc = true) docs).
Proof.
  induction docs as [|doc docs IH]; [reflexivity|].
  rewrite omap_cons_eq.
  destruct (embedding_of doc) as [l|] eqn:He.
  - rewrite filter_cons_True by (unfold has_embedding; rewrite He; reflexivity).
    cbn [fmap option_fmap option_map map]. rewrite IH. f_equal.
    unfold vector_of_doc. rewrite He. reflexivity.
  - rewrite filter_cons_False by (unfold has_embedding; rewrite He; discriminate).
    exact IH.
Qed.

Lemma collect_taken (iter : list (DocumentSnapshot + error)) :
  collect iter [] [] =
    match first_error iter with
    | Some err => inr err
    | None => inl (map vector_of_doc (taken iter), map assetID_of (taken iter))
    end.
Proof.
  rewrite collect_spec. destruct (first_error iter); [reflexivity|].
  rewrite omap_taken. reflexivity.
Qed.

Lemma populate_lookup (assetIDs : list string) (j : Z) :
  idMap_lookup (Some (populate 0 assetIDs ∅)) j =
    if decide (0 <= j < Z.of_nat (length assetIDs)) then assetIDs !! Z.to_nat j else None.
Proof.
  unfold idMap_lookup. rewrite lookup_populate, Z.sub_0_r, Z.add_0_l.
  destruct (decide _); [reflexivity | apply lookup_empty].
Qed.

Section Generic.
Context {I : Type} `{Index I}.
Variable NewIndexFlatL2 : Z -> I + error.

(** [Build] ends in one of two ways.  It fails, and the manager is as it
    was.  Or it succeeds: no call of the iterator failed; the manager has the
    index that [NewIndexFlatL2(1408)] made, after one [Add] of all vectors
    when there is at least one (no [Add] otherwise), each vector in a slot
    of 1408 floats, in the order of the documents; and the id map, made
    anew, sends [j] to the asset id of the document number [j] among the
    documents that have a slice under [embedding], and nothing else. *)
Theorem Build_outcome (fs : Firestore) (m : IndexManager I)
    (projectID collectionName : string) (m' : IndexManager I) (err : option error) :
  Build NewIndexFlatL2 fs m projectID collectionName = (m', err) ->
  ((exists e, err = Some e) /\ m' = m) \/
  (err = None /\
   first_error (Documents fs collectionName) = None /\
   exists index0 index1,
     NewIndexFlatL2 1408 = inl index0 /\
     index m' = Some index1 /\
     (if decide (taken (Documents fs collectionName) = []) then index1 = index0
      else idx_Add index0
             (concat (map (fun doc => slot (vector_of_doc doc))
                          (taken (Documents fs collectionName))))
           = (index1, None)) /\
     forall j : Z,
       idMap_lookup (idMap m') j =
         if decide (0 <= j < Z.of_nat (length (taken (Documents fs collectionName))))
         then assetID_of <$> taken (Documents fs collectionName) !! Z.to_nat j
         else None).
Proof.
  unfold Build. destruct (NewClient fs projectID) as [e|]; [intros [= <- <-]; left; eauto|].
  rewrite collect_taken.
  destruct (first_error (Documents fs collectionName)) as [e|];
    [intros [= <- <-]; left; eauto|].
  destruct (NewIndexFlatL2 1408) as [index0|e]; [|intros [= <- <-]; left; eauto].
  set (docs := taken (Documents fs collectionName)).
  rewrite fill_slots, length_map, map_map.
  assert (Hmap : forall j : Z,
            idMap_lookup (Some (populate 0 (map assetID_of docs) ∅)) j =
              if decide (0 <= j < Z.of_nat (length docs))
              then assetID_of <$> docs !! Z.to_nat j else None).
  { intros j. rewrite populate_lookup, length_map, list_lookup_fmap. reflexivity. }
  destruct (0 <? length docs)%nat eqn:Hpos.
  - apply Nat.ltb_lt in Hpos.
    assert (Hne : docs <> []) by (intros E; rewrite E in Hpos; cbn in Hpos; lia).
    destruct (idx_Add index0 _) as [index1 [e|]] eqn:Hadd; intros [= <- <-].
    + left. eauto.
    + right. split; [reflexivity|]. split; [reflexivity|]. exists index0, index1.
      split; [reflexivity|]. split; [reflexivity|]. split; [|exact Hmap].
      rewrite decide_False by exact Hne. exact Hadd.
  - apply Nat.ltb_ge in Hpos.
    assert (Hnil : docs = []) by (destruct docs; [reflexivity | cbn in Hpos; lia]).
    intros [= <- <-]. right.
    split; [reflexivity|]. split; [reflexivity|]. exists index0, index0.
    split; [reflexivity|]. split; [reflexivity|]. split; [|exact Hmap].
    rewrite decide_True by exact Hnil. reflexivity.
Qed.

End Generic.

End BuildProperties.

Section BuildFlat.
Import faiss index firestore index_build flat.

Lemma length_concat_slots (vs : list (list float32)) :
  length (concat (map slot vs)) = (length vs * 1408)%nat.
Proof.
  induction vs as [|v vs IH]; [reflexivity|].
  cbn [map concat length]. rewrite length_app, length_slot, IH. lia.
Qed.

Lemma chunks_concat (d : nat) (vs : list (list float32)) :
  (0 < d)%nat -> Forall (fun v => length v = d) vs ->
  forall fuel : nat, (length vs <= fuel)%nat -> chunks fuel d (concat vs) = vs.
Proof.
  intros Hd. induction 1 as [|v vs Hv _ IH]; intros fuel Hfuel.
  - destruct fuel; reflexivity.
  - destruct fuel as [|fuel]; [cbn in Hfuel; lia|].
    cbn [concat chunks]. destruct (v ++ concat vs) eqn:Hnil.
    + apply (f_equal length) in Hnil. rewrite length_app in Hnil. cbn in Hnil. lia.
    + rewrite <- Hnil, <- Hv, take_app_length, drop_app_length, Hv.
      f_equal. apply IH. cbn in Hfuel. lia.
Qed.

Lemma Build_flat_run (fs : Firestore) (m : IndexManager IndexFlat)
    (projectID collectionName : string) :
  NewClient fs projectID = None ->
  first_error (Documents fs collectionName) = None ->
  Build (fun d => inl (NewIndexFlatL2 d)) fs m projectID collectionName =
    ({| index := Some {| flat_d := 1408;
                         flat_xb := map (fun doc => slot (vector_of_doc doc))
                                        (taken (Documents fs collectionName)) |};
        idMap := Some (populate 0 (map assetID_of (taken (Documents fs collectionName))) ∅) |},
     None).
Proof.
  intros Hclient Hiter. unfold Build. rewrite Hclient, collect_taken, Hiter.
  rewrite fill_slots, length_map, map_map.
  set (docs := taken (Documents fs collectionName)).
  set (x := concat (map (fun doc => slot (vector_of_doc doc)) docs)).
  assert (Hlen : length x = (length docs * 1408)%nat).
  { unfold x. rewrite <- (map_map vector_of_doc slot), length_concat_slots, length_map.
    reflexivity. }
  assert (Hchunks : forall fuel, (length docs <= fuel)%nat ->
            chunks fuel 1408 x = map (fun doc => slot (vector_of_doc doc)) docs).
  { intros fuel Hfuel. apply chunks_concat; [lia | | now rewrite length_map].
    apply Forall_map, Forall_true. intros doc. apply length_slot. }
  destruct (0 <? length docs)%nat eqn:Hpos.
  - apply Nat.ltb_lt in Hpos. cbn [idx_Add IndexFlat_Index].
    unfold flat_Add, NewIndexFlatL2. cbn [flat_d flat_xb].
    replace ((0 <? 1408) && (Z.of_nat (length x) mod 1408 =? 0)
             && negb (Z.of_nat (length x) =? 0)) with true.
    + cbn [app]. replace (Z.to_nat 1408) with 1408%nat by lia.
      rewrite Hchunks by (rewrite Hlen; lia). reflexivity.
    + symmetry. rewrite Hlen. apply andb_true_iff. split; [apply andb_true_iff; split|].
      * reflexivity.
      * apply Z.eqb_eq. rewrite Nat2Z.inj_mul. apply Z_mod_mult.
      * apply negb_true_iff, Z.eqb_neq. lia.
  - apply Nat.ltb_ge in Hpos.
    assert (Hnil : docs = []) by (destruct docs; [reflexivity | cbn in Hpos; lia]).
    rewrite Hnil. reflexivity.
Qed.

(** With the flat index, [Build] over documents that the iterator hands
    out without error succeeds, and index and id map agree: for every [i],
    the vector number [i] of the index is the vector of the document number
    [i] among those with a slice under [embedding], cut or filled up to 1408
    floats, and the id map sends [i] to the asset id of that document (its
    [assetId] field when that is a string, its document id otherwise). *)
Theorem Build_flat_aligned (fs : Firestore) (m : IndexManager IndexFlat)
    (projectID collectionName : string) :
  NewClient fs projectID = None ->
  first_error (Documents fs collectionName) = None ->
  exists (m' : IndexManager IndexFlat) (idx : IndexFlat),
    Build (fun d => inl (NewIndexFlatL2 d)) fs m projectID collectionName = (m', None) /\
    index m' = Some idx /\
    flat_d idx = 1408 /\
    length (flat_xb idx) = length (taken (Documents fs collectionName)) /\
    forall (i : nat) (doc : DocumentSnapshot),
      taken (Documents fs collectionName) !! i = Some doc ->
      flat_xb idx !! i = Some (slot (vector_of_doc doc)) /\
      idMap_lookup (idMap m') (Z.of_nat i) = Some (assetID_of doc).
Proof.
  intros Hclient Hiter. rewrite (Build_flat_run fs m _ _ Hclient Hiter).
  eexists _, _. split; [reflexivity|]. split; [reflexivity|]. split; [reflexivity|].
  cbn [flat_xb idMap]. split; [apply length_map|].
  intros i doc Hi. split.
  - rewrite list_lookup_fmap, Hi. reflexivity.
  - rewrite populate_lookup, length_map.
    pose proof (lookup_lt_Some _ _ _ Hi) as Hlt.
    rewrite decide_True by lia. rewrite Nat2Z.id, list_lookup_fmap, Hi. reflexivity.
Qed.

End BuildFlat.

Section BuildExamples.
Import faiss index firestore index_build flat.

Lemma Build_outcome_example :
  fst (Build scenario.NewIndexFlatL2_ok scenario.fs_broken scenario.small
         "proofpix" "assets") = scenario.small /\
  snd (Build scenario.NewIndexFlatL2_ok scenario.fs_broken scenario.small
         "proofpix" "assets") = Some (errorString "rpc error").
Proof.
  destruct (Build_outcome scenario.NewIndexFlatL2_ok scenario.fs_broken scenario.small
              "proofpix" "assets"
              (fst (Build scenario.NewIndexFlatL2_ok scenario.fs_broken scenario.small
                      "proofpix" "assets"))
              (Some (errorString "rpc error")))
    as [[_ Hm]|[Hnone _]].
  - apply pair_snd. vm_compute. reflexivity.
  - split; [exact Hm | vm_compute; reflexivity].
  - discriminate Hnone.
Defined.

Lemma Build_flat_aligned_example :
  exists (m' : IndexManager IndexFlat) (idx : IndexFlat),
    Build (fun d => inl (NewIndexFlatL2 d)) scenario.fs new_manager "proofpix" "assets"
      = (m', None) /\
    index m' = Some idx /\
    flat_xb idx !! 1%nat
      = Some ([0; sample.two] ++ repeat 0 1406) /\
    idMap_lookup (idMap m') 1 = Some "doc-2"%string.
Proof.
  destruct (Build_flat_aligned scenario.fs new_manager "proofpix" "assets")
    as (m' & idx & Hb & Hi & _ & _ & Hall); [reflexivity | reflexivity |].
  exists m', idx. split; [exact Hb|]. split; [exact Hi|].
  destruct (Hall 1%nat
              {| Ref_ID := "doc-2";
                 Data := <["embedding"%string :=
                             Array [Int64 7; Float64 scenario.two64]]>
                         (<["assetId"%string := Int64 2]> ∅) |})
    as [Hv Hid]; [vm_compute; reflexivity|].
  split; [etransitivity; [exact Hv|]; vm_compute; reflexivity | exact Hid].
Defined.

End BuildExamples.

(** ** The two calls of the Analyze stage and the handler *)
Section Vertex.
Import json vertex index_build.

Lemma convert_inl (imageEmbeddingSlice : list Value) :
  forall (i : nat) (embedding : list float32),
    convert i imageEmbeddingSlice = inl embedding <->
    exists floats, imageEmbeddingSlice = map Number floats /\
                   embedding = map float32_of_float64 floats.
Proof.
  induction imageEmbeddingSlice as [|val rest IH]; intros i embedding.
  - cbn [convert]. split.
    + intros [= <-]. exists []. auto.
    + intros ([|f floats] & Hs & ->); [reflexivity | discriminate].
  - cbn [convert]. split.
    + destruct val as [ |b|f|s|l|fields]; try discriminate.
      destruct (convert (S i) rest) as [v|e] eqn:Hc; [|discriminate].
      intros [= <-]. apply IH in Hc. destruct Hc as (floats & -> & ->).
      exists (f :: floats). auto.
    + intros ([|f floats] & Hs & ->); [discriminate|].
      injection Hs as -> ->.
      assert (Hc : convert (S i) (map Number floats) = inl (map float32_of_float64 floats))
        by (apply IH; eauto).
      rewrite Hc. reflexivity.
Qed.

(** [getEmbedding] succeeds exactly when the project variable is set, the
    request could be built and sent, and the first prediction of the answer
    is a map whose [imageEmbedding] is a list of numbers; the embedding is
    then that list, every number converted to [float32].  The list may have
    any length: it is not compared with the dimension of the index. *)
Theorem getEmbedding_success (sv : Service) (imageData : list byte)
    (embedding : list float32) :
  getEmbedding sv imageData = (embedding, None) <->
  GOOGLE_CLOUD_PROJECT sv <> ""%string /\
  NewService sv = None /\ Marshal sv = None /\ Unmarshal sv = None /\
  exists resp rest predictionMap floats,
    Predict sv (endpoint (GOOGLE_CLOUD_PROJECT sv) "us-central1" "multimodalembedding@001")
      imageData = (Some resp, None) /\
    Predictions resp = Object predictionMap :: rest /\
    lookup "imageEmbedding" predictionMap = Some (Array (map Number floats)) /\
    embedding = map float32_of_float64 floats.
Proof.
  unfold getEmbedding. split.
  - destruct (String.eqb_spec (GOOGLE_CLOUD_PROJECT sv) "") as [|Hp]; [discriminate|].
    destruct (NewService sv); [discriminate|].
    destruct (Marshal sv); [discriminate|].
    destruct (Unmarshal sv); [discriminate|].
    destruct (Predict sv _ imageData) as [[resp|] [e|]]; try discriminate.
    destruct (Predictions resp) as [|prediction rest] eqn:Hpred; [discriminate|].
    destruct prediction as [ |b|f|s|l|predictionMap]; try discriminate.
    destruct (lookup "imageEmbedding" predictionMap) as [[ |b|f|s|slice|fields]|] eqn:Hl;
      try discriminate.
    destruct (convert 0 slice) as [v|e] eqn:Hc; [|discriminate].
    intros [= <-]. apply convert_inl in Hc. destruct Hc as (floats & -> & ->).
    repeat (split; [assumption || reflexivity|]).
    exists resp, rest, predictionMap, floats. auto.
  - intros (Hp & -> & -> & -> & resp & rest & predictionMap & floats & -> & -> & -> & ->).
    destruct (String.eqb_spec (GOOGLE_CLOUD_PROJECT sv) "") as [|_]; [contradiction|].
    assert (Hc : convert 0 (map Number floats) = inl (map float32_of_float64 floats))
      by (apply convert_inl; eauto).
    rewrite Hc. reflexivity.
Qed.

Lemma getAuthenticityAnalysis_text (sv : Service) (imageData : list byte) (text : string) :
  getAuthenticityAnalysis sv imageData = (text, None) -> text <> ""%string.
Proof.
  unfold getAuthenticityAnalysis.
  destruct (String.eqb (GOOGLE_CLOUD_PROJECT sv) ""); [discriminate|].
  destruct (NewService sv); [discriminate|].
  destruct (Marshal sv); [discriminate|].
  destruct (Unmarshal sv); [discriminate|].
  destruct (GenerateContent sv _ imageData) as [[resp|] [e|]]; try discriminate.
  destruct (Candidates resp) as [|candidate rest]; [discriminate|].
  destruct (candidate_Content candidate) as [content|]; [|discriminate].
  destruct (Parts content) as [|part parts]; [discriminate|].
  destruct (String.eqb_spec (Text part) "") as [|Hne]; [discriminate|].
  intros [= <-]. exact Hne.
Qed.

End Vertex.

Section Handler.
Import handler.

(** [processHandler] starts [processImage] for exactly the POST requests
    whose body decodes to two non-empty ids, with those ids, and answers 200
    to exactly those; every other request gets 405 (another method) or 400. *)
Theorem processHandler_contract (r : Request) :
  (forall UserID AssetID,
     launched (processHandler r) = Some (UserID, AssetID) <->
     Method r = "POST"%string /\ Decode r = inl (UserID, AssetID) /\
     UserID <> ""%string /\ AssetID <> ""%string) /\
  (StatusCode (processHandler r) = 200 <-> launched (processHandler r) <> None) /\
  (StatusCode (processHandler r) = 405 <-> Method r <> "POST"%string) /\
  (StatusCode (processHandler r) = 200 \/ StatusCode (processHandler r) = 400 \/
   StatusCode (processHandler r) = 405).
Proof.
  unfold processHandler.
  destruct (String.eqb_spec (Method r) "POST") as [Hm|Hm]; cbn [negb].
  - destruct (Decode r) as [[u a]|e].
    + destruct (String.eqb_spec u "") as [Hu|Hu], (String.eqb_spec a "") as [Ha|Ha];
        cbn [orb launched StatusCode];
        (split; [intros u' a'; split;
                 [intros [= <- <-] || discriminate; auto
                 |intros (_ & [= <- <-] & ? & ?); congruence]|]);
        (split; [split; [discriminate || (intros _; discriminate)
                        |intros Hx; reflexivity || (exfalso; apply Hx; reflexivity)]|]);
        (split; [split; [discriminate | intros Hx; contradiction]|]); auto.
    + cbn [launched StatusCode].
      split; [intros u a; split; [discriminate | intros (_ & [=] & _)]|].
      split; [split; [discriminate | intros Hx; exfalso; apply Hx; reflexivity]|].
      split; [split; [discriminate | intros Hx; contradiction]|]. auto.
  - cbn [launched StatusCode].
    split; [intros u a; split; [discriminate | intros (Hp & _); contradiction]|].
    split; [split; [discriminate | intros Hx; exfalso; apply Hx; reflexivity]|].
    split; [split; [intros _; exact Hm | reflexivity]|]. auto.
Qed.

End Handler.

(** ** The middlewares *)
Section Auth.
Import auth.

Lemma Split_from_spec (s : list ascii) :
  forall part : list ascii,
    Forall (fun c => c <> " "%char) part ->
    Forall (Forall (fun c => c <> " "%char)) (Split_from part s) /\
    Join (Split_from part s) = rev part ++ s /\
    Split_from part s <> [].
Proof.
  induction s as [|c s IH]; intros part Hpart; cbn [Split_from].
  - split; [|split; [cbn; now rewrite app_nil_r | discriminate]].
    constructor; [|constructor]. apply Forall_rev. exact Hpart.
  - destruct (Ascii.eqb_spec c " ") as [->|Hc].
    + destruct (IH [] (List.Forall_nil _)) as (Hall & Hjoin & Hne).
      split; [|split; [|discriminate]].
      * constructor; [apply Forall_rev; exact Hpart | exact Hall].
      * cbn [Join]. destruct (Split_from [] s) eqn:E; [contradiction|].
        rewrite Hjoin. reflexivity.
    + destruct (IH (c :: part)) as (Hall & Hjoin & Hne); [constructor; assumption|].
      split; [exact Hall|]. split; [|exact Hne].
      rewrite Hjoin. cbn [rev]. rewrite <- app_assoc. reflexivity.
Qed.

Lemma string_of_list_ascii_app (a b : list ascii) :
  string_of_list_ascii (a ++ b) = string_of_list_ascii a +:+ string_of_list_ascii b.
Proof. induction a as [|c a IH]; [reflexivity|]. cbn. rewrite IH. reflexivity. Qed.

Lemma Split_two (s scheme token : string) :
  Split s = [scheme; token] ->
  s = scheme +:+ " " +:+ token /\
  Forall (fun c => c <> " "%char) (list_ascii_of_string scheme) /\
  Forall (fun c => c <> " "%char) (list_ascii_of_string token).
Proof.
  unfold Split.
  destruct (Split_from_spec (list_ascii_of_string s) [] (List.Forall_nil _)) as (Hall & Hjoin & _).
  destruct (Split_from [] (list_ascii_of_string s)) as [|a [|b [|c ps]]]; try discriminate.
  cbn [map]. intros [= <- <-]. rewrite !list_ascii_of_string_of_list.
  apply Forall_cons in Hall as [Ha Hall]. apply Forall_cons in Hall as [Hb _].
  split; [|split; assumption].
  cbn [Join rev app] in Hjoin.
  rewrite <- (string_of_list_ascii_of_string s), <- Hjoin.
  rewrite string_of_list_ascii_app. reflexivity.
Qed.

(** A request that [VerifyFirebaseJWT] hands on to the next handler
    carries a verified token: its [Authorization] header is one word that
    reads [bearer] in some letter case, one space, and a non-empty token
    without a space; the client is initialised and has verified exactly
    that token; and the request that is handed on is the incoming one with
    the user id of the token in its context, where [GetUserID] finds it. *)
Theorem VerifyFirebaseJWT_next (firebaseClient : option (string -> Token + error))
    (r r' : Request) :
  VerifyFirebaseJWT firebaseClient r = next_ServeHTTP r' ->
  exists scheme token VerifyIDToken decodedToken,
    Authorization r = scheme +:+ " " +:+ token /\
    ToLower scheme = "bearer"%string /\
    token <> ""%string /\
    Forall (fun c => c <> " "%char) (list_ascii_of_string token) /\
    firebaseClient = Some VerifyIDToken /\
    VerifyIDToken token = inl decodedToken /\
    r' = with_user r decodedToken /\
    GetUserID r' = (UID decodedToken, true).
Proof.
  unfold VerifyFirebaseJWT.
  destruct (String.eqb (Authorization r) ""); [discriminate|].
  destruct (Split (Authorization r)) as [|scheme [|token [|x parts]]] eqn:Hs; try discriminate.
  destruct (String.eqb_spec (ToLower scheme) "bearer") as [Hb|]; [|discriminate].
  cbn [negb]. destruct (String.eqb_spec token "") as [|Ht]; [discriminate|].
  destruct firebaseClient as [VerifyIDToken|]; [|discriminate].
  destruct (VerifyIDToken token) as [decodedToken|e] eqn:Hv; [|discriminate].
  intros [= <-]. destruct (Split_two _ _ _ Hs) as (Hh & _ & Htok).
  exists scheme, token, VerifyIDToken, decodedToken. repeat split; assumption || reflexivity.
Qed.

(** [VerifyFirebaseJWT] answers 500 to every request with a well-formed
    header when the client is not initialised, and 401 to everything else
    that it does not hand on. *)
Theorem VerifyFirebaseJWT_refusal (firebaseClient : option (string -> Token + error))
    (r : Request) :
  (firebaseClient = None ->
   (exists scheme token, Split (Authorization r) = [scheme; token] /\
                         ToLower scheme = "bearer"%string /\ token <> ""%string) ->
   VerifyFirebaseJWT firebaseClient r
     = respondWithError 500 "Authentication service unavailable" "Internal server error") /\
  (forall statusCode error message,
     VerifyFirebaseJWT firebaseClient r = respondWithError statusCode error message ->
     (statusCode = 500 /\ firebaseClient = None /\
      exists scheme token, Split (Authorization r) = [scheme; token] /\
                           ToLower scheme = "bearer"%string /\ token <> ""%string) \/
     (statusCode = 401 /\
      ~ (firebaseClient = None /\
         exists scheme token, Split (Authorization r) = [scheme; token] /\
                              ToLower scheme = "bearer"%string /\ token <> ""%string))).
Proof.
  unfold VerifyFirebaseJWT. split.
  - intros -> (scheme & token & Hs & Hb & Ht).
    destruct (String.eqb_spec (Authorization r) "") as [E|_].
    + rewrite E in Hs. discriminate Hs.
    + rewrite Hs, Hb. cbn [String.eqb Ascii.eqb Bool.eqb negb].
      destruct (String.eqb_spec token "") as [|_]; [contradiction | reflexivity].
  - intros statusCode error message.
    destruct (String.eqb_spec (Authorization r) "") as [E|_].
    { intros [= <- _ _]. right. split; [reflexivity|].
      intros (_ & scheme & token & Hs & _). rewrite E in Hs. discriminate Hs. }
    destruct (Split (Authorization r)) as [|scheme [|token [|x parts]]] eqn:Hs;
      try (intros [= <- _ _]; right; split; [reflexivity|];
           intros (_ & scheme' & token' & Hs' & _); discriminate Hs').
    destruct (String.eqb_spec (ToLower scheme) "bearer") as [Hb|Hb]; cbn [negb].
    2:{ intros [= <- _ _]. right. split; [reflexivity|].
        intros (_ & scheme' & token' & [= <- <-] & Hb' & _). contradiction. }
    destruct (String.eqb_spec token "") as [Ht|Ht].
    { intros [= <- _ _]. right. split; [reflexivity|].
      intros (_ & scheme' & token' & [= <- <-] & _ & Ht'). contradiction. }
    destruct firebaseClient as [VerifyIDToken|].
    + destruct (VerifyIDToken token); [discriminate|].
      intros [= <- _ _]. right. split; [reflexivity|]. intros [Hc _]. discriminate Hc.
    + intros [= <- _ _]. left. repeat split. exists scheme, token. auto.
Qed.

(** [OptionalFirebaseJWT] hands every request on, with the header as it
    came: either the request as it came, or with the user of a verified
    token in its context.  Whatever [VerifyFirebaseJWT] hands on,
    [OptionalFirebaseJWT] hands on the same. *)
Theorem OptionalFirebaseJWT_next (firebaseClient : option (string -> Token + error))
    (r : Request) :
  (exists r',
     OptionalFirebaseJWT firebaseClient r = next_ServeHTTP r' /\
     Authorization r' = Authorization r /\
     (r' = r \/
      exists scheme token VerifyIDToken decodedToken,
        Split (Authorization r) = [scheme; token] /\
        ToLower scheme = "bearer"%string /\
        firebaseClient = Some VerifyIDToken /\
        VerifyIDToken token = inl decodedToken /\
        r' = with_user r decodedToken)) /\
  (forall r'',
     VerifyFirebaseJWT firebaseClient r = next_ServeHTTP r'' ->
     OptionalFirebaseJWT firebaseClient r = next_ServeHTTP r'').
Proof.
  unfold OptionalFirebaseJWT, VerifyFirebaseJWT.
  destruct (String.eqb (Authorization r) ""); [split; [eauto | discriminate]|].
  destruct (Split (Authorization r)) as [|scheme [|token [|x parts]]] eqn:Hs;
    try (split; [eauto | discriminate]).
  destruct (String.eqb_spec (ToLower scheme) "bearer") as [Hb|];
    [|split; [eauto | discriminate]].
  cbn [negb]. destruct firebaseClient as [VerifyIDToken|].
  - destruct (VerifyIDToken token) as [decodedToken|e] eqn:Hv.
    + split.
      * exists (with_user r decodedToken). split; [reflexivity|]. split; [reflexivity|].
        right. exists scheme, token, VerifyIDToken, decodedToken. auto.
      * destruct (String.eqb token ""); [discriminate | auto].
    + split; [eauto|]. destruct (String.eqb token ""); discriminate.
  - split; [eauto|]. destruct (String.eqb token ""); discriminate.
Qed.

(** [InitFirebase] does its work once.  Whatever the first call did, every
    later call returns no error and changes nothing, in whatever environment.
    A call that returns no error on a program that had not called it before
    leaves a client behind.  But after a first call that failed, the later
    calls report success although there is still no client:
    [GetFirebaseClient] fails, and [VerifyFirebaseJWT] answers 500 to every
    request with a well-formed header. *)
Theorem InitFirebase_once (env env' : Env) (st st1 : State) (err : option error) :
  InitFirebase env st = (st1, err) ->
  InitFirebase env' st1 = (st1, None) /\
  (once_done st = false -> err = None ->
   exists client, GetFirebaseClient st1 = inl client) /\
  (once_done st = false -> firebaseClient st = None -> err <> None ->
   (exists e, GetFirebaseClient st1 = inr e) /\
   forall r scheme token,
     Split (Authorization r) = [scheme; token] ->
     ToLower scheme = "bearer"%string -> token <> ""%string ->
     VerifyFirebaseJWT (firebaseClient st1) r
       = respondWithError 500 "Authentication service unavailable" "Internal server error").
Proof.
  unfold InitFirebase. intros Hinit.
  assert (Hfail : firebaseClient st1 = None ->
            (exists e, GetFirebaseClient st1 = inr e) /\
            forall r scheme token,
              Split (Authorization r) = [scheme; token] ->
              ToLower scheme = "bearer"%string -> token <> ""%string ->
              VerifyFirebaseJWT (firebaseClient st1) r
                = respondWithError 500 "Authentication service unavailable"
                    "Internal server error").
  { intros Hnone. unfold GetFirebaseClient, VerifyFirebaseJWT. rewrite Hnone.
    split; [eauto|]. intros r scheme token Hs Hb Ht.
    destruct (String.eqb_spec (Authorization r) "") as [E|_].
    - rewrite E in Hs. discriminate Hs.
    - rewrite Hs, Hb. cbn [String.eqb Ascii.eqb Bool.eqb negb].
      destruct (String.eqb_spec token "") as [|_]; [contradiction | reflexivity]. }
  destruct (once_done st) eqn:Honce.
  - injection Hinit as <- <-. rewrite Honce.
    split; [reflexivity|]. split; discriminate.
  - destruct (if String.eqb (FIREBASE_PROJECT_ID env) "" then PROJECT_ID env
              else FIREBASE_PROJECT_ID env) as [|c projectID] eqn:Hp; cbn [String.eqb] in Hinit.
    + injection Hinit as <- <-. cbn [once_done firebaseClient].
      split; [reflexivity|]. split; [discriminate|]. intros _ Hnone _. apply Hfail.
      exact Hnone.
    + destruct (if negb (String.eqb (FIREBASE_SERVICE_ACCOUNT_KEY env) "")
                then NewApp env (String c projectID) (Some (FIREBASE_SERVICE_ACCOUNT_KEY env))
                else NewApp env (String c projectID) None) as [e|].
      * injection Hinit as <- <-. cbn [once_done firebaseClient].
        split; [reflexivity|]. split; [discriminate|]. intros _ Hnone _. apply Hfail.
        exact Hnone.
      * destruct (app_Auth env) as [authClient|authErr]; injection Hinit as <- <-;
          cbn [once_done firebaseClient].
        -- split; [reflexivity|]. split; [intros _ _; exists authClient; reflexivity|].
           intros _ _ Hne. contradiction.
        -- split; [reflexivity|]. split; [discriminate|]. intros _ Hnone _. apply Hfail.
           exact Hnone.
Qed.

Lemma VerifyFirebaseJWT_next_example :
  exists scheme token VerifyIDToken decodedToken,
    "BEARER abc.def.ghi"%string = scheme +:+ " " +:+ token /\
    ToLower scheme = "bearer"%string /\
    token <> ""%string /\
    Forall (fun c => c <> " "%char) (list_ascii_of_string token) /\
    Some scenario.VerifyIDToken = Some VerifyIDToken /\
    VerifyIDToken token = inl decodedToken /\
    with_user (scenario.request "BEARER abc.def.ghi") {| UID := "user-456" |}
      = with_user (scenario.request "BEARER abc.def.ghi") decodedToken /\
    GetUserID (with_user (scenario.request "BEARER abc.def.ghi") {| UID := "user-456" |})
      = (UID decodedToken, true).
Proof.
  apply (VerifyFirebaseJWT_next (Some scenario.VerifyIDToken)
           (scenario.request "BEARER abc.def.ghi")
           (with_user (scenario.request "BEARER abc.def.ghi") {| UID := "user-456" |})).
  vm_compute. reflexivity.
Defined.

Lemma VerifyFirebaseJWT_refusal_example :
  VerifyFirebaseJWT None (scenario.request "Bearer abc.def.ghi")
    = respondWithError 500 "Authentication service unavailable" "Internal server error" /\
  VerifyFirebaseJWT (Some scenario.VerifyIDToken) (scenario.request "Bearer  abc.def.ghi")
    = respondWithError 401 "Invalid Authorization header format"
        "Expected format: Bearer <token>" /\
  ((401 = 500 /\ Some scenario.VerifyIDToken = None /\
    exists scheme token,
      Split (Authorization (scenario.request "Bearer  abc.def.ghi")) = [scheme; token] /\
      ToLower scheme = "bearer"%string /\ token <> ""%string) \/
   (401 = 401 /\
    ~ (Some scenario.VerifyIDToken = None /\
       exists scheme token,
         Split (Authorization (scenario.request "Bearer  abc.def.ghi")) = [scheme; token] /\
         ToLower scheme = "bearer"%string /\ token <> ""%string))).
Proof.
  destruct (VerifyFirebaseJWT_refusal None (scenario.request "Bearer abc.def.ghi"))
    as [H500 _].
  destruct (VerifyFirebaseJWT_refusal (Some scenario.VerifyIDToken)
              (scenario.request "Bearer  abc.def.ghi")) as [_ H401].
  split; [|split].
  - apply H500; [reflexivity|].
    exists "Bearer"%string, "abc.def.ghi"%string.
    split; [reflexivity|]. split; [reflexivity | discriminate].
  - reflexivity.
  - apply (H401 401 "Invalid Authorization header format"%string
                "Expected format: Bearer <token>"%string).
    reflexivity.
Defined.

Lemma InitFirebase_once_example :
  InitFirebase scenario.env_ok (fst (InitFirebase scenario.env_missing scenario.fresh))
    = (fst (InitFirebase scenario.env_missing scenario.fresh), None) /\
  VerifyFirebaseJWT
    (firebaseClient (fst (InitFirebase scenario.env_missing scenario.fresh)))
    (scenario.request "Bearer abc.def.ghi")
    = respondWithError 500 "Authentication service unavailable" "Internal server error".
Proof.
  destruct (InitFirebase_once scenario.env_missing scenario.env_ok scenario.fresh
              (fst (InitFirebase scenario.env_missing scenario.fresh))
              (snd (InitFirebase scenario.env_missing scenario.fresh)) eq_refl)
    as (Hagain & _ & Hfail).
  split; [exact Hagain|].
  destruct (Hfail eq_refl eq_refl) as [_ H500]; [discriminate|].
  apply (H500 _ "Bearer"%string "abc.def.ghi"%string); [reflexivity | reflexivity | discriminate].
Defined.

End Auth.

(** ** The artifacts of one run of the pipeline *)
Section Artifacts.
Import faiss worker stages.
Context {I : Type} `{Index I}.

(** The proofs below run [processImage] case by case: [step] takes the
    next outcome that the run depends on (a call that fails or succeeds, a
    variable that is set or not) and splits on it; [reduce] carries the
    state through. *)
Ltac unfold_steps :=
  unfold bind, Search, Add, ret, saveAsset, saveJSONCertificate, savePNGBadge,
         queueLeafInTrillian, updateLeafIndex.

Ltac reduce :=
  cbn beta iota zeta delta [fst snd globalIndexManager assets certificates badges
                            leaves calls negb andb ID UserID Status CreatedAt
                            RawAnalysis OriginalityScore Narrative Embedding
                            TrillianLeafIndex].

Ltac reduce_all :=
  cbn beta iota zeta delta [fst snd globalIndexManager assets certificates badges
                            leaves calls negb andb ID UserID Status CreatedAt
                            RawAnalysis OriginalityScore Narrative Embedding
                            TrillianLeafIndex] in *.

Ltac unfold_all :=
  unfold processImage, afterCertificate, fetched, analysisErr, embeddingErr, embeddingOf,
         analysisTextOf in *;
  unfold_steps.

Ltac step :=
  match goal with
  | |- context [match ?x with _ => _ end] =>
    lazymatch x with
    | context [match _ with _ => _ end] => fail
    | _ => destruct x eqn:?
    end
  | |- context [if ?x then _ else _] =>
    lazymatch x with
    | context [match _ with _ => _ end] => fail
    | _ => destruct x eqn:?
    end
  end;
  try match goal with
      | Hl : <[?k := _]> _ !! ?k = _ |- _ =>
        rewrite lookup_insert_eq in Hl;
        first [discriminate Hl | injection Hl as <-]
      end;
  reduce.

Ltac bools :=
  repeat match goal with
         | Hb : _ && _ = true |- _ => apply andb_true_iff in Hb as [? ?]
         | Hb : negb _ = true |- _ => apply negb_true_iff in Hb
         | Hb : String.eqb _ _ = false |- _ => apply String.eqb_neq in Hb
         | Hb : String.eqb _ _ = true |- _ => apply String.eqb_eq in Hb
         end.

(** When the image cannot be fetched, [processImage] changes nothing; and
    the index manager is called exactly when the image was fetched and the
    embedding call succeeded, whatever the analysis call did: then there is
    one [Search] for 5 neighbours and one [Add], both with the embedding as
    it came back, and the manager is the one that [Add] leaves. *)
Theorem processImage_index_update (w : World) (userID assetID : string) (st : State I) :
  let st' := snd (processImage w userID assetID st) in
  (~ fetched w -> st' = st) /\
  (embeddingErr w <> None ->
   calls st' = calls st /\ globalIndexManager st' = globalIndexManager st) /\
  (fetched w -> embeddingErr w = None ->
   calls st' = calls st ++ [CallSearch (embeddingOf w) 5; CallAdd assetID (embeddingOf w)] /\
   globalIndexManager st'
     = fst (index.Add (globalIndexManager st) assetID (embeddingOf w))).
Proof.
  unfold_all; reduce; repeat step.
  all: split;
    [intros Hnf; first [reflexivity | exfalso; apply Hnf; repeat split; reflexivity]
    |split;
      [intros He; first [split; reflexivity | congruence]
      |intros (? & ? & ?) He;
       first [congruence
             |split; [rewrite <- app_assoc; reflexivity | reflexivity]]]].
Qed.

(** The Asset document.  [processImage] touches no document but the one of
    its asset id.  When it writes that document, the image was fetched and
    both calls of the Analyze stage succeeded, and the document holds the ids,
    the status [completed], the time of the run, the answer of the analysis
    as it came and the embedding as it came; score and narrative are the ones
    that [parseAnalysis] finds in the answer, and when [parseAnalysis] fails
    the score is 0 and the narrative is the whole answer. *)
Theorem processImage_asset (w : World) (userID assetID : string) (st : State I) :
  let st' := snd (processImage w userID assetID st) in
  (forall k, k <> assetID -> assets st' !! k = assets st !! k) /\
  (assets st' = assets st \/
   exists asset,
     assets st' !! assetID = Some asset /\
     fetched w /\ analysisErr w = None /\ embeddingErr w = None /\
     ID asset = assetID /\ UserID asset = userID /\
     Status asset = "completed"%string /\
     CreatedAt asset = w_Now w /\
     RawAnalysis asset = analysisTextOf w /\
     Embedding asset = embeddingOf w /\
     (OriginalityScore asset, Narrative asset) =
       match analysis.parseAnalysis (analysisTextOf w) with
       | (_, _, Some _) => (0, analysisTextOf w)
       | (score, narrative, None) => (score, narrative)
       end).
Proof.
  unfold_all; reduce; repeat step.
  all: split;
    [intros k Hk; rewrite ?lookup_insert_ne by congruence; reflexivity
    |first [left; reflexivity
           |right; eexists; split;
            [rewrite ?lookup_insert_eq; reflexivity | repeat split; reflexivity]]].
Qed.

(** The certificate.  [processImage] touches no object of the certificate
    bucket but the one of its asset id.  When it writes that object, the
    Asset document is stored, and the object holds the JSON of the
    credential that [Generate] makes from the fields of that document. *)
Theorem processImage_certificate (w : World) (userID assetID : string) (st : State I) :
  let st' := snd (processImage w userID assetID st) in
  (forall k, k <> "certificates/" +:+ assetID +:+ ".json" ->
     certificates st' !! k = certificates st !! k) /\
  (certificates st' = certificates st \/
   exists asset credential certificateJSON,
     assets st' !! assetID = Some asset /\
     certificate.Generate (Some (to_models asset)) (w_GenerateNow w)
       = (Some credential, None) /\
     w_MarshalIndent w credential = (certificateJSON, None) /\
     certificates st' !! ("certificates/" +:+ assetID +:+ ".json") = Some certificateJSON).
Proof.
  unfold_all; reduce; repeat step.
  all: split;
    [intros k Hk; rewrite ?lookup_insert_ne by congruence; reflexivity
    |first [left; reflexivity
           |right; do 3 eexists;
            split; [rewrite ?lookup_insert_eq; reflexivity|];
            split; [eassumption|];
            split; [eassumption|];
            rewrite ?lookup_insert_eq; reflexivity]].
Qed.

(** The leaf of the transparency log.  [processImage] queues at most one
    leaf, and only when the two variables of the log are set and the log id
    is a number; the leaf is then the SHA-256 digest of the certificate
    object that the run stored. *)
Theorem processImage_leaf (w : World) (userID assetID : string) (st : State I) :
  let st' := snd (processImage w userID assetID st) in
  leaves st' = leaves st \/
  exists certificateJSON logID,
    certificates st' !! ("certificates/" +:+ assetID +:+ ".json") = Some certificateJSON /\
    w_TRILLIAN_LOG_ID w <> ""%string /\
    w_TRILLIAN_LOG_SERVER_ADDR w <> ""%string /\
    strconv.ParseInt (list_ascii_of_string (w_TRILLIAN_LOG_ID w)) = (logID, None) /\
    snd (w_QueueLeaf w) = None /\
    leaves st' = leaves st ++ [sha256.Sum256 (map flat.Z_of_byte certificateJSON)].
Proof.
  unfold_all; reduce; repeat step.
  all: first [left; reflexivity
             |right; do 2 eexists;
              split; [rewrite ?lookup_insert_eq; reflexivity|];
              split; [bools; assumption|];
              split; [bools; assumption|];
              split; [reflexivity|];
              split; reflexivity].
Qed.

(** The badge.  [processImage] touches no object of the badge bucket but
    the one of its asset id.  When it writes that object, the Asset document
    and the certificate of the run are stored, and the object holds the badge
    that [GenerateBadge] draws for the originality score of the document. *)
Theorem processImage_badge (w : World) (userID assetID : string) (st : State I) :
  let st' := snd (processImage w userID assetID st) in
  (forall k, k <> "badges/" +:+ assetID +:+ ".png" -> badges st' !! k = badges st !! k) /\
  (badges st' = badges st \/
   exists asset certificateJSON badgeData,
     assets st' !! assetID = Some asset /\
     certificates st' !! ("certificates/" +:+ assetID +:+ ".json") = Some certificateJSON /\
     w_GenerateBadge w (OriginalityScore asset) = (badgeData, None) /\
     badges st' !! ("badges/" +:+ assetID +:+ ".png") = Some badgeData).
Proof.
  unfold_all; reduce; repeat step.
  all: split;
    [intros k Hk; rewrite ?lookup_insert_ne by congruence; reflexivity
    |first [left; reflexivity
           |right; do 3 eexists;
            split; [rewrite ?lookup_insert_eq; reflexivity|];
            split; [rewrite ?lookup_insert_eq; reflexivity|];
            split; [eassumption|];
            rewrite ?lookup_insert_eq; reflexivity]].
Qed.

(** A run in which the log is configured and no call fails produces all
    four artifacts, and they fit together: the Asset document, with the leaf
    index that the log server gave; the certificate made from that document;
    the leaf, which is the digest of that certificate; and the badge of the
    score of that document. *)
Theorem processImage_complete (w : World) (userID assetID : string) (st : State I) :
  smooth w ->
  let st' := snd (processImage w userID assetID st) in
  exists asset credential,
    assets st' !! assetID = Some asset /\
    ID asset = assetID /\
    TrillianLeafIndex asset = fst (w_QueueLeaf w) /\
    certificate.Generate (Some (to_models asset)) (w_GenerateNow w)
      = (Some credential, None) /\
    certificates st' !! ("certificates/" +:+ assetID +:+ ".json")
      = Some (fst (w_MarshalIndent w credential)) /\
    leaves st'
      = leaves st ++ [sha256.Sum256 (map flat.Z_of_byte (fst (w_MarshalIndent w credential)))] /\
    badges st' !! ("badges/" +:+ assetID +:+ ".png")
      = Some (fst (w_GenerateBadge w (OriginalityScore asset))).
Proof.
  unfold smooth, fetched, analysisErr, embeddingErr.
  intros ((Hc & Hr & Hra) & Ha & He & Hp & Hfs & Hset & Hm & Hcw & Hid & Haddr & Hpi & Hq
          & Hu & Hb & Hbw).
  apply String.eqb_neq in Hp, Hid, Haddr.
  destruct (w_ReadAll w) as [imageData o] eqn:ERA; cbn [fst snd] in *; subst o.
  destruct (w_getAuthenticityAnalysis w imageData) as [analysisText o] eqn:EA;
    cbn [snd] in Ha; subst o.
  destruct (w_getEmbedding w imageData) as [embedding o] eqn:EE; cbn [snd] in He; subst o.
  destruct (strconv.ParseInt (list_ascii_of_string (w_TRILLIAN_LOG_ID w))) as [logID o]
    eqn:EP; cbn [snd] in Hpi; subst o.
  destruct (w_QueueLeaf w) as [leafIndex o] eqn:EQ; cbn [fst snd] in *; subst o.
  unfold processImage. rewrite Hc, Hr, ERA, EA, EE.
  destruct (analysis.parseAnalysis analysisText) as [[score narrative] parseErr].
  set (asset := {| ID := assetID; UserID := userID; Status := "completed";
                   CreatedAt := w_Now w; RawAnalysis := analysisText;
                   OriginalityScore := match parseErr with Some _ => 0 | None => score end;
                   Narrative := match parseErr with
                                | Some _ => analysisText
                                | None => narrative
                                end;
                   Embedding := embedding; TrillianLeafIndex := 0 |}).
  destruct (certificate.Generate (Some (to_models asset)) (w_GenerateNow w))
    as [credential gerr] eqn:EG.
  assert (exists c, credential = Some c /\ gerr = None) as (c & -> & ->).
  { unfold certificate.Generate in EG. injection EG as <- <-. eauto. }
  pose proof (Hm c) as Hmc. destruct (w_MarshalIndent w c) as [json o] eqn:EM.
  cbn [snd] in Hmc. subst o.
  pose proof (Hb (OriginalityScore asset)) as Hbs.
  destruct (w_GenerateBadge w (OriginalityScore asset)) as [badgeData o] eqn:EB.
  cbn [snd] in Hbs. subst o.
  exists {| ID := assetID; UserID := userID; Status := "completed";
            CreatedAt := w_Now w; RawAnalysis := analysisText;
            OriginalityScore := OriginalityScore asset;
            Narrative := Narrative asset;
            Embedding := embedding; TrillianLeafIndex := leafIndex |}, c.
  destruct parseErr as [parseErr|]; subst asset;
    unfold bind, ret, Search, Add, saveAsset, saveJSONCertificate, afterCertificate, bind, ret,
           queueLeafInTrillian, updateLeafIndex, savePNGBadge;
    reduce_all;
    destruct (index.Add (globalIndexManager st) assetID embedding) as [m1 addErr];
    repeat (progress (rewrite ?Hp, ?Hfs, ?Hset, ?EG, ?EM, ?Hc, ?Hcw, ?Hid, ?Haddr, ?EP,
                        ?EQ, ?Hu, ?EB, ?Hbw, ?lookup_insert_eq; reduce_all));
    repeat split; try reflexivity; exact EG.
Qed.

Ltac world_fields :=
  cbn [w_NewClient w_NewReader w_ReadAll w_getAuthenticityAnalysis w_getEmbedding
       w_Now w_GenerateNow w_GOOGLE_CLOUD_PROJECT w_TRILLIAN_LOG_ID
       w_TRILLIAN_LOG_SERVER_ADDR w_firestore_NewClient w_Set w_Update w_MarshalIndent
       w_certificate_Write w_QueueLeaf w_GenerateBadge w_badge_Write].

Lemma afterCertificate_with_log (w : World) (logID addr : string)
    (queued : Z * option error) (update : option error)
    (assetID : string) (asset : Asset) (certificateJSON : list byte) (st : State I) :
  let st1 := snd (afterCertificate w assetID asset certificateJSON st) in
  let st2 := snd (afterCertificate (with_log w logID addr queued update) assetID asset
                    certificateJSON st) in
  globalIndexManager st2 = globalIndexManager st1 /\
  calls st2 = calls st1 /\
  certificates st2 = certificates st1 /\
  badges st2 = badges st1 /\
  forall k, to_models <$> assets st2 !! k = to_models <$> assets st1 !! k.
Proof.
  unfold afterCertificate; unfold_steps; unfold with_log; world_fields; reduce; repeat step.
  all: repeat match goal with
              | Hs : Some _ = Some _ |- _ => injection Hs as ?; subst
              | Hs : Some _ = None |- _ => discriminate Hs
              | Hs : None = Some _ |- _ => discriminate Hs
              end.
  all: repeat split; try reflexivity.
  all: intros k; destruct (decide (k = assetID)) as [->|Hk];
    rewrite ?lookup_insert_eq; rewrite ?lookup_insert_ne by congruence;
    try reflexivity.
  all: repeat match goal with
              | Hl : _ !! _ = _ |- _ => rewrite Hl
              end; reflexivity.
Qed.

(** The transparency log stands apart: whether the log is configured,
    what the log server answers and whether the leaf index can be written
    back change neither the calls on the index manager, nor the certificate,
    nor the badge, nor any field of an Asset document other than the leaf
    index. *)
Theorem processImage_log_independent (w : World) (logID addr : string)
    (queued : Z * option error) (update : option error)
    (userID assetID : string) (st : State I) :
  let st1 := snd (processImage w userID assetID st) in
  let st2 := snd (processImage (with_log w logID addr queued update) userID assetID st) in
  globalIndexManager st2 = globalIndexManager st1 /\
  calls st2 = calls st1 /\
  certificates st2 = certificates st1 /\
  badges st2 = badges st1 /\
  forall k, to_models <$> assets st2 !! k = to_models <$> assets st1 !! k.
Proof.
  unfold processImage; unfold_steps.
  change (w_NewClient (with_log w logID addr queued update)) with (w_NewClient w).
  change (w_NewReader (with_log w logID addr queued update)) with (w_NewReader w).
  change (w_ReadAll (with_log w logID addr queued update)) with (w_ReadAll w).
  change (w_getAuthenticityAnalysis (with_log w logID addr queued update))
    with (w_getAuthenticityAnalysis w).
  change (w_getEmbedding (with_log w logID addr queued update)) with (w_getEmbedding w).
  change (w_Now (with_log w logID addr queued update)) with (w_Now w).
  change (w_GenerateNow (with_log w logID addr queued update)) with (w_GenerateNow w).
  change (w_GOOGLE_CLOUD_PROJECT (with_log w logID addr queued update))
    with (w_GOOGLE_CLOUD_PROJECT w).
  change (w_firestore_NewClient (with_log w logID addr queued update))
    with (w_firestore_NewClient w).
  change (w_Set (with_log w logID addr queued update)) with (w_Set w).
  change (w_MarshalIndent (with_log w logID addr queued update)) with (w_MarshalIndent w).
  change (w_certificate_Write (with_log w logID addr queued update))
    with (w_certificate_Write w).
  reduce; repeat step.
  all: try (repeat split; reflexivity).
  all: apply afterCertificate_with_log.
Qed.

(** The narrative of a stored document is never empty.  When the analysis
    call is [getAuthenticityAnalysis], every Asset document that
    [processImage] writes has a narrative: the one that [parseAnalysis]
    found, which is not empty, or else the whole answer of the model, which
    [getAuthenticityAnalysis] does not let through when it is empty.  So
    the credential made from the document carries the narrative of the
    document; [Generate] does not fall back on the raw analysis. *)
Theorem processImage_narrative (w : World) (userID assetID : string) (st : State I) :
  (forall imageData, exists sv,
     w_getAuthenticityAnalysis w imageData = vertex.getAuthenticityAnalysis sv imageData) ->
  let st' := snd (processImage w userID assetID st) in
  assets st' = assets st \/
  exists asset,
    assets st' !! assetID = Some asset /\
    Narrative asset <> ""%string /\
    forall credential,
      certificate.Generate (Some (to_models asset)) (w_GenerateNow w)
        = (Some credential, None) ->
      certificate.AuthenticityNarrative (certificate.credentialSubject credential)
        = Narrative asset.
Proof.
  intros Horacle.
  assert (Hgen : forall asset credential,
            Narrative asset <> ""%string ->
            certificate.Generate (Some (to_models asset)) (w_GenerateNow w)
              = (Some credential, None) ->
            certificate.AuthenticityNarrative (certificate.credentialSubject credential)
              = Narrative asset).
  { intros asset credential Hne. unfold certificate.Generate, to_models.
    cbn [models.Narrative models.RawAnalysis].
    destruct (String.eqb_spec (Narrative asset) "") as [|_]; [contradiction|].
    intros [= <-]. reflexivity. }
  unfold_all; reduce; repeat step.
  all: first [left; reflexivity | right].
  all: eexists; (split; [rewrite ?lookup_insert_eq; reflexivity|]).
  all: match goal with
       | |- ?P /\ _ => assert (Hne : P); [|split; [exact Hne | intros c; apply Hgen; exact Hne]]
       end.
  all: reduce.
  all: first
    [ eapply parseAnalysis_narrative_nonempty; eassumption
    | match goal with
      | Ha : w_getAuthenticityAnalysis _ ?img = (_, None) |- _ =>
        destruct (Horacle img) as [sv Hsv]; rewrite Hsv in Ha;
        exact (getAuthenticityAnalysis_text _ _ _ Ha)
      end ].
Qed.

End Artifacts.

Section ArtifactsExamples.
Import faiss flat worker stages.

Lemma processImage_complete_example :
  exists asset credential,
    assets (snd (processImage sample.world_ok "user-456" "asset-9" sample.initial))
      !! "asset-9"%string = Some asset /\
    ID asset = "asset-9"%string /\
    TrillianLeafIndex asset = 7 /\
    certificate.Generate (Some (to_models asset)) sample.noon = (Some credential, None) /\
    certificates (snd (processImage sample.world_ok "user-456" "asset-9" sample.initial))
      !! "certificates/asset-9.json"%string = Some [x7b; x7d] /\
    leaves (snd (processImage sample.world_ok "user-456" "asset-9" sample.initial))
      = [sha256.Sum256 [123; 125]] /\
    badges (snd (processImage sample.world_ok "user-456" "asset-9" sample.initial))
      !! "badges/asset-9.png"%string = Some [x89].
Proof.
  apply (processImage_complete sample.world_ok "user-456" "asset-9" sample.initial).
  unfold smooth, fetched, analysisErr, embeddingErr.
  repeat split; try reflexivity; try discriminate.
Defined.

Lemma processImage_narrative_example :
  assets (snd (processImage scenario.world_vertex "user-456" "asset-9" sample.initial))
    = assets sample.initial \/
  exists asset,
    assets (snd (processImage scenario.world_vertex "user-456" "asset-9" sample.initial))
      !! "asset-9"%string = Some asset /\
    Narrative asset <> ""%string /\
    forall credential,
      certificate.Generate (Some (to_models asset)) sample.noon = (Some credential, None) ->
      certificate.AuthenticityNarrative (certificate.credentialSubject credential)
        = Narrative asset.
Proof.
  apply (processImage_narrative scenario.world_vertex "user-456" "asset-9" sample.initial).
  intros imageData. exists scenario.service. reflexivity.
Defined.

End ArtifactsExamples.

(** ** The format of the digests *)
Section Digest.
Import sha256 digest.

Lemma length_round (st : list Z) (kw : Z * Z) : length (round st kw) = length st.
Proof.
  unfold round.
  destruct st as [|a [|b [|c [|d [|e [|f [|g [|h [|x st]]]]]]]]]; reflexivity.
Qed.

Lemma length_fold_round (kws : list (Z * Z)) :
  forall st : list Z, length (fold_left round kws st) = length st.
Proof.
  induction kws as [|kw kws IH]; intros st; [reflexivity|].
  cbn [fold_left]. rewrite IH. apply length_round.
Qed.

Lemma length_block (st ws : list Z) : length (block st ws) = length st.
Proof.
  unfold block. rewrite length_map, length_combine, length_fold_round. lia.
Qed.

Lemma length_blocks (fuel : nat) : forall st ws : list Z,
  length (blocks fuel st ws) = length st.
Proof.
  induction fuel as [|fuel IH]; intros st ws; [reflexivity|].
  cbn [blocks]. destruct ws; [reflexivity|]. rewrite IH. apply length_block.
Qed.

Lemma be_bytes_4 (x : Z) :
  be_bytes 4 x = [Z.shiftr x 24 mod 256; Z.shiftr x 16 mod 256;
                  Z.shiftr x 8 mod 256; Z.shiftr x 0 mod 256].
Proof. reflexivity. Qed.

Lemma Sum256_words (data : list Z) :
  exists a b c d e f g h,
    Sum256 data = be_bytes 4 a ++ be_bytes 4 b ++ be_bytes 4 c ++ be_bytes 4 d
                  ++ be_bytes 4 e ++ be_bytes 4 f ++ be_bytes 4 g ++ be_bytes 4 h.
Proof.
  unfold Sum256.
  pose proof (length_blocks (length (be_words (pad data))) H0 (be_words (pad data))) as Hl.
  destruct (blocks _ H0 _) as [|a [|b [|c [|d [|e [|f [|g [|h [|x st]]]]]]]]];
    try discriminate Hl.
  exists a, b, c, d, e, f, g, h. cbn [flat_map]. rewrite app_nil_r. reflexivity.
Qed.

(** A digest has 32 bytes. *)
Lemma Sum256_bytes (data : list Z) :
  length (Sum256 data) = 32%nat /\ Forall (fun b => 0 <= b < 256) (Sum256 data).
Proof.
  destruct (Sum256_words data) as (a & b & c & d & e & f & g & h & ->).
  rewrite !be_bytes_4. split; [reflexivity|].
  repeat (apply Forall_cons; split; [apply Z.mod_pos_bound; lia|]). constructor.
Qed.

Lemma hex_digit_ok (x : Z) : 0 <= x < 16 -> is_hex_digit (hex_digit x) = true.
Proof.
  intros Hx.
  assert (Hcases : x = 0 \/ x = 1 \/ x = 2 \/ x = 3 \/ x = 4 \/ x = 5 \/ x = 6 \/ x = 7 \/
                   x = 8 \/ x = 9 \/ x = 10 \/ x = 11 \/ x = 12 \/ x = 13 \/ x = 14 \/ x = 15)
    by lia.
  repeat (destruct Hcases as [->|Hcases]; [reflexivity|]). subst x. reflexivity.
Qed.

Lemma hex_format (bs : list Z) :
  Forall (fun b => 0 <= b < 256) bs ->
  length (list_ascii_of_string (hex bs)) = (2 * length bs)%nat /\
  Forall (fun c => is_hex_digit c = true) (list_ascii_of_string (hex bs)).
Proof.
  unfold hex. rewrite list_ascii_of_string_of_list.
  induction 1 as [|b bs Hb _ [IHl IHf]]; [split; [reflexivity | constructor]|].
  cbn [flat_map app length]. split; [rewrite IHl; lia|].
  constructor; [apply hex_digit_ok; split; [apply Z.div_pos; lia | apply Z.div_lt_upper_bound; lia]|].
  constructor; [apply hex_digit_ok; apply Z.mod_pos_bound; lia | exact IHf].
Qed.

(** The proof value of every credential that [Generate] makes is a text of
    64 lower-case hexadecimal digits, whatever the asset holds. *)
Theorem Generate_proofValue_format (asset : models.Asset) (now : time.Time) :
  exists credential,
    certificate.Generate (Some asset) now = (Some credential, None) /\
    length (list_ascii_of_string
              (certificate.ProofValue (certificate.proof credential))) = 64%nat /\
    Forall (fun c => is_hex_digit c = true)
      (list_ascii_of_string (certificate.ProofValue (certificate.proof credential))).
Proof.
  eexists. split; [reflexivity|]. cbn [certificate.proof certificate.ProofValue].
  destruct (Sum256_bytes (bytes_of_string
              (models.ID asset +:+ time.FormatRFC3339 (models.CreatedAt asset))))
    as [Hlen Hall].
  destruct (hex_format _ Hall) as [Hl Hf]. rewrite Hlen in Hl. split; assumption.
Qed.

End Digest.

(** ** Answers in the expected layout *)
Section Layout.
Import regexp matching analysis strconv.

Section Equations.
Context {A : Type}.
Implicit Types (k : list ascii -> option (list ascii) -> option A).

Lemma exec_Seq (r1 r2 : regex) s cap k :
  exec (Seq r1 r2) s cap k = exec r1 s cap (fun s' cap' => exec r2 s' cap' k).
Proof. reflexivity. Qed.

Lemma exec_Alt (r1 r2 : regex) s cap k :
  exec (Alt r1 r2) s cap k = orelse (exec r1 s cap k) (fun _ => exec r2 s cap k).
Proof. reflexivity. Qed.

Lemma exec_Empty s cap k : exec Empty s cap k = k s cap.
Proof. reflexivity. Qed.

Lemma exec_Class_cons (p : ascii -> bool) (c : ascii) s cap k :
  exec (Class p) (c :: s) cap k = if p c then k s cap else None.
Proof. reflexivity. Qed.

Lemma exec_Class_nil (p : ascii -> bool) cap k : exec (Class p) [] cap k = None.
Proof. reflexivity. Qed.

Lemma exec_Group (r : regex) s cap k :
  exec (Group r) s cap k
    = exec r s cap (fun s' _ => k s' (Some (take (length s - length s') s))).
Proof. reflexivity. Qed.

Lemma exec_EndText_nil cap k : exec EndText [] cap k = k [] cap.
Proof. reflexivity. Qed.

Lemma exec_EndText_cons (c : ascii) s cap k : exec EndText (c :: s) cap k = None.
Proof. reflexivity. Qed.

End Equations.

Section Repetitions.
Context {A : Type}.
Variable p : ascii -> bool.
Variable k : list ascii -> option (list ascii) -> option A.

Lemma exec_Star_greedy (s : list ascii) (cap : option (list ascii)) :
  exec (Star true (Class p)) s cap k = greedy p k s cap.
Proof.
  cbn [exec].
  match goal with
  | |- ?L (length s) s cap = _ => set (loop := L)
  end.
  assert (Hloop : forall fuel s, (length s <= fuel)%nat -> loop fuel s cap = greedy p k s cap).
  { clear s. induction fuel as [|fuel IH]; intros s Hs.
    - destruct s; [reflexivity | cbn in Hs; lia].
    - change (loop (S fuel) s cap)
        with (orelse (exec (Class p) s cap (fun s' cap' =>
                        if (length s' <? length s)%nat then loop fuel s' cap' else None))
                     (fun _ => k s cap)).
      destruct s as [|c s]; [reflexivity|]. cbn [exec greedy].
      destruct (p c); [|reflexivity].
      replace (length s <? length (c :: s))%nat with true
        by (symmetry; apply Nat.ltb_lt; cbn; lia).
      rewrite IH by (cbn in Hs; lia). reflexivity. }
  apply Hloop. lia.
Qed.

Lemma exec_Star_lazy (s : list ascii) (cap : option (list ascii)) :
  exec (Star false (Class p)) s cap k = lazy p k s cap.
Proof.
  cbn [exec].
  match goal with
  | |- ?L (length s) s cap = _ => set (loop := L)
  end.
  assert (Hloop : forall fuel s, (length s <= fuel)%nat -> loop fuel s cap = lazy p k s cap).
  { clear s. induction fuel as [|fuel IH]; intros s Hs.
    - destruct s; [|cbn in Hs; lia]. cbn [lazy]. unfold orelse.
      change (loop 0%nat [] cap) with (k [] cap). destruct (k [] cap); reflexivity.
    - change (loop (S fuel) s cap)
        with (orelse (k s cap)
                (fun _ => exec (Class p) s cap (fun s' cap' =>
                            if (length s' <? length s)%nat then loop fuel s' cap' else None))).
      destruct s as [|c s]; [reflexivity|]. cbn [exec lazy].
      destruct (k (c :: s) cap); [reflexivity|]. cbn [orelse].
      destruct (p c); [|reflexivity].
      replace (length s <? length (c :: s))%nat with true
        by (symmetry; apply Nat.ltb_lt; cbn; lia).
      apply IH. cbn in Hs. lia. }
  apply Hloop. lia.
Qed.

(** A greedy repetition over a run of the class that ends before a
    character outside it: what follows is tried after the whole run first. *)
Lemma greedy_run (run rest : list ascii) (cap : option (list ascii)) (a : A) :
  Forall (fun c => p c = true) run ->
  k rest cap = Some a ->
  match rest with c :: _ => p c = false | [] => True end ->
  greedy p k (run ++ rest) cap = Some a.
Proof.
  intros Hrun Hk Hrest. induction Hrun as [|c run Hc _ IH].
  - cbn [app]. destruct rest as [|c rest]; [exact Hk|]. cbn [greedy]. rewrite Hrest. exact Hk.
  - cbn [app greedy]. rewrite Hc, IH. reflexivity.
Qed.

(** A lazy repetition takes the shortest run after which what follows
    succeeds. *)
Lemma lazy_run (run rest : list ascii) (cap : option (list ascii)) (a : A) :
  Forall (fun c => p c = true) run ->
  (forall c s', (exists pre, run ++ rest = pre ++ c :: s' /\ (length pre < length run)%nat) ->
     k (c :: s') cap = None) ->
  k rest cap = Some a ->
  lazy p k (run ++ rest) cap = Some a.
Proof.
  intros Hrun. induction Hrun as [|c run Hc _ IH]; intros Hfail Hk.
  - cbn [app]. destruct rest; cbn [lazy]; rewrite Hk; reflexivity.
  - cbn [app lazy]. rewrite (Hfail c (run ++ rest)).
    + cbn [orelse]. rewrite Hc. apply IH; [|exact Hk].
      intros c' s' (pre & Heq & Hlt). apply Hfail. exists (c :: pre).
      split; [cbn; rewrite Heq; reflexivity | cbn; lia].
    + exists []. split; [reflexivity | cbn; lia].
Qed.

(** A greedy repetition gives back its last character when what follows
    fails after the whole run and succeeds before that character. *)
Lemma greedy_back (run rest : list ascii) (x : ascii) (cap : option (list ascii)) (a : A) :
  Forall (fun c => p c = true) run -> p x = true ->
  match rest with c :: _ => p c = false | [] => True end ->
  k rest cap = None ->
  k (x :: rest) cap = Some a ->
  greedy p k (run ++ x :: rest) cap = Some a.
Proof.
  intros Hrun Hx Hrest Hnone Hk. induction Hrun as [|c run Hc _ IH].
  - cbn [app greedy]. rewrite Hx.
    assert (Hg : greedy p k rest cap = None).
    { destruct rest as [|c rest]; [exact Hnone|]. cbn [greedy]. rewrite Hrest. exact Hnone. }
    rewrite Hg. exact Hk.
  - cbn [app greedy]. rewrite Hc, IH. reflexivity.
Qed.

End Repetitions.

Lemma digit_classes (c : ascii) :
  is_digit c = true ->
  is_space c = false /\ Ascii.eqb "." c = false /\ c <> "j"%char /\ c <> "J"%char.
Proof.
  unfold is_digit, is_space. intros Hd.
  apply andb_true_iff in Hd as [Hlo Hhi]. apply Nat.leb_le in Hlo, Hhi.
  split; [|split; [|split]].
  - repeat (apply orb_false_iff; split); apply Nat.eqb_neq; lia.
  - apply Ascii.eqb_neq. intros <-. vm_compute in Hlo. lia.
  - intros ->. vm_compute in Hhi. lia.
  - intros ->. vm_compute in Hhi. lia.
Qed.

Lemma decimal_text_head (digits : list ascii) :
  decimal_text digits ->
  exists c s, digits = c :: s /\ is_space c = false /\
  Forall (fun c => c <> "j"%char /\ c <> "J"%char) digits.
Proof.
  assert (Hall : forall ds, Forall (fun c => is_digit c = true) ds ->
                   Forall (fun c => c <> "j"%char /\ c <> "J"%char) ds).
  { intros ds Hds. eapply Forall_impl; [exact Hds|].
    intros c Hc. destruct (digit_classes c Hc) as (_ & _ & ? & ?). auto. }
  destruct 1 as [d d1 d2 H1 Hd H2|d d1 d2 H1 Hd H2].
  - assert (Hds : Forall (fun c => is_digit c = true) (d1 ++ d :: d2))
      by (apply Forall_app; split; [assumption | constructor; assumption]).
    destruct (d1 ++ d :: d2) as [|c s] eqn:E; [destruct d1; discriminate|].
    exists c, s. split; [reflexivity|]. split; [|apply Hall; exact Hds].
    apply Forall_cons in Hds as [Hc _]. apply (digit_classes c Hc).
  - assert (Hj : Forall (fun c => c <> "j"%char /\ c <> "J"%char)
                   (d1 ++ "."%char :: d :: d2)).
    { apply Forall_app. split; [apply Hall; assumption|].
      constructor; [split; discriminate|]. apply Hall. constructor; assumption. }
    destruct d1 as [|c d1].
    + exists "."%char, (d :: d2). split; [reflexivity|]. split; [reflexivity | exact Hj].
    + exists c, (d1 ++ "."%char :: d :: d2). split; [reflexivity|]. split; [|exact Hj].
      apply Forall_cons in H1 as [Hc _]. apply (digit_classes c Hc).
Qed.

(** The number pattern takes a decimal text whole when a line break
    follows it. *)
Lemma exec_number {A : Type} (digits rest : list ascii) (cap : option (list ascii))
    (kk : list ascii -> option (list ascii) -> option A) (a : A) :
  decimal_text digits ->
  (forall cap', kk (LF :: rest) cap' = Some a) ->
  exec (Seq (Star true digit) (Seq (Quest (chr ".")) (Plus true digit)))
       (digits ++ LF :: rest) cap kk = Some a.
Proof.
  intros Hdec Hkk. rewrite exec_Seq. unfold digit at 1. rewrite exec_Star_greedy.
  assert (Hplus : forall (d : ascii) (d2 : list ascii) cap',
            is_digit d = true -> Forall (fun c => is_digit c = true) d2 ->
            exec (Plus true digit) (d :: d2 ++ LF :: rest) cap' kk = Some a).
  { intros d d2 cap' Hd Hd2. unfold Plus. rewrite exec_Seq. unfold digit.
    rewrite exec_Class_cons, Hd, exec_Star_greedy.
    apply greedy_run; [exact Hd2 | apply Hkk | reflexivity]. }
  assert (Hfail : forall cap', exec (Plus true digit) (LF :: rest) cap' kk = None).
  { intros cap'. unfold Plus. rewrite exec_Seq. unfold digit.
    rewrite exec_Class_cons. reflexivity. }
  destruct Hdec as [d d1 d2 H1 Hd H2|d d1 d2 H1 Hd H2].
  - (* digits only: the repetition gives back the last digit *)
    assert (Hds : Forall (fun c => is_digit c = true) (d1 ++ d :: d2))
      by (apply Forall_app; split; [assumption | constructor; assumption]).
    destruct (exists_last (l := d1 ++ d :: d2)) as (run & x & Heq);
      [destruct d1; discriminate|].
    rewrite Heq in *. apply Forall_app in Hds as [Hrun Hx].
    apply Forall_cons in Hx as [Hx _].
    rewrite <- app_assoc. cbn [app].
    apply greedy_back; [exact Hrun | exact Hx | reflexivity | |].
    + rewrite exec_Seq. unfold Quest, chr. rewrite exec_Alt, exec_Class_cons.
      change (Ascii.eqb "." LF) with false. cbv iota. cbn [orelse].
      rewrite exec_Empty. apply Hfail.
    + rewrite exec_Seq. unfold Quest, chr. rewrite exec_Alt, exec_Class_cons.
      destruct (digit_classes x Hx) as (_ & -> & _). cbn [orelse].
      rewrite exec_Empty. apply (Hplus x [] cap Hx (List.Forall_nil _)).
  - (* with a point *)
    rewrite <- app_assoc. cbn [app].
    apply greedy_run; [exact H1 | | reflexivity].
    rewrite exec_Seq. unfold Quest, chr. rewrite exec_Alt, exec_Class_cons.
    rewrite Ascii.eqb_refl. rewrite (Hplus d d2 cap Hd H2). reflexivity.
Qed.

Lemma FindStringSubmatch_here (r : regex) (s g : list ascii) :
  match_here r s = Some g -> FindStringSubmatch r s = Some g.
Proof. intros Hm. destruct s; cbn [FindStringSubmatch]; rewrite Hm; reflexivity. Qed.

Lemma length_app_sub {A : Type} (l rest : list A) :
  take (length (l ++ rest) - length rest) (l ++ rest) = l.
Proof.
  rewrite length_app. replace (length l + length rest - length rest)%nat with (length l) by lia.
  apply take_app_length.
Qed.

Lemma is_space_eq : space = Class is_space.
Proof. reflexivity. Qed.

(** The score pattern finds the number of the answer. *)
Lemma scoreRegex_formatted (digits rest : list ascii) :
  decimal_text digits ->
  FindStringSubmatch scoreRegex
    (list_ascii_of_string "Confidence Score: " ++ digits ++ LF :: rest) = Some digits.
Proof.
  intros Hdec. apply FindStringSubmatch_here. unfold match_here, scoreRegex.
  rewrite exec_Seq, exec_lit.
  change (strip_label "confidence"
            (list_ascii_of_string "Confidence Score: " ++ digits ++ LF :: rest))
    with (Some (list_ascii_of_string " Score: " ++ digits ++ LF :: rest)).
  cbv beta iota. unfold Plus at 1. do 2 rewrite exec_Seq. rewrite is_space_eq.
  cbn [list_ascii_of_string app]. rewrite exec_Class_cons.
  change (is_space " ") with true. cbv iota.
  rewrite exec_Star_greedy. cbn [greedy].
  change (is_space "S") with false. cbv iota.
  rewrite exec_Seq, exec_lit.
  change (strip_label "score:" ("S"%char :: "c"%char :: "o"%char :: "r"%char :: "e"%char
                                 :: ":"%char :: " "%char :: digits ++ LF :: rest))
    with (Some (" "%char :: digits ++ LF :: rest)).
  cbv beta iota. rewrite exec_Seq, exec_Star_greedy.
  destruct (decimal_text_head digits Hdec) as (c & s & Hd & Hsp & _).
  cbn [greedy]. change (is_space " ") with true. cbv iota.
  assert (Hg : forall K : list ascii -> option (list ascii) -> option (list ascii),
            greedy is_space K (digits ++ LF :: rest) None = K (digits ++ LF :: rest) None).
  { intros K. rewrite Hd. cbn [app greedy]. rewrite Hsp. reflexivity. }
  rewrite Hg. rewrite exec_Group.
  rewrite (exec_number digits rest None _ digits Hdec); [reflexivity|].
  intros cap'. cbn [default]. f_equal.
  apply (length_app_sub digits (LF :: rest)).
Qed.

Lemma strip_label_not_j (c : ascii) (s : list ascii) :
  c <> "j"%char -> c <> "J"%char -> strip_label "justification:" (c :: s) = None.
Proof.
  intros Hj HJ. cbn [strip_label strip_fold].
  replace (Ascii.eqb "j" c) with false by (symmetry; apply Ascii.eqb_neq; congruence).
  replace (is_upper_of "j" c) with false; [reflexivity|].
  symmetry. unfold is_upper_of. change (nat_of_ascii "j") with 106%nat.
  cbn [Nat.leb andb Nat.sub]. apply Nat.eqb_neq. intros Hn.
  apply HJ. rewrite <- (ascii_nat_embedding c), Hn. reflexivity.
Qed.

Lemma FindStringSubmatch_skip (r : regex) (pre s : list ascii) :
  Forall (fun c => c <> "j"%char /\ c <> "J"%char) pre ->
  FindStringSubmatch (Seq (lit "justification:") r) (pre ++ s)
    = FindStringSubmatch (Seq (lit "justification:") r) s.
Proof.
  induction 1 as [|c pre [Hj HJ] _ IH]; [reflexivity|].
  cbn [app FindStringSubmatch]. unfold match_here at 1.
  rewrite exec_Seq, exec_lit, strip_label_not_j by assumption. exact IH.
Qed.

Lemma dot_eq : dot = Class not_newline.
Proof. reflexivity. Qed.

(** The narrative pattern finds the line after the label. *)
Lemma narrativeRegex_formatted (digits narrative : list ascii) :
  decimal_text digits ->
  Forall (fun c => not_newline c = true) narrative ->
  (exists c s, narrative = c :: s /\ is_space c = false) ->
  FindStringSubmatch narrativeRegex
    (list_ascii_of_string "Confidence Score: " ++ digits
       ++ [LF; LF] ++ list_ascii_of_string "Justification: " ++ narrative)
    = Some narrative.
Proof.
  intros Hdec Hline (c & s & -> & Hsp).
  apply Forall_cons in Hline as [Hc Hs].
  destruct (decimal_text_head digits Hdec) as (_ & _ & _ & _ & Hj).
  unfold narrativeRegex.
  replace (list_ascii_of_string "Confidence Score: " ++ digits
             ++ [LF; LF] ++ list_ascii_of_string "Justification: " ++ c :: s)
    with ((list_ascii_of_string "Confidence Score: " ++ digits ++ [LF; LF])
            ++ list_ascii_of_string "Justification: " ++ c :: s)
    by (rewrite <- !app_assoc; reflexivity).
  rewrite FindStringSubmatch_skip.
  2:{ apply Forall_app. split; [repeat constructor; discriminate|].
      apply Forall_app. split; [exact Hj | repeat constructor; discriminate]. }
  apply FindStringSubmatch_here. unfold match_here.
  rewrite exec_Seq, exec_lit.
  change (strip_label "justification:" (list_ascii_of_string "Justification: " ++ c :: s))
    with (Some (" "%char :: c :: s)).
  cbv beta iota. rewrite exec_Seq, is_space_eq, exec_Star_greedy.
  cbn [greedy]. change (is_space " ") with true. cbv iota. rewrite Hsp.
  assert (Hk : exec (Seq (Group (Plus false dot)) (Alt (Seq newline newline) EndText))
                 (c :: s) None (fun _ cap => Some (default [] cap)) = Some (c :: s)).
  { rewrite exec_Seq, exec_Group. unfold Plus. rewrite exec_Seq, dot_eq, exec_Class_cons, Hc.
    rewrite exec_Star_lazy.
    rewrite <- (app_nil_r s) at 1.
    apply lazy_run; [exact Hs | |].
    - intros c' s' (pre & Heq & _). rewrite app_nil_r in Heq.
      assert (Hc' : not_newline c' = true).
      { rewrite Heq in Hs. apply Forall_app in Hs as [_ Hs].
        apply Forall_cons in Hs as [Hc' _]. exact Hc'. }
      rewrite exec_Alt. unfold newline, chr. rewrite exec_Seq, exec_Class_cons.
      replace (Ascii.eqb (ascii_of_nat 10) c') with false.
      + cbn [orelse]. apply exec_EndText_cons.
      + symmetry. apply Ascii.eqb_neq. intros <-. discriminate Hc'.
    - rewrite exec_Alt. unfold newline, chr. rewrite exec_Seq, exec_Class_nil.
      cbn [orelse]. rewrite exec_EndText_nil. cbn [default length]. f_equal.
      rewrite Nat.sub_0_r. apply take_ge. reflexivity. }
  rewrite Hk. reflexivity.
Qed.

(** An answer in the expected layout is read back as written.  For a
    decimal number and a justification of one line that does not begin with
    white space, [parseAnalysis] of the score line, a blank line and the
    justification line finds that number and returns that justification,
    letter for letter, unless the number is too large for a [float64]. *)
Theorem parseAnalysis_formatted (digits narrative : list ascii) :
  decimal_text digits ->
  Forall (fun c => not_newline c = true) narrative ->
  (exists c s, narrative = c :: s /\ is_space c = false) ->
  exists n k,
    parse_decimal digits = Some (n, k) /\
    ((forall sg, float64_of_decimal n k <> S754_infinity sg) ->
     parseAnalysis (formatted digits narrative)
       = (int_of_float64 (float64_mul (float64_of_decimal n k) float64_hundred),
          string_of_list_ascii narrative, None)).
Proof.
  intros Hdec Hline Hhead.
  destruct (parse_decimal_text digits Hdec) as (n & k & Hp).
  exists n, k. split; [exact Hp|]. intros Hfin.
  rewrite parseAnalysis_inv. unfold formatted. rewrite list_ascii_of_string_of_list.
  rewrite (narrativeRegex_formatted digits narrative Hdec Hline Hhead).
  change ([LF; LF] ++ list_ascii_of_string "Justification: " ++ narrative)
    with (LF :: (LF :: list_ascii_of_string "Justification: " ++ narrative)).
  rewrite (scoreRegex_formatted digits _ Hdec).
  unfold ParseFloat. rewrite Hp.
  destruct (float64_of_decimal n k) as [sg|sg| |sg m e]; try reflexivity.
  exfalso. apply (Hfin sg). reflexivity.
Qed.

Lemma parseAnalysis_formatted_example :
  parseAnalysis
    (formatted (list_ascii_of_string "0.98")
               (list_ascii_of_string "The lighting and shadows appear natural."))
    = (98, "The lighting and shadows appear natural."%string, None).
Proof.
  destruct (parseAnalysis_formatted (list_ascii_of_string "0.98")
              (list_ascii_of_string "The lighting and shadows appear natural."))
    as (n & k & Hp & Hparse).
  - apply (decimal_point "9" ["0"%char] ["8"%char]); repeat constructor.
  - repeat constructor.
  - eexists _, _. split; reflexivity.
  - vm_compute in Hp. injection Hp as <- <-.
    rewrite Hparse; [vm_compute; reflexivity|].
    intros sg. vm_compute. discriminate.
Defined.

Section Greedy.
Context {A : Type}.
Variable p : ascii -> bool.
Variable k : list ascii -> option (list ascii) -> option A.

Lemma greedy_None (s : list ascii) (cap : option (list ascii)) :
  greedy p k s cap = None -> k s cap = None.
Proof.
  destruct s as [|c s]; cbn [greedy]; [auto|]. destruct (p c); [|auto].
  unfold orelse. destruct (greedy p k s cap); [discriminate | auto].
Qed.

(** Where a greedy repetition stops: after a run of the class, at the
    longest run after which what follows succeeds. *)
Lemma greedy_split (s : list ascii) (cap : option (list ascii)) (a : A) :
  greedy p k s cap = Some a ->
  exists run rest,
    s = run ++ rest /\ Forall (fun c => p c = true) run /\ k rest cap = Some a /\
    (forall c rest', rest = c :: rest' -> p c = true -> k rest' cap = None).
Proof.
  induction s as [|c s IH]; cbn [greedy].
  - intros Hk. exists [], []. repeat split; [constructor | exact Hk | discriminate].
  - destruct (p c) eqn:Hc.
    + unfold orelse. destruct (greedy p k s cap) as [a'|] eqn:Hg.
      * intros [= ->]. destruct (IH eq_refl) as (run & rest & -> & Hrun & Hk & Hmax).
        exists (c :: run), rest. repeat split; [constructor; assumption | exact Hk | exact Hmax].
      * intros Hk. exists [], (c :: s). repeat split; [constructor | exact Hk |].
        intros c' rest' [= <- <-] _. apply greedy_None. exact Hg.
    + intros Hk. exists [], (c :: s). repeat split; [constructor | exact Hk |].
      intros c' rest' [= <- <-] Hc'. congruence.
Qed.

End Greedy.

(** The pattern after [justification:\s*], on a line that a blank line or
    the end of the text follows: the group takes the line. *)
Lemma narrative_line_taken (c : ascii) (cs after : list ascii) (cap : option (list ascii)) :
  not_newline c = true -> Forall (fun x => not_newline x = true) cs ->
  after = [] \/ (exists rest, after = LF :: LF :: rest) ->
  exec (Seq (Group (Plus false dot)) (Alt (Seq newline newline) EndText))
       (c :: cs ++ after) cap (fun _ cap' => Some (default [] cap'))
    = Some (c :: cs).
Proof.
  intros Hc Hcs Hafter.
  rewrite exec_Seq, exec_Group. unfold Plus. rewrite exec_Seq, dot_eq, exec_Class_cons, Hc.
  rewrite exec_Star_lazy.
  apply lazy_run; [exact Hcs | |].
  - intros c' s' (pre & Heq & Hlt).
    assert (Hc' : not_newline c' = true).
    { assert (Hl : (cs ++ after) !! length pre = Some c')
        by (rewrite Heq; apply list_lookup_middle; reflexivity).
      rewrite lookup_app_l in Hl by exact Hlt.
      exact (proj1 (Forall_lookup _ _) Hcs _ _ Hl). }
    rewrite exec_Alt. unfold newline, chr. rewrite exec_Seq, exec_Class_cons.
    replace (Ascii.eqb (ascii_of_nat 10) c') with false.
    + cbn [orelse]. apply exec_EndText_cons.
    + symmetry. apply Ascii.eqb_neq. intros <-. discriminate Hc'.
  - assert (Hcap : take (length (c :: cs ++ after) - length after) (c :: cs ++ after) = c :: cs)
      by (apply (length_app_sub (c :: cs) after)).
    rewrite Hcap. rewrite exec_Alt. unfold newline, chr.
    destruct Hafter as [-> | [rest ->]].
    + rewrite exec_Seq, exec_Class_nil. cbn [orelse]. rewrite exec_EndText_nil. reflexivity.
    + rewrite !exec_Seq, !exec_Class_cons.
      change (Ascii.eqb (ascii_of_nat 10) LF) with true. reflexivity.
Qed.

Lemma narrative_line_shape (s narr : list ascii) (cap : option (list ascii)) :
  exec (Seq (Group (Plus false dot)) (Alt (Seq newline newline) EndText))
       s cap (fun _ cap' => Some (default [] cap')) = Some narr ->
  exists after,
    s = narr ++ after /\ narr <> [] /\
    Forall (fun c => not_newline c = true) narr /\
    (after = [] \/ exists rest, after = LF :: LF :: rest).
Proof.
  intros Hm. apply exec_sound in Hm. destruct Hm as (s' & cap' & Hm & Hg).
  injection Hg as <-.
  inversion Hm as [| |r1 r2 s0 c0 s2 c2 s3 c3 Hgrp Hend| | | | | |]; subst.
  apply matches_Group_inv in Hgrp.
  destruct Hgrp as (g & cap1 & -> & -> & Hin).
  pose proof (matches_group_free _ _ _ _ _ Hend eq_refl) as ->. cbn [default].
  apply matches_Plus_Class in Hin. destruct Hin as (_ & c & cs & Hg & Hc & Hcs).
  assert (g = c :: cs).
  { apply (app_inv_tail s2). rewrite Hg. reflexivity. }
  subst g.
  exists s2. split; [reflexivity|]. split; [discriminate|]. split; [constructor; assumption|].
  inversion Hend as [| | |r1 r2 s0 c0 s7 c7 Hnn|r1 r2 s0 c0 s7 c7 Hz| | | |]; subst.
  - right. unfold newline, chr in Hnn.
    inversion Hnn as [| |r1 r2 s0 c0 s4 c4 s5 c5 Hn1 Hn2| | | | | |]; subst.
    inversion Hn1 as [|p x s0 c0 Hp1| | | | | | |]; subst.
    inversion Hn2 as [|p x' s0 c0 Hp2| | | | | | |]; subst.
    apply Ascii.eqb_eq in Hp1, Hp2. subst x x'. exists s'. reflexivity.
  - left. inversion Hz; subst. reflexivity.
Qed.

(** What the narrative pattern captures, with the place where [\s*]
    stops. *)
Lemma narrativeRegex_capture (s narr : list ascii) :
  FindStringSubmatch narrativeRegex s = Some narr ->
  exists pre lbl sp after,
    s = pre ++ lbl ++ sp ++ narr ++ after /\
    strip_label "justification:" (lbl ++ sp ++ narr ++ after)
      = Some (sp ++ narr ++ after) /\
    Forall (fun c => is_space c = true) sp /\
    narr <> [] /\
    Forall (fun c => not_newline c = true) narr /\
    (after = [] \/ exists rest, after = LF :: LF :: rest) /\
    (forall c cs, narr = c :: cs -> is_space c = true -> cs = []).
Proof.
  intros Hf. destruct (FindStringSubmatch_inv _ _ _ Hf) as (pre & t & -> & Hm).
  clear Hf. unfold match_here, narrativeRegex in Hm.
  rewrite exec_Seq, exec_lit in Hm.
  destruct (strip_label "justification:" t) as [t1|] eqn:Hlbl; [|discriminate].
  destruct (strip_label_suffix _ _ _ Hlbl) as [lbl ->].
  rewrite exec_Seq, is_space_eq, exec_Star_greedy in Hm.
  apply greedy_split in Hm. destruct Hm as (sp & rest & -> & Hsp & Hk & Hmax).
  destruct (narrative_line_shape _ _ _ Hk) as (after & -> & Hne & Hline & Hafter).
  exists pre, lbl, sp, after. repeat (split; [assumption || reflexivity|]).
  intros c cs -> Hc. destruct cs as [|c2 cs]; [reflexivity|]. exfalso.
  apply Forall_cons in Hline as [_ Hline]. apply Forall_cons in Hline as [Hc2 Hcs].
  specialize (Hmax c ((c2 :: cs) ++ after) eq_refl Hc).
  cbn [app] in Hmax. rewrite narrative_line_taken in Hmax by assumption.
  discriminate Hmax.
Qed.

(** The narrative that [parseAnalysis] returns is a piece of the text as it
    stands: an occurrence of the label [justification:] (in any letter
    case), then a run of white space that may be empty, then the narrative,
    then a blank line or the end of the text.  The narrative is not empty
    and has no line break in it.  The run of white space is all the white
    space after the label, so that the narrative does not begin with white
    space, with one exception: a narrative that begins with white space is
    that one character and nothing more (the run gives back its last
    character when the pattern matches in no other way). *)
Theorem parseAnalysis_narrative (rawText : string) (score : Z) (narrative : string) :
  parseAnalysis rawText = (score, narrative, None) ->
  exists pre lbl sp after,
    list_ascii_of_string rawText
      = pre ++ lbl ++ sp ++ list_ascii_of_string narrative ++ after /\
    strip_label "justification:" (lbl ++ sp ++ list_ascii_of_string narrative ++ after)
      = Some (sp ++ list_ascii_of_string narrative ++ after) /\
    Forall (fun c => is_space c = true) sp /\
    narrative <> ""%string /\
    Forall (fun c => not_newline c = true) (list_ascii_of_string narrative) /\
    (after = [] \/ exists rest, after = LF :: LF :: rest) /\
    (forall c cs, list_ascii_of_string narrative = c :: cs -> is_space c = true -> cs = []).
Proof.
  rewrite parseAnalysis_inv.
  destruct (FindStringSubmatch scoreRegex _) as [digits|]; [|discriminate].
  destruct (ParseFloat digits) as [f [e|]]; [discriminate|].
  destruct (FindStringSubmatch narrativeRegex _) as [narr|] eqn:Hn; [|discriminate].
  intros [= _ <-]. rewrite list_ascii_of_string_of_list.
  destruct (narrativeRegex_capture _ _ Hn)
    as (pre & lbl & sp & after & H1 & H2 & H3 & H4 & H5 & H6 & H7).
  exists pre, lbl, sp, after. repeat (split; [assumption|]).
  split; [|repeat split; assumption].
  destruct narr; [contradiction | discriminate].
Qed.

Lemma parseAnalysis_narrative_example :
  exists pre lbl sp after,
    list_ascii_of_string sample.analysisText
      = pre ++ lbl ++ sp
        ++ list_ascii_of_string "The lighting and shadows appear natural." ++ after /\
    strip_label "justification:"
      (lbl ++ sp ++ list_ascii_of_string "The lighting and shadows appear natural." ++ after)
      = Some (sp ++ list_ascii_of_string "The lighting and shadows appear natural." ++ after) /\
    Forall (fun c => is_space c = true) sp /\
    "The lighting and shadows appear natural."%string <> ""%string /\
    Forall (fun c => not_newline c = true)
      (list_ascii_of_string "The lighting and shadows appear natural.") /\
    (after = [] \/ exists rest, after = LF :: LF :: rest) /\
    (forall c cs,
       list_ascii_of_string "The lighting and shadows appear natural." = c :: cs ->
       is_space c = true -> cs = []).
Proof.
  apply (parseAnalysis_narrative sample.analysisText 98). vm_compute. reflexivity.
Defined.

End Layout.

(** ** Load, Save and the id map *)
Section IndexLifecycle.
Import faiss index.
Context {I : Type} `{Index I}.

Implicit Types (m : IndexManager I) (idx : I) (v : list float32).

Lemma Load_inv (ft : Faults) (gcs : gmap (string * string) (list byte)) m
    (bucketName objectName : string) m' (err : option error) :
  Load ft gcs m bucketName objectName = (m', err) ->
  ((exists e, err = Some e) /\ m' = m) \/
  (err = None /\ m' = m /\
   NewReader ft gcs bucketName objectName = inr ErrObjectNotExist) \/
  (err = None /\
   exists blob idx,
     gcs !! (bucketName, objectName) = Some blob /\
     ReadIndex blob = inl idx /\
     m' = {| index := Some idx; idMap := idMap m |}).
Proof.
  unfold Load. destruct (f_NewClient ft) as [e|]; [intros [= <- <-]; left; eauto|].
  destruct (NewReader ft gcs bucketName objectName) as [blob|e] eqn:Hr.
  - unfold NewReader in Hr. destruct (f_NewReader ft); [discriminate|].
    destruct (gcs !! (bucketName, objectName)) as [blob'|] eqn:Hg; [|discriminate].
    injection Hr as ->.
    destruct (f_CreateTemp ft) as [e|]; [intros [= <- <-]; left; eauto|].
    destruct (f_Copy ft) as [[n e]|]; [intros [= <- <-]; left; eauto|].
    destruct (ReadIndex blob) as [idx|e] eqn:Hread; intros [= <- <-].
    + right. right. split; [reflexivity|]. exists blob, idx. auto.
    + left. eauto.
  - destruct e; intros [= <- <-]; try (left; split; [eexists; reflexivity | reflexivity]).
    right. left. auto.
Qed.


(** [Load] ends in one of three ways.  It fails, and the manager is as it
    was.  Or it reports no error although nothing was loaded: the object is
    missing, and the manager is as it was.  Or it installs the index that
    [ReadIndex] decodes from the bytes of the object.  In every case the
    id map is as it was, and a manager that had an index still has one. *)
Theorem Load_outcome (ft : Faults) (gcs : gmap (string * string) (list byte)) m
    (bucketName objectName : string) m' (err : option error) :
  Load ft gcs m bucketName objectName = (m', err) ->
  (((exists e, err = Some e) /\ m' = m) \/
   (err = None /\ m' = m /\
    NewReader ft gcs bucketName objectName = inr ErrObjectNotExist) \/
   (err = None /\
    exists blob idx,
      gcs !! (bucketName, objectName) = Some blob /\
      ReadIndex blob = inl idx /\
      index m' = Some idx)) /\
  idMap m' = idMap m /\
  (HasIndex m = true -> HasIndex m' = true).
Proof.
  intros Hload.
  destruct (Load_inv _ _ _ _ _ _ _ Hload)
    as [[He ->]|[(-> & -> & Hmiss)|(-> & blob & idx & Hblob & Hread & ->)]].
  - split; [left; split; [exact He | reflexivity] | split; [reflexivity | auto]].
  - split; [right; left; auto | split; [reflexivity | auto]].
  - split; [right; right; split; [reflexivity|]; exists blob, idx; auto|].
    split; reflexivity.
Qed.

(** [Save] writes at most the object it was asked to write: every other
    object of the store is as it was.  When it reports no error, the manager
    has an index and the object holds the bytes that [WriteIndex] gives
    for it.  On a manager without an index it fails and the store is as it
    was. *)
Theorem Save_outcome (ft : Faults) (gcs : gmap (string * string) (list byte)) m
    (bucketName objectName : string) :
  let '(gcs', err) := Save ft gcs m bucketName objectName in
  (forall key, key <> (bucketName, objectName) -> gcs' !! key = gcs !! key) /\
  (err = None ->
   exists idx blob, index m = Some idx /\ WriteIndex idx = inl blob /\
                    gcs' !! (bucketName, objectName) = Some blob) /\
  (index m = None ->
   gcs' = gcs /\ err = Some (errorString "no index to save: index is nil")).
Proof.
  unfold Save. destruct (index m) as [idx|].
  - destruct (f_CreateTemp ft); [repeat split; (discriminate || auto)|].
    destruct (WriteIndex idx) as [blob|e] eqn:Hw; [|repeat split; (discriminate || auto)].
    destruct (f_Open ft); [repeat split; (discriminate || auto)|].
    destruct (f_NewClient ft); [repeat split; (discriminate || auto)|].
    destruct (f_Copy ft) as [[n e]|].
    + split; [|split; discriminate].
      intros key Hkey. apply lookup_insert_ne. congruence.
    + destruct (f_Close ft); [repeat split; (discriminate || auto)|].
      split; [|split; [|discriminate]].
      * intros key Hkey. apply lookup_insert_ne. congruence.
      * intros _. exists idx, blob. split; [reflexivity|]. split; [exact Hw|].
        apply lookup_insert_eq.
  - split; [auto|]. split; [discriminate | auto].
Qed.

(** After an [Add] that succeeded, [Search] names the new vector by the
    asset id that was given with it, and every other hit by the asset id it
    had before: a hit whose label is the sequence id of the new vector (the
    number of vectors before the [Add]) comes back as the new asset id, any
    other hit as the entry of the old id map, or the empty string. *)
Theorem Add_then_Search m idx (assetID : string) v m' (q : list float32) (k : Z)
    (ds : list float32) (ids : list string) :
  index m = Some idx ->
  Add m assetID v = (m', None) ->
  Search m' q k = (ds, ids, None) ->
  (ids = [] /\ ds = []) \/
  exists idx' labels,
    idx_Add idx v = (idx', None) /\
    idx_Search idx' q k = (ds, labels, None) /\
    length ids = length labels /\
    forall (i : nat) (label : Z), labels !! i = Some label ->
      ids !! i = Some (if decide (label = Ntotal idx) then assetID
                       else label_assetID (idMap m) label).
Proof.
  intros Hidx Hadd Hs.
  destruct (Add_ok_inv _ _ _ _ _ Hidx Hadd) as (idx' & Hlib & Hidx' & Hmap).
  destruct (Search_ids _ _ _ _ _ Hs) as [E|(idx2 & labels & Hi & Hl & ->)];
    [left; exact E|].
  right. rewrite Hidx' in Hi. injection Hi as <-.
  exists idx', labels. split; [exact Hlib|]. split; [exact Hl|].
  split; [apply length_map|].
  intros i label Hlab. rewrite list_lookup_fmap, Hlab. cbn. f_equal.
  unfold label_assetID. rewrite Hmap, idMap_lookup_insert.
  destruct (decide (Ntotal idx = label)) as [<-|Hne].
  - rewrite decide_True by reflexivity. reflexivity.
  - rewrite decide_False by congruence. reflexivity.
Qed.

End IndexLifecycle.

Section IndexLifecycleExamples.
Import faiss index flat.

Lemma Load_outcome_example :
  idMap (fst (Load no_faults scenario.small_store new_manager
                "proofpix-index" "latest.faiss")) = None /\
  HasIndex (fst (Load no_faults scenario.small_store scenario.small
                   "proofpix-index" "latest.faiss")) = true.
Proof.
  split.
  - apply (Load_outcome no_faults scenario.small_store new_manager
             "proofpix-index" "latest.faiss" _ None).
    apply pair_snd. vm_compute. reflexivity.
  - apply (Load_outcome no_faults scenario.small_store scenario.small
             "proofpix-index" "latest.faiss" _ None);
      [apply pair_snd; vm_compute; reflexivity | reflexivity].
Defined.

Lemma Add_then_Search_example :
  (["asset-2"%string; "asset-1"%string] = [] /\ [0; sample.one] = []) \/
  exists idx' labels,
    idx_Add (fst (flat_Add (NewIndexFlatL2 2) [sample.one; sample.two]))
            [sample.one; sample.one] = (idx', None) /\
    idx_Search idx' [sample.one; sample.one] 2 = ([0; sample.one], labels, None) /\
    length ["asset-2"%string; "asset-1"%string] = length labels /\
    forall (i : nat) (label : Z), labels !! i = Some label ->
      ["asset-2"%string; "asset-1"%string] !! i
        = Some (if decide (label = Ntotal (fst (flat_Add (NewIndexFlatL2 2)
                                                  [sample.one; sample.two])))
                then "asset-2"%string
                else label_assetID (idMap scenario.small) label).
Proof.
  apply (Add_then_Search scenario.small
           (fst (flat_Add (NewIndexFlatL2 2) [sample.one; sample.two]))
           "asset-2" [sample.one; sample.one]
           (fst (Add scenario.small "asset-2" [sample.one; sample.one]))
           [sample.one; sample.one] 2).
  - vm_compute. reflexivity.
  - apply pair_snd. vm_compute. reflexivity.
  - vm_compute. reflexivity.
Defined.

End IndexLifecycleExamples.

(** ** The start-up of the worker *)
Section Startup.
Import faiss index firestore index_build startup.
Context {I : Type} `{Index I}.
Variable NewIndexFlatL2 : Z -> I + error.

Lemma Save_ok (ft : Faults) (gcs gcs' : gmap (string * string) (list byte))
    (m : IndexManager I) (bucketName objectName : string) :
  Save ft gcs m bucketName objectName = (gcs', None) ->
  exists idx blob, index m = Some idx /\ WriteIndex idx = inl blob /\
                   gcs' = <[(bucketName, objectName) := blob]> gcs.
Proof.
  unfold Save. destruct (index m) as [idx|]; [|discriminate].
  destruct (f_CreateTemp ft); [discriminate|].
  destruct (WriteIndex idx) as [blob|e] eqn:Hw; [|discriminate].
  destruct (f_Open ft); [discriminate|].
  destruct (f_NewClient ft); [discriminate|].
  destruct (f_Copy ft) as [[n e]|]; [discriminate|].
  destruct (f_Close ft); [discriminate|].
  intros [= <-]. exists idx, blob. auto.
Qed.

(** When [main] gets as far as serving, the manager has an index, and it
    got it in one of two ways.  The snapshot object was there and was
    loaded: then the id map is empty, Firestore was not read and the store
    is as it was.  Or the object was missing, the project variable is set,
    [Build] made index and id map from Firestore, and [Save] stored the
    snapshot of the new index under the name of the object. *)
Theorem main_serving (ftLoad ftSave : Faults) (fs : Firestore)
    (GOOGLE_CLOUD_PROJECT : string) (gcs : gmap (string * string) (list byte))
    (m' : IndexManager I) (gcs' : gmap (string * string) (list byte)) :
  main NewIndexFlatL2 ftLoad ftSave fs GOOGLE_CLOUD_PROJECT gcs = (Serving, m', gcs') ->
  HasIndex m' = true /\
  ((exists blob idx,
      gcs !! (indexBucketName, indexObjectName) = Some blob /\
      ReadIndex blob = inl idx /\
      m' = {| index := Some idx; idMap := None |} /\
      gcs' = gcs) \/
   (NewReader ftLoad gcs indexBucketName indexObjectName = inr ErrObjectNotExist /\
    GOOGLE_CLOUD_PROJECT <> ""%string /\
    Build NewIndexFlatL2 fs new_manager GOOGLE_CLOUD_PROJECT assetsCollection
      = (m', None) /\
    exists idx blob,
      index m' = Some idx /\ WriteIndex idx = inl blob /\
      gcs' = <[(indexBucketName, indexObjectName) := blob]> gcs)).
Proof.
  unfold main.
  destruct (Load ftLoad gcs new_manager indexBucketName indexObjectName) as [m1 err] eqn:Hload.
  destruct (Load_inv _ _ _ _ _ _ _ Hload)
    as [[[e ->] ->]|[(-> & -> & Hmiss)|(-> & blob & idx & Hblob & Hread & ->)]].
  - discriminate.
  - cbn [HasIndex index new_manager negb].
    destruct (String.eqb_spec GOOGLE_CLOUD_PROJECT "") as [|Hproj]; [discriminate|].
    destruct (Build NewIndexFlatL2 fs new_manager GOOGLE_CLOUD_PROJECT assetsCollection)
      as [m2 [e|]] eqn:Hbuild; [discriminate|].
    destruct (Save ftSave gcs m2 indexBucketName indexObjectName) as [gcs2 [e|]] eqn:Hsave;
      [discriminate|].
    intros [= <- <-].
    destruct (Save_ok _ _ _ _ _ _ Hsave) as (idx & blob & Hidx & Hw & ->).
    split; [unfold HasIndex; rewrite Hidx; reflexivity|].
    right. split; [exact Hmiss|]. split; [exact Hproj|]. split; [reflexivity|].
    exists idx, blob. auto.
  - cbn [HasIndex index negb idMap new_manager]. intros [= <- <-].
    split; [reflexivity|]. left. exists blob, idx. auto.
Qed.

(** When the snapshot object can be opened, [main] does what [Load] does
    and nothing else: it is fatal when [Load] fails (a snapshot that cannot be
    read is not replaced by a rebuild) and serves otherwise, whatever
    Firestore holds and whether or not the project variable is set; the
    store is as it was. *)
Theorem main_snapshot_found (ftLoad ftSave : Faults) (fs : Firestore)
    (GOOGLE_CLOUD_PROJECT : string) (gcs : gmap (string * string) (list byte))
    (blob : list byte) :
  NewReader ftLoad gcs indexBucketName indexObjectName = inl blob ->
  main NewIndexFlatL2 ftLoad ftSave fs GOOGLE_CLOUD_PROJECT gcs =
    match Load ftLoad gcs new_manager indexBucketName indexObjectName with
    | (m, Some err) => (Fatal ("Failed to load index: " +:+ Error err), new_manager, gcs)
    | (m, None) => (Serving, m, gcs)
    end.
Proof.
  intros Hreader. unfold main, Load. rewrite Hreader.
  destruct (f_NewClient ftLoad); [reflexivity|].
  destruct (f_CreateTemp ftLoad); [reflexivity|].
  destruct (f_Copy ftLoad) as [[n e]|]; [reflexivity|].
  destruct (ReadIndex blob); reflexivity.
Qed.

End Startup.

Section StartupExamples.
Import faiss index firestore index_build startup flat.

Lemma main_serving_example :
  HasIndex (snd (fst (main scenario.NewIndexFlatL2_ok no_faults no_faults scenario.fs
                        "proofpix" ∅))) = true /\
  fst (fst (main scenario.NewIndexFlatL2_ok no_faults no_faults scenario.fs
              "proofpix" ∅)) = Serving.
Proof.
  assert (Hs : fst (fst (main scenario.NewIndexFlatL2_ok no_faults no_faults scenario.fs
                           "proofpix" ∅)) = Serving) by (vm_compute; reflexivity).
  destruct (main scenario.NewIndexFlatL2_ok no_faults no_faults scenario.fs "proofpix" ∅)
    as [[o m'] gcs'] eqn:E.
  cbn [fst snd] in *. subst o.
  split; [|reflexivity].
  exact (proj1 (main_serving scenario.NewIndexFlatL2_ok no_faults no_faults scenario.fs
                  "proofpix" ∅ m' gcs' E)).
Defined.

Lemma main_snapshot_found_example :
  fst (fst (main scenario.NewIndexFlatL2_ok no_faults no_faults scenario.fs_broken ""
              scenario.small_store)) = Serving /\
  idMap (snd (fst (main scenario.NewIndexFlatL2_ok no_faults no_faults scenario.fs_broken ""
                     scenario.small_store))) = None.
Proof.
  rewrite (main_snapshot_found scenario.NewIndexFlatL2_ok no_faults no_faults
             scenario.fs_broken "" scenario.small_store
             (default [] (scenario.small_store
                            !! ("proofpix-index"%string, "latest.faiss"%string)))).
  - split; vm_compute; reflexivity.
  - vm_compute. reflexivity.
Defined.

End StartupExamples.

(** ** Rebuilding the index from the documents of the worker *)
Section Rebuild.
Import faiss index firestore index_build flat worker stored.

Lemma binary_round_exact (prec emax : Z) (s : bool) (m : positive) (e : Z) :
  fexp prec emax (Zpos (digits2_pos m) + e) = e ->
  e <= emax - prec ->
  binary_round prec emax s m e = S754_finite s m e.
Proof.
  intros Hcanon Hbound. unfold binary_round, shl_align. rewrite Hcanon, Z.sub_diag.
  unfold binary_round_aux, shr_fexp. cbn [Zdigits2 shr_record_of_loc].
  rewrite Hcanon, Z.sub_diag. cbn [shr shr_m loc_of_shr_record round_nearest_even].
  cbn [Zdigits2]. rewrite Hcanon, Z.sub_diag. cbn [shr shr_m shr_record_of_loc].
  replace (e <=? emax - prec) with true by (symmetry; apply Z.leb_le; exact Hbound).
  reflexivity.
Qed.

Lemma f32_fields (x : Z) :
  0 <= x < 2 ^ 32 ->
  0 <= Z.land (Z.shiftr x 23) 255 < 256 /\
  0 <= Z.land x (2 ^ 23 - 1) < 2 ^ 23 /\
  x = f32_sign (Z.testbit x 31) + Z.land (Z.shiftr x 23) 255 * 2 ^ 23
      + Z.land x (2 ^ 23 - 1).
Proof.
  intros Hx.
  change 255 with (Z.ones 8). change (2 ^ 23 - 1) with (Z.ones 23).
  rewrite !Z.land_ones, Z.shiftr_div_pow2 by lia.
  assert (Hs : f32_sign (Z.testbit x 31) = (x / 2 ^ 31) * 2 ^ 31).
  { unfold f32_sign. destruct (Z.testbit x 31) eqn:Hb.
    - apply Z.testbit_true in Hb; [|lia].
      assert (x / 2 ^ 31 < 2) by (apply Z.div_lt_upper_bound; lia).
      assert (0 <= x / 2 ^ 31) by (apply Z.div_pos; lia).
      assert (x / 2 ^ 31 = 1).
      { destruct (Z.eq_dec (x / 2 ^ 31) 0) as [E|]; [rewrite E in Hb; discriminate | lia]. }
      lia.
    - apply Z.testbit_false in Hb; [|lia].
      assert (x / 2 ^ 31 < 2) by (apply Z.div_lt_upper_bound; lia).
      assert (0 <= x / 2 ^ 31) by (apply Z.div_pos; lia).
      assert (x / 2 ^ 31 = 0).
      { destruct (Z.eq_dec (x / 2 ^ 31) 1) as [E|]; [rewrite E in Hb; discriminate | lia]. }
      lia. }
  rewrite Hs.
  pose proof (Z.mod_pos_bound (x / 2 ^ 23) (2 ^ 8) ltac:(lia)).
  pose proof (Z.mod_pos_bound x (2 ^ 23) ltac:(lia)).
  split; [lia|]. split; [lia|].
  pose proof (Z.div_mod x (2 ^ 23) ltac:(lia)) as H23.
  pose proof (Z.div_mod (x / 2 ^ 23) (2 ^ 8) ltac:(lia)) as H8.
  rewrite Z.div_div in H8 by lia. change (2 ^ 23 * 2 ^ 8) with (2 ^ 31) in H8.
  lia.
Qed.

Lemma digits2_pos_bounds (m : positive) (d : Z) :
  0 < d -> 2 ^ (d - 1) <= Zpos m < 2 ^ d -> Zpos (digits2_pos m) = d.
Proof.
  intros Hd Hm.
  assert (Hup : Zpos (digits2_pos m) <= d)
    by (apply (Zdigits2_bound (Zpos m) d); lia).
  rewrite digits2_pos_size in *.
  pose proof (Pos.size_gt m) as Hgt.
  assert (Hgt' : Zpos m < 2 ^ Zpos (Pos.size m)).
  { rewrite <- Pos2Z.inj_pow. apply Pos2Z.pos_lt_pos. exact Hgt. }
  destruct (Z.eq_dec (Zpos (Pos.size m)) d) as [|Hne]; [assumption|exfalso].
  assert (2 ^ Zpos (Pos.size m) <= 2 ^ (d - 1)) by (apply Z.pow_le_mono_r; lia).
  lia.
Qed.

(** A [float32] that is a number goes to [float64] and back unchanged. *)
Lemma float32_of_float64_decode (x : float32) :
  is_number x = true -> float32_of_float64 (f32_decode x) = x.
Proof.
  unfold is_number. intros Hn.
  apply andb_true_iff in Hn as [Hr Hnan]. apply andb_true_iff in Hr as [Hlo Hhi].
  apply Z.leb_le in Hlo. apply Z.ltb_lt in Hhi.
  destruct (f32_fields x (conj Hlo Hhi)) as (He & Hm & Hx).
  unfold float32_of_float64, f32_decode.
  set (E := Z.land (Z.shiftr x 23) 255) in *. set (M := Z.land x (2 ^ 23 - 1)) in *.
  set (s := Z.testbit x 31) in *.
  destruct (Z.eqb_spec E 255) as [HE|HE].
  - cbn [negb andb] in Hnan. apply negb_true_iff, negb_false_iff in Hnan.
    rewrite Hnan. apply Z.eqb_eq in Hnan. unfold f32_encode. lia.
  - destruct (Z.eqb_spec E 0) as [HE0|HE0].
    + destruct M as [|p|p] eqn:HM; [unfold f32_encode; lia| |lia].
      rewrite binary_round_exact.
      * unfold f32_encode. replace (Z.pos p <? 2 ^ 23) with true
          by (symmetry; apply Z.ltb_lt; lia). lia.
      * unfold fexp, emin, prec32, emax32.
        assert (0 < Zpos (digits2_pos p) <= 23)
          by (split; [lia | apply (Zdigits2_bound (Zpos p) 23); lia]).
        lia.
      * unfold prec32, emax32. lia.
    + destruct (M + 2 ^ 23) as [|p|p] eqn:HM; [lia| |lia].
      rewrite binary_round_exact.
      * unfold f32_encode. replace (Z.pos p <? 2 ^ 23) with false
          by (symmetry; apply Z.ltb_ge; lia). lia.
      * unfold fexp, emin, prec32, emax32.
        rewrite (digits2_pos_bounds p 24) by lia. lia.
      * unfold prec32, emax32. lia.
Qed.

Lemma vector_of_decode (v : list float32) :
  forallb is_number v = true ->
  vector_of (map (fun x => Float64 (f32_decode x)) v) = v.
Proof.
  induction v as [|x v IH]; [reflexivity|]. cbn [forallb map vector_of].
  intros Hv. apply andb_true_iff in Hv as [Hx Hv].
  rewrite float32_of_float64_decode by exact Hx. f_equal. apply IH. exact Hv.
Qed.

Lemma to_document_embedding (a : Asset) :
  embedding_of (to_document a)
    = Some (map (fun x => Float64 (f32_decode x)) (Embedding a)).
Proof.
  unfold embedding_of, to_document. cbn [Data].
  destruct (TrillianLeafIndex a =? 0);
    rewrite !lookup_insert_ne by discriminate; rewrite lookup_insert_eq; reflexivity.
Qed.

Lemma to_document_assetID (a : Asset) : assetID_of (to_document a) = ID a.
Proof.
  unfold assetID_of, to_document. cbn [Data Ref_ID].
  destruct (TrillianLeafIndex a =? 0);
    rewrite !lookup_insert_ne by discriminate; rewrite lookup_empty; reflexivity.
Qed.

Lemma taken_documents (assets : list Asset) :
  first_error (map (fun a => inl (to_document a)) assets) = None /\
  taken (map (fun a => inl (to_document a)) assets) = map to_document assets.
Proof.
  unfold taken. induction assets as [|a assets [IHe IHt]]; [split; reflexivity|].
  cbn [map first_error snapshots]. split; [exact IHe|].
  rewrite filter_cons_True
    by (unfold has_embedding; rewrite to_document_embedding; reflexivity).
  rewrite IHt. reflexivity.
Qed.

(** A rebuild restores what the worker stored.  Let the collection hold
    the documents that [saveAsset] writes for a list of assets, in the order
    in which Firestore hands them out, the embeddings being numbers.  Then
    [Build] with the flat index succeeds; vector number [i] of the new index
    is the embedding of asset number [i], cut or filled up with zeros to 1408
    floats and otherwise bit for bit; and the id map sends [i] to the id of
    that asset: the documents have no [assetId] field, so it is the
    document id that [Build] takes. *)
Theorem Build_restores_assets (fs : Firestore) (m : IndexManager IndexFlat)
    (projectID collectionName : string) (assets : list Asset) :
  NewClient fs projectID = None ->
  Documents fs collectionName = map (fun a => inl (to_document a)) assets ->
  Forall (fun a => forallb is_number (Embedding a) = true) assets ->
  exists (m' : IndexManager IndexFlat) (idx : IndexFlat),
    Build (fun d => inl (NewIndexFlatL2 d)) fs m projectID collectionName = (m', None) /\
    index m' = Some idx /\
    length (flat_xb idx) = length assets /\
    forall (i : nat) (a : Asset),
      assets !! i = Some a ->
      flat_xb idx !! i = Some (slot (Embedding a)) /\
      idMap_lookup (idMap m') (Z.of_nat i) = Some (ID a).
Proof.
  intros Hclient Hdocs Hnum.
  destruct (taken_documents assets) as [Herr Htaken].
  rewrite (Build_flat_run fs m _ _ Hclient) by (rewrite Hdocs; exact Herr).
  rewrite Hdocs, Htaken, !map_map.
  eexists _, _. split; [reflexivity|]. split; [reflexivity|].
  cbn [flat_xb idMap]. split; [apply length_map|].
  intros i a Hi. split.
  - rewrite list_lookup_fmap, Hi. cbn. do 2 f_equal.
    unfold vector_of_doc. rewrite to_document_embedding. cbn [default].
    apply vector_of_decode. rewrite Forall_lookup in Hnum. exact (Hnum i a Hi).
  - rewrite populate_lookup, length_map.
    pose proof (lookup_lt_Some _ _ _ Hi) as Hlt.
    rewrite decide_True by lia.
    rewrite Nat2Z.id, list_lookup_fmap, Hi. cbn. f_equal. apply to_document_assetID.
Qed.

Lemma Build_restores_assets_example :
  exists (m' : IndexManager IndexFlat) (idx : IndexFlat),
    Build (fun d => inl (NewIndexFlatL2 d)) scenario.fs_stored new_manager "proofpix" "assets"
      = (m', None) /\
    index m' = Some idx /\
    flat_xb idx !! 1%nat = Some (slot [sample.two]) /\
    idMap_lookup (idMap m') 1 = Some "asset-2"%string.
Proof.
  destruct (Build_restores_assets scenario.fs_stored new_manager "proofpix" "assets"
              scenario.stored_assets)
    as (m' & idx & Hb & Hi & _ & Hall); [reflexivity | reflexivity | |].
  - repeat constructor.
  - exists m', idx. split; [exact Hb|]. split; [exact Hi|].
    destruct (Hall 1%nat _ eq_refl) as [Hv Hid]. split; [exact Hv | exact Hid].
Defined.

End Rebuild.


(** ** More of the model against known values *)
Section MoreChecks.
Import auth index_build.

(** [strings.Split] keeps the empty parts. *)
Example Split_examples :
  Split "Bearer abc" = ["Bearer"; "abc"]%string /\
  Split "Bearer  abc" = ["Bearer"; ""; "abc"]%string /\
  Split "Bearer" = ["Bearer"%string] /\
  Split " abc" = [""; "abc"]%string /\
  Split "Bearer abc " = ["Bearer"; "abc"; ""]%string.
Proof. repeat split; reflexivity. Qed.

Example ToLower_example : ToLower "BeArEr-09" = "bearer-09"%string.
Proof. reflexivity. Qed.

(** [float32(x)] for 0.1, for the largest [float64], for a number just
    below the point where the conversion goes over to infinity, and for one
    that is lost below the least [float32]. *)
Example float32_of_float64_examples :
  float32_of_float64 (S754_finite false 7205759403792794 (-56)) = 1036831949 /\
  float32_of_float64 (S754_finite false 9007199254740991 971) = 255 * 2 ^ 23 /\
  float32_of_float64 (S754_finite false 9007198986305535 75) = 255 * 2 ^ 23 - 1 /\
  float32_of_float64 (S754_finite false 9007198986305536 75) = 255 * 2 ^ 23 /\
  float32_of_float64 (S754_finite true 6004799503160661 (-54)) = 3198855851 /\
  float32_of_float64 (S754_finite false 4903985730770844 (-185)) = 71362 /\
  float32_of_float64 (S754_finite false 8998853047850346 (-203)) = 0.
Proof. vm_compute. repeat split; reflexivity. Qed.

Example getEmbedding_example :
  vertex.getEmbedding scenario.service [x00] = ([sample.one; sample.two], None).
Proof. vm_compute. reflexivity. Qed.

Example endpoint_example :
  vertex.endpoint "proofpix" "us-central1" "gemini-1.5-flash"
    = "projects/proofpix/locations/us-central1/publishers/google/models/gemini-1.5-flash"%string.
Proof. reflexivity. Qed.

End MoreChecks.
